(** * Privacy-tiered document intelligence engine

    A shallow embedding of [CORE-PLATFORM/chromadb_intelligence_engine.py]:
    the privacy classifier ([classify_privacy_tier]), the chunker
    ([_chunk_text]), link extraction ([_extract_obsidian_links]), document
    ingestion ([process_document]) and search ([semantic_search]).

    Python [str] values are modelled as lists of 8-bit characters read as the
    code points U+0000..U+00FF; Python [int] values as [Z].  The services the
    engine consumes (embedding model, entity extractor, file system, hash,
    vector collections) are fields of the engine or of a [World] record. *)

From Stdlib Require Import ZArith List Ascii String Bool Lia Permutation Sorted.
From stdpp Require Import base decidable countable gmap strings pretty.
Import ListNotations.

Local Open Scope Z_scope.

(** ** Python strings *)

Abbreviation text := (list ascii).

Definition T (s : string) : text := list_ascii_of_string s.

Definition code (a : ascii) : N := N_of_ascii a.

Definition between (lo hi n : N) : bool := ((lo <=? n) && (n <=? hi))%N.

(** [str.isspace] on U+0000..U+00FF: tab..carriage return, the four
    separators U+001C..U+001F, space, NEL and the no-break space. *)
Definition isspace (a : ascii) : bool :=
  let n := code a in
  between 9 13 n || between 28 32 n || (n =? 133)%N || (n =? 160)%N.

(** Decimal digits (Unicode category Nd) below U+0100. *)
Definition isdecimal (a : ascii) : bool := between 48 57 (code a).

Definition is_upper (a : ascii) : bool := between 65 90 (code a).
Definition is_lower (a : ascii) : bool := between 97 122 (code a).

(** Word characters of [re] for [str] patterns: alphanumerics and the
    underscore.  Below U+0100 the alphanumerics are the ASCII ones, the
    ordinal indicators, micro sign, superscript digits, vulgar fractions and
    the Latin-1 letters. *)
Definition is_word (a : ascii) : bool :=
  let n := code a in
  isdecimal a || is_upper a || is_lower a || (n =? 95)%N
  || (n =? 170)%N || (n =? 178)%N || (n =? 179)%N || (n =? 181)%N
  || (n =? 185)%N || (n =? 186)%N || between 188 190 n
  || between 192 214 n || between 216 246 n || between 248 255 n.

(** Simple case mapping restricted to the characters the patterns of the
    engine contain (ASCII): no character of U+0080..U+00FF has an ASCII case
    variant. *)
Definition to_lower (a : ascii) : ascii :=
  if is_upper a then ascii_of_N (code a + 32) else a.
Definition to_upper (a : ascii) : ascii :=
  if is_lower a then ascii_of_N (code a - 32) else a.

Definition ascii_eqb (a b : ascii) : bool := (code a =? code b)%N.

Fixpoint lstrip (t : text) : text :=
  match t with
  | a :: t' => if isspace a then lstrip t' else t
  | [] => []
  end.

(** [str.strip()] *)
Definition strip (t : text) : text := rev (lstrip (rev (lstrip t))).

Definition len {A : Type} (l : list A) : Z := Z.of_nat (length l).

(** Slice bound normalisation of Python: a negative index counts from the
    end, and the result is clamped to [0, len]. *)
Definition norm_index (n i : Z) : Z :=
  if i <? 0 then Z.max 0 (i + n) else Z.min i n.

(** [l[i:j]], for strings and lists alike *)
Definition py_slice {A : Type} (l : list A) (i j : Z) : list A :=
  let n := Z.of_nat (length l) in
  let a := norm_index n i in
  let b := norm_index n j in
  firstn (Z.to_nat (b - a)) (skipn (Z.to_nat a) l).

(** [l[:j]] *)
Definition py_prefix {A : Type} (l : list A) (j : Z) : list A := py_slice l 0 j.

Fixpoint last_index (c : ascii) (s : text) (i found : Z) : Z :=
  match s with
  | [] => found
  | x :: s' => last_index c s' (i + 1) (if ascii_eqb x c then i else found)
  end.

(** [t.rfind(c, i, j)] for a one-character needle: the highest index in
    [t[i:j]] holding [c], or -1. *)
Definition py_rfind (t : text) (c : ascii) (i j : Z) : Z :=
  last_index c (py_slice t i j) (norm_index (len t) i) (-1).

(** ** Regular expressions

    The fragment of [re] syntax the engine's patterns use.  [run] lists the
    states a backtracking matcher reaches from a start state, in the order
    the matcher tries them (greedy repetition, left alternative first). *)

Inductive class_item :=
| CChar (c : ascii)
| CRange (lo hi : ascii)
| CSpace
| CDigit.

Inductive regex :=
| Eps
| Lit (c : ascii)
| AnyChar
| Class (negated : bool) (items : list class_item)
| WordB
| Seq (r1 r2 : regex)
| Alt (r1 r2 : regex)
| Repeat (lo : nat) (hi : option nat) (r : regex)
| Group (r : regex).

Definition in_item (a : ascii) (it : class_item) : bool :=
  match it with
  | CChar c => ascii_eqb a c
  | CRange lo hi => between (code lo) (code hi) (code a)
  | CSpace => isspace a
  | CDigit => isdecimal a
  end.

Definition in_class (ignorecase : bool) (items : list class_item) (a : ascii) : bool :=
  existsb (in_item a) items
  || (ignorecase && (existsb (in_item (to_lower a)) items
                     || existsb (in_item (to_upper a)) items)).

Definition lit_matches (ignorecase : bool) (c a : ascii) : bool :=
  if ignorecase then ascii_eqb (to_lower a) (to_lower c) else ascii_eqb a c.

(** A matcher state: the position in the text and the span of group 1. *)
Definition mstate := (nat * option (nat * nat))%type.

Definition word_at (t : text) (i : nat) : bool :=
  match nth_error t i with Some a => is_word a | None => false end.

(** [\b]: exactly one side of the position is a word character. *)
Definition at_boundary (t : text) (i : nat) : bool :=
  xorb (match i with O => false | S j => word_at t j end) (word_at t i).

Definition consume (t : text) (p : ascii -> bool) (st : mstate) : list mstate :=
  match nth_error t (fst st) with
  | Some a => if p a then [(S (fst st), snd st)] else []
  | None => []
  end.

Fixpoint times (f : mstate -> list mstate) (n : nat) (st : mstate) : list mstate :=
  match n with
  | O => [st]
  | S n' => flat_map (times f n') (f st)
  end.

(** At most [n] further greedy iterations; an iteration that consumes
    nothing ends the repetition. *)
Fixpoint upto (f : mstate -> list mstate) (n : nat) (st : mstate) : list mstate :=
  match n with
  | O => [st]
  | S n' =>
      flat_map (upto f n')
        (List.filter (fun st' => (fst st <? fst st')%nat) (f st)) ++ [st]
  end.

Fixpoint run (ic : bool) (t : text) (r : regex) (st : mstate) : list mstate :=
  match r with
  | Eps => [st]
  | Lit c => consume t (lit_matches ic c) st
  | AnyChar => consume t (fun a => negb (ascii_eqb a "010"%char)) st
  | Class neg items => consume t (fun a => xorb neg (in_class ic items a)) st
  | WordB => if at_boundary t (fst st) then [st] else []
  | Seq r1 r2 => flat_map (run ic t r2) (run ic t r1 st)
  | Alt r1 r2 => run ic t r1 st ++ run ic t r2 st
  | Repeat lo hi r' =>
      flat_map
        (upto (run ic t r')
           (match hi with
            | Some h => h - lo
            | None => length t
            end)%nat)
        (times (run ic t r') lo st)
  | Group r' =>
      map (fun st' => (fst st', Some (fst st, fst st'))) (run ic t r' st)
  end.

Record pattern := { pat_regex : regex; pat_ignorecase : bool }.

(** [re.compile(p, re.IGNORECASE)] and [re.compile(p)] on a parsed pattern. *)
Definition compile_ic (r : regex) : pattern := {| pat_regex := r; pat_ignorecase := true |}.
Definition compile (r : regex) : pattern := {| pat_regex := r; pat_ignorecase := false |}.

Definition match_at (p : pattern) (t : text) (i : nat) : list mstate :=
  run (pat_ignorecase p) t (pat_regex p) (i, None).

(** [pattern.search(t)] as a truth value: some start position matches. *)
Definition search (p : pattern) (t : text) : bool :=
  existsb (fun i => match match_at p t i with [] => false | _ => true end)
    (seq 0 (S (length t))).

Definition group1 (t : text) (st : mstate) : text :=
  match snd st with
  | Some (a, b) => firstn (b - a) (skipn a t)
  | None => []
  end.

Fixpoint findall_from (p : pattern) (t : text) (fuel i : nat) : list text :=
  match fuel with
  | O => []
  | S fuel' =>
      if (length t <? i)%nat then []
      else
        match match_at p t i with
        | st :: _ =>
            group1 t st
              :: findall_from p t fuel' (if (fst st =? i)%nat then S i else fst st)
        | [] => findall_from p t fuel' (S i)
        end
  end.

(** [re.findall] for a pattern with one group: the group's text of each
    successive leftmost match. *)
Definition findall (p : pattern) (t : text) : list text :=
  findall_from p t (S (length t)) 0.

(** Pattern syntax helpers. *)
Fixpoint lits (t : text) : regex :=
  match t with
  | [] => Eps
  | [c] => Lit c
  | c :: t' => Seq (Lit c) (lits t')
  end.

Definition word (s : string) : regex := lits (T s).

Fixpoint seqs (rs : list regex) : regex :=
  match rs with
  | [] => Eps
  | [r] => r
  | r :: rs' => Seq r (seqs rs')
  end.

Fixpoint alts (rs : list regex) : regex :=
  match rs with
  | [] => Class false []
  | [r] => r
  | r :: rs' => Alt r (alts rs')
  end.

Definition digit : regex := Class false [CDigit].
Definition exactly (n : nat) (r : regex) : regex := Repeat n (Some n) r.
Definition opt (r : regex) : regex := Repeat 0 (Some 1%nat) r.
Definition plus (r : regex) : regex := Repeat 1 None r.
Definition star (r : regex) : regex := Repeat 0 None r.
Definition at_least (n : nat) (r : regex) : regex := Repeat n None r.
Definition chars (s : string) : list class_item := map CChar (T s).

(** ** Privacy tiers and detection patterns *)

Inductive PrivacyTier := PUBLIC | BUSINESS | PERSONAL.

Definition tier_value (tier : PrivacyTier) : string :=
  match tier with
  | PUBLIC => "tier1_public_transferable_safe_for_sharing"
  | BUSINESS => "tier2_business_confidential_requires_abstraction"
  | PERSONAL => "tier3_personal_private_explicit_consent_required"
  end.

(** Iteration order of the [PrivacyTier] enumeration. *)
Definition all_tiers : list PrivacyTier := [PUBLIC; BUSINESS; PERSONAL].

Definition alnum_items : list class_item :=
  [CRange "A" "Z"; CRange "a" "z"; CRange "0" "9"]%char.

(** [\b\d{3}-\d{2}-\d{4}\b] *)
Definition re_ssn : regex :=
  seqs [WordB; exactly 3 digit; Lit "-"; exactly 2 digit; Lit "-"; exactly 4 digit; WordB].

(** [\b[A-Za-z0-9._%+-]+@[A-Za-z0-9.-]+\.[A-Z|a-z]{2,}\b] *)
Definition re_email : regex :=
  seqs [WordB; plus (Class false (alnum_items ++ chars "._%+-")); Lit "@";
        plus (Class false (alnum_items ++ chars ".-")); Lit ".";
        at_least 2 (Class false [CRange "A" "Z"; CChar "|"; CRange "a" "z"]%char);
        WordB].

(** [\b\d{4}[-\s]?\d{4}[-\s]?\d{4}[-\s]?\d{4}\b] *)
Definition re_card : regex :=
  let sep := opt (Class false [CChar "-"; CSpace]) in
  seqs [WordB; exactly 4 digit; sep; exactly 4 digit; sep; exactly 4 digit; sep;
        exactly 4 digit; WordB].

(** [\bpassword|secret|private key|confidential\b]: the anchors bind to the
    first and the last alternative only. *)
Definition re_credential : regex :=
  alts [Seq WordB (word "password"); word "secret"; word "private key";
        Seq (word "confidential") WordB].

(** [\bphone.*\d{3}[-.]?\d{3}[-.]?\d{4}\b] *)
Definition re_phone : regex :=
  let sep := opt (Class false (chars "-.")) in
  seqs [WordB; word "phone"; star AnyChar; exactly 3 digit; sep; exactly 3 digit; sep;
        exactly 4 digit; WordB].

(** [\bconfidential|proprietary|internal only\b] *)
Definition re_marker : regex :=
  alts [Seq WordB (word "confidential"); word "proprietary";
        Seq (word "internal only") WordB].

(** [\bapi[_\s]key|access[_\s]token\b] *)
Definition re_apikey : regex :=
  let sep := Class false [CChar "_"; CSpace] in
  alts [seqs [WordB; word "api"; sep; word "key"];
        seqs [word "access"; sep; word "token"; WordB]].

(** [\bclient|customer|revenue|profit\b] *)
Definition re_commercial : regex :=
  alts [Seq WordB (word "client"); word "customer"; word "revenue";
        Seq (word "profit") WordB].

(** [\bcontract|agreement|deal\b] *)
Definition re_contract : regex :=
  alts [Seq WordB (word "contract"); word "agreement"; Seq (word "deal") WordB].

(** [self.privacy_patterns]: no entry for [PUBLIC]. *)
Definition privacy_patterns (tier : PrivacyTier) : option (list regex) :=
  match tier with
  | PERSONAL => Some [re_ssn; re_email; re_card; re_credential; re_phone]
  | BUSINESS => Some [re_marker; re_apikey; re_commercial; re_contract]
  | PUBLIC => None
  end.

(** [self.compiled_patterns] as [_init_privacy_detector] builds it. *)
Definition init_compiled_patterns (tier : PrivacyTier) : option (list pattern) :=
  option_map (map compile_ic) (privacy_patterns tier).

(** [\[\[([^\]]+)\]\]] *)
Definition link_pattern : pattern :=
  compile (seqs [Lit "["; Lit "["; Group (plus (Class true [CChar "]"])); Lit "]"; Lit "]"]).

(** ** The chunker *)

Section Chunker.

Variables (chunk_size chunk_overlap : Z) (t : text).

(** The right edge of the window that starts at [start]: the raw cut, moved
    back to just after the last full stop when that lies in the second half
    of the window and the cut is not the end of the text. *)
Definition window_end (start : Z) : Z :=
  let end_ := Z.min (start + chunk_size) (len t) in
  if end_ <? len t then
    let last_period := py_rfind t "."%char start end_ in
    if start + Z.div chunk_size 2 <? last_period then last_period + 1 else end_
  else end_.

Definition next_start (start : Z) : Z :=
  Z.max (start + 1) (window_end start - chunk_overlap).

Definition window_chunk (start : Z) : text :=
  strip (py_slice t start (window_end start)).

Definition nonempty {A : Type} (l : list A) : bool :=
  match l with [] => false | _ => true end.

(** The [while start < text_len] loop; [None] when [fuel] iterations do
    not reach the end of the text. *)
Fixpoint chunk_loop (fuel : nat) (start : Z) (chunks : list text) : option (list text) :=
  if start <? len t then
    match fuel with
    | O => None
    | S fuel' =>
        let chunk := window_chunk start in
        chunk_loop fuel' (next_start start)
          (if nonempty chunk then chunks ++ [chunk] else chunks)
    end
  else Some chunks.

(** The same loop, recording the window [(start, end)] of every iteration. *)
Fixpoint window_loop (fuel : nat) (start : Z) (spans : list (Z * Z)) : option (list (Z * Z)) :=
  if start <? len t then
    match fuel with
    | O => None
    | S fuel' => window_loop fuel' (next_start start) (spans ++ [(start, window_end start)])
    end
  else Some spans.

Definition chunk_text : option (list text) := chunk_loop (length t) 0 [].

Definition chunk_windows : option (list (Z * Z)) := window_loop (length t) 0 [].

End Chunker.

(** The chunks a list of windows yields: each window trimmed, blank ones
    dropped. *)
Definition chunks_of (t : text) (spans : list (Z * Z)) : list text :=
  List.filter nonempty (map (fun se => strip (py_slice t (fst se) (snd se))) spans).

(** ** Ranking *)

Section Sorting.

Context {A : Type} (key : A -> Z).

Fixpoint insert_by (x : A) (l : list A) : list A :=
  match l with
  | [] => [x]
  | y :: l' => if key x <=? key y then x :: l else y :: insert_by x l'
  end.

(** [list.sort(key=...)]: ascending and stable. *)
Definition sort_by (l : list A) : list A := fold_right insert_by [] l.

Definition by_key (a b : A) : Prop := key a <= key b.

End Sorting.

(** ** Data model *)

Definition vector := list Z.

Record entity := { ent_label : string; ent_text : text }.

(** The metadata dictionary stored with every chunk. *)
Record chunk_meta := {
  source_file : string;
  chunk_index : nat;
  meta_privacy_tier : string;
  meta_processed_timestamp : Z;
  meta_content_hash : string }.

Record entry := {
  e_id : string;
  e_embedding : vector;
  e_document : text;
  e_metadata : chunk_meta }.

(** A vector collection: its records, oldest first. *)
Abbreviation collection := (list entry).

(** One element of the list [semantic_search] returns.  Distances are
    floating-point numbers of which only the order is used; they are
    modelled as integers. *)
Record hit := {
  hit_document : text;
  hit_metadata : chunk_meta;
  hit_distance : Z;
  hit_id : string }.

(** The parallel arrays a collection query returns for one query vector. *)
Record query_result := {
  qr_documents : list text;
  qr_metadatas : list chunk_meta;
  qr_distances : list Z;
  qr_ids : list string }.

Record DocumentMetadata := {
  file_path : string;
  content_hash : string;
  privacy_tier : PrivacyTier;
  file_type : string;
  size_bytes : Z;
  processed_timestamp : Z;
  embedding_model : string;
  chunk_count : nat;
  language : string;
  sentiment_score : Z;
  topics : list string;
  entities : list (string * list text);
  vault_location : option string;
  obsidian_links : list text }.

Inductive exn :=
| ValueError (msg : string)
| TypeError (msg : string)
| IndexError
| DuplicateIDError
| ServiceError (msg : string)
| OutOfFuel.

Inductive result (A : Type) :=
| Ok (a : A)
| Raise (e : exn).
Arguments Ok {A} a.
Arguments Raise {A} e.

(** ** The collection primitive

    ChromaDB's [Collection.add] and [Collection.count] as documented for the
    persistent client the engine creates: [add] rejects an empty batch, a
    batch with a repeated id and arrays of unequal length; a record whose id
    the collection already holds is skipped, the stored record staying as it
    is. *)

Definition has_id (c : collection) (id : string) : bool :=
  existsb (fun e => String.eqb (e_id e) id) c.

Definition add_record (c : collection) (e : entry) : collection :=
  if has_id c (e_id e) then c else c ++ [e].

Fixpoint distinct (ids : list string) : bool :=
  match ids with
  | [] => true
  | id :: ids' => negb (existsb (String.eqb id) ids') && distinct ids'
  end.

Fixpoint zip_entries (ids : list string) (embeddings : list vector)
    (documents : list text) (metadatas : list chunk_meta) : list entry :=
  match ids, embeddings, documents, metadatas with
  | id :: ids', v :: embeddings', d :: documents', m :: metadatas' =>
      {| e_id := id; e_embedding := v; e_document := d; e_metadata := m |}
        :: zip_entries ids' embeddings' documents' metadatas'
  | _, _, _, _ => []
  end.

Definition collection_add (c : collection) (embeddings : list vector)
    (documents : list text) (ids : list string) (metadatas : list chunk_meta)
    : result collection :=
  if negb (nonempty ids) then Raise (ValueError "Expected IDs to be a non-empty list")
  else if negb (distinct ids) then Raise DuplicateIDError
  else if negb ((length embeddings =? length ids)%nat
                && (length documents =? length ids)%nat
                && (length metadatas =? length ids)%nat)
  then Raise (ValueError "Unequal lengths")
  else Ok (fold_left add_record (zip_entries ids embeddings documents metadatas) c).

Definition collection_count (c : collection) : nat := length c.

(** ** Engine state *)

Record stats := {
  documents_processed : Z;
  embeddings_created : Z;
  queries_executed : Z;
  tier1 : Z;
  tier2 : Z;
  tier3 : Z }.

(** Calls to external services, as issued. *)
Inductive call :=
| CallNlp (t : text)
| CallEncode (texts : list text)
| CallAdd (tier : PrivacyTier) (ids : list string)
| CallQuery (tier : PrivacyTier) (n_results : Z).

(** The attributes of [self] the modelled methods read or write, the clock
    read by [datetime.now()] and the log of external calls. *)
Record engine := {
  config_chunk_size : option Z;
  config_chunk_overlap : option Z;
  nlp_pipeline : option (text -> list entity);
  compiled_patterns : PrivacyTier -> option (list pattern);
  collections : PrivacyTier -> collection;
  processing_stats : stats;
  clock : Z;
  calls : list call }.

(** Services outside the engine. *)
Record World := {
  extract_text : string -> text;
  stat_size : string -> result Z;
  suffix_lower : string -> string;
  sha256_hex : text -> string;
  encode : list text -> result (list vector);
  model_name : string;
  index_query : collection -> list vector -> Z -> result query_result }.

Definition M (A : Type) : Type := engine -> result A * engine.

Definition ret {A : Type} (a : A) : M A := fun s => (Ok a, s).

Definition raise {A : Type} (e : exn) : M A := fun s => (Raise e, s).

Definition bind {A B : Type} (m : M A) (k : A -> M B) : M B :=
  fun s =>
    match m s with
    | (Ok a, s') => k a s'
    | (Raise e, s') => (Raise e, s')
    end.

Notation "'let!' x ':=' m 'in' k" := (bind m (fun x => k))
  (at level 10, x name, m at level 100, k at level 200).

Definition get : M engine := fun s => (Ok s, s).

Definition modify (f : engine -> engine) : M unit := fun s => (Ok tt, f s).

Definition lift {A : Type} (r : result A) : M A := fun s => (r, s).

Definition set_stats (f : stats -> stats) (s : engine) : engine :=
  {| config_chunk_size := config_chunk_size s;
     config_chunk_overlap := config_chunk_overlap s;
     nlp_pipeline := nlp_pipeline s;
     compiled_patterns := compiled_patterns s;
     collections := collections s;
     processing_stats := f (processing_stats s);
     clock := clock s;
     calls := calls s |}.

Definition set_collection (tier : PrivacyTier) (c : collection) (s : engine) : engine :=
  {| config_chunk_size := config_chunk_size s;
     config_chunk_overlap := config_chunk_overlap s;
     nlp_pipeline := nlp_pipeline s;
     compiled_patterns := compiled_patterns s;
     collections := fun tier' =>
       match tier, tier' with
       | PUBLIC, PUBLIC | BUSINESS, BUSINESS | PERSONAL, PERSONAL => c
       | _, _ => collections s tier'
       end;
     processing_stats := processing_stats s;
     clock := clock s;
     calls := calls s |}.

Definition log_call (c : call) (s : engine) : engine :=
  {| config_chunk_size := config_chunk_size s;
     config_chunk_overlap := config_chunk_overlap s;
     nlp_pipeline := nlp_pipeline s;
     compiled_patterns := compiled_patterns s;
     collections := collections s;
     processing_stats := processing_stats s;
     clock := clock s;
     calls := calls s ++ [c] |}.

(** [datetime.now()]: successive readings increase. *)
Definition now : M Z := fun s =>
  (Ok (clock s),
   {| config_chunk_size := config_chunk_size s;
      config_chunk_overlap := config_chunk_overlap s;
      nlp_pipeline := nlp_pipeline s;
      compiled_patterns := compiled_patterns s;
      collections := collections s;
      processing_stats := processing_stats s;
      clock := clock s + 1;
      calls := calls s |}).

Definition bump_tier1 (st : stats) : stats :=
  {| documents_processed := documents_processed st;
     embeddings_created := embeddings_created st;
     queries_executed := queries_executed st;
     tier1 := tier1 st + 1; tier2 := tier2 st; tier3 := tier3 st |}.

Definition bump_tier2 (st : stats) : stats :=
  {| documents_processed := documents_processed st;
     embeddings_created := embeddings_created st;
     queries_executed := queries_executed st;
     tier1 := tier1 st; tier2 := tier2 st + 1; tier3 := tier3 st |}.

Definition bump_tier3 (st : stats) : stats :=
  {| documents_processed := documents_processed st;
     embeddings_created := embeddings_created st;
     queries_executed := queries_executed st;
     tier1 := tier1 st; tier2 := tier2 st; tier3 := tier3 st + 1 |}.

Definition bump_documents (chunks : Z) (st : stats) : stats :=
  {| documents_processed := documents_processed st + 1;
     embeddings_created := embeddings_created st + chunks;
     queries_executed := queries_executed st;
     tier1 := tier1 st; tier2 := tier2 st; tier3 := tier3 st |}.

Definition bump_queries (st : stats) : stats :=
  {| documents_processed := documents_processed st;
     embeddings_created := embeddings_created st;
     queries_executed := queries_executed st + 1;
     tier1 := tier1 st; tier2 := tier2 st; tier3 := tier3 st |}.

(** ** The privacy classifier *)

(** [self.compiled_patterns.get(tier, [])] *)
Definition patterns_of (s : engine) (tier : PrivacyTier) : list pattern :=
  match compiled_patterns s tier with
  | Some ps => ps
  | None => []
  end.

(** [any(pattern.search(t) for pattern in ps)], as the [for] loops with an
    early [return] compute it. *)
Definition any_match (ps : list pattern) (t : text) : bool :=
  existsb (fun p => search p t) ps.

Definition sensitive_entities : list string := ["PERSON"; "ORG"; "GPE"; "MONEY"; "DATE"]%string.

Definition entity_count (doc : list entity) : Z :=
  len (List.filter (fun ent => existsb (String.eqb (ent_label ent)) sensitive_entities) doc).

Definition classify_privacy_tier (t : text) : M PrivacyTier :=
  let! s := get in
  if any_match (patterns_of s PERSONAL) t then
    let! _ := modify (set_stats bump_tier3) in ret PERSONAL
  else if any_match (patterns_of s BUSINESS) t then
    let! _ := modify (set_stats bump_tier2) in ret BUSINESS
  else
    match nlp_pipeline s with
    | Some nlp =>
        let! _ := modify (log_call (CallNlp (py_prefix t 1000))) in
        if 5 <? entity_count (nlp (py_prefix t 1000)) then
          let! _ := modify (set_stats bump_tier2) in ret BUSINESS
        else
          let! _ := modify (set_stats bump_tier1) in ret PUBLIC
    | None => let! _ := modify (set_stats bump_tier1) in ret PUBLIC
    end.

(** ** Chunking and link extraction as methods *)

(** [self._chunk_text(t)], with the configured size and overlap or their
    defaults 512 and 50. *)
Definition _chunk_text (s : engine) (t : text) : option (list text) :=
  chunk_text (default 512 (config_chunk_size s)) (default 50 (config_chunk_overlap s)) t.

(** [list(set(matches))]: the distinct matches in the iteration order of the
    set, which is unrelated to the order of the matches. *)
Definition _extract_obsidian_links (t : text) : list text :=
  elements (list_to_set (findall link_pattern t) : gset text).

(** ** Ingestion and search *)

Fixpoint entities_append (label : string) (x : text) (d : list (string * list text))
    : list (string * list text) :=
  match d with
  | [] => [(label, [x])]
  | (l, xs) :: d' =>
      if String.eqb l label then (l, xs ++ [x]) :: d'
      else (l, xs) :: entities_append label x d'
  end.

(** The [entities] dictionary: surface strings by label, in order of
    occurrence. *)
Definition group_entities (doc : list entity) : list (string * list text) :=
  fold_left (fun d ent => entities_append (ent_label ent) (ent_text ent) d) doc [].

(** [f"{content_hash}_{i}" for i in range(n)] *)
Definition chunk_ids (content_hash : string) (n : nat) : list string :=
  map (fun i : nat => content_hash +:+ "_" +:+ pretty i) (seq 0 n).

Fixpoint for_each {A B : Type} (f : A -> M B) (l : list A) : M (list B) :=
  match l with
  | [] => ret []
  | a :: l' =>
      let! b := f a in
      let! bs := for_each f l' in
      ret (b :: bs)
  end.

Definition truthy (o : option string) : bool :=
  match o with
  | Some (String _ _) => true
  | _ => false
  end.

(** The rows [semantic_search] builds from one query result:
    [metadatas], [distances] and [ids] are indexed by the position of each
    document. *)
Fixpoint hits_from (r : query_result) (i : nat) (docs : list text) : result (list hit) :=
  match docs with
  | [] => Ok []
  | doc :: docs' =>
      match nth_error (qr_metadatas r) i, nth_error (qr_distances r) i,
            nth_error (qr_ids r) i with
      | Some m, Some d, Some id =>
          match hits_from r (S i) docs' with
          | Ok hs =>
              Ok ({| hit_document := doc; hit_metadata := m;
                     hit_distance := d; hit_id := id |} :: hs)
          | Raise e => Raise e
          end
      | _, _, _ => Raise IndexError
      end
  end.

Definition hits_of (r : query_result) : result (list hit) :=
  hits_from r 0 (qr_documents r).

Section Engine.

Variable W : World.

Definition call_nlp (t : text) : M (list entity) :=
  let! s := get in
  match nlp_pipeline s with
  | Some nlp => let! _ := modify (log_call (CallNlp t)) in ret (nlp t)
  | None => raise (TypeError "'NoneType' object is not callable")
  end.

Definition call_encode (texts : list text) : M (list vector) :=
  let! _ := modify (log_call (CallEncode texts)) in
  lift (encode W texts).

(** [self.collections[tier].add(...)] *)
Definition call_add (tier : PrivacyTier) (embeddings : list vector)
    (documents : list text) (ids : list string) (metadatas : list chunk_meta) : M unit :=
  let! s := get in
  let! _ := modify (log_call (CallAdd tier ids)) in
  let! c := lift (collection_add (collections s tier) embeddings documents ids metadatas) in
  modify (set_collection tier c).

(** ChromaDB's [Collection.query]: the number of results must be positive;
    the ranking is the index's. *)
Definition collection_query (c : collection) (query_embeddings : list vector)
    (n_results : Z) : result query_result :=
  if n_results <=? 0 then
    Raise (TypeError "Number of requested results cannot be negative, or zero")
  else index_query W c query_embeddings n_results.

Definition call_query (tier : PrivacyTier) (query_embeddings : list vector)
    (n_results : Z) : M query_result :=
  let! s := get in
  let! _ := modify (log_call (CallQuery tier n_results)) in
  lift (collection_query (collections s tier) query_embeddings n_results).

Definition chunk_metadata (path : string) (tier : PrivacyTier) (hash : string)
    (i : nat) : M chunk_meta :=
  let! ts := now in
  ret {| source_file := path; chunk_index := i;
         meta_privacy_tier := tier_value tier;
         meta_processed_timestamp := ts;
         meta_content_hash := hash |}.

(** [process_document]; the [except] clause logs and re-raises.  Paths are
    strings in the form [str(Path(p))] gives them. *)
Definition process_document (path : string) (vault : option string) : M DocumentMetadata :=
  let! start_time := now in
  let text_content := extract_text W path in
  let hash := sha256_hex W text_content in
  let! tier := classify_privacy_tier text_content in
  let! doc := call_nlp (py_prefix text_content 5000) in
  let ents := group_entities doc in
  let! s := get in
  match _chunk_text s text_content with
  | None => raise OutOfFuel
  | Some chunks =>
      let! embeddings := call_encode chunks in
      let ids := chunk_ids hash (length chunks) in
      let! metadatas := for_each (chunk_metadata path tier hash) (seq 0 (length chunks)) in
      let! _ := call_add tier embeddings chunks ids metadatas in
      let links := if truthy vault then _extract_obsidian_links text_content else [] in
      let! size := lift (stat_size W path) in
      let! stamp := now in
      let metadata :=
        {| file_path := path; content_hash := hash; privacy_tier := tier;
           file_type := suffix_lower W path; size_bytes := size;
           processed_timestamp := stamp; embedding_model := model_name W;
           chunk_count := length chunks; language := "en"; sentiment_score := 0;
           topics := ["general"%string]; entities := ents;
           vault_location := vault; obsidian_links := links |} in
      let! _ := modify (set_stats (bump_documents (len chunks))) in
      let! _ := now in
      ret metadata
  end.

(** The [for collection in collections_to_search] loop. *)
Fixpoint search_collections (tiers : list PrivacyTier) (query_embedding : list vector)
    (limit : Z) (results : list hit) : M (list hit) :=
  match tiers with
  | [] => ret results
  | tier :: tiers' =>
      let! search_results := call_query tier query_embedding (Z.min limit 100) in
      let! hs := lift (hits_of search_results) in
      search_collections tiers' query_embedding limit (results ++ hs)
  end.

Definition collections_to_search (filter : option PrivacyTier) : list PrivacyTier :=
  match filter with
  | Some tier => [tier]
  | None => all_tiers
  end.

Definition semantic_search (query : text) (filter : option PrivacyTier) (limit : Z)
    : M (list hit) :=
  let! query_embedding := call_encode [query] in
  let! results := search_collections (collections_to_search filter) query_embedding limit [] in
  let sorted := sort_by hit_distance results in
  let! _ := modify (set_stats bump_queries) in
  ret (py_prefix sorted limit).

End Engine.

(** What one tier contributes to a search: the rows built from its query
    result, the query asking for [min(limit, 100)] results. *)
Definition tier_hits (W : World) (colls : PrivacyTier -> collection)
    (query_embedding : list vector) (limit : Z) (tier : PrivacyTier) : result (list hit) :=
  match collection_query W (colls tier) query_embedding (Z.min limit 100) with
  | Ok search_results => hits_of search_results
  | Raise e => Raise e
  end.

(** The parts of the engine that ingestion and search leave alone, except
    for the collections a successful [add] extends. *)
Definition same_setup (s s' : engine) : Prop :=
  config_chunk_size s' = config_chunk_size s
  /\ config_chunk_overlap s' = config_chunk_overlap s
  /\ nlp_pipeline s' = nlp_pipeline s
  /\ compiled_patterns s' = compiled_patterns s.

(** [s'] differs from [s] in counters, clock and call log only. *)
Definition frame (s s' : engine) : Prop :=
  same_setup s s' /\ collections s' = collections s.

(** ** A concrete engine and world *)

Definition zero_stats : stats :=
  {| documents_processed := 0; embeddings_created := 0; queries_executed := 0;
     tier1 := 0; tier2 := 0; tier3 := 0 |}.

(** The engine after [initialize_components] with the default
    configuration, given the entity extractor. *)
Definition init_engine (nlp : option (text -> list entity)) : engine :=
  {| config_chunk_size := Some 512;
     config_chunk_overlap := Some 50;
     nlp_pipeline := nlp;
     compiled_patterns := init_compiled_patterns;
     collections := fun _ => [];
     processing_stats := zero_stats;
     clock := 0;
     calls := [] |}.

(** A small world for concrete runs: every path holds [content]; the
    entity extractor finds nothing; an embedding is the list of the
    character codes of its text; the index ranks stored records by the
    difference in length to the query, nearest first. *)
Definition demo_nlp : text -> list entity := fun _ => [].

Definition demo_embed (t : text) : vector := map (fun a => Z.of_N (code a)) t.

Definition demo_distance (q v : vector) : Z := Z.abs (len q - len v).

Definition demo_index (c : collection) (qs : list vector) (n : Z) : result query_result :=
  match qs with
  | [q] =>
      let ranked :=
        firstn (Z.to_nat n) (sort_by (fun e => demo_distance q (e_embedding e)) c) in
      Ok {| qr_documents := map e_document ranked;
            qr_metadatas := map e_metadata ranked;
            qr_distances := map (fun e => demo_distance q (e_embedding e)) ranked;
            qr_ids := map e_id ranked |}
  | _ => Raise (ValueError "one query embedding expected")
  end.

Definition demo_world (content : text) : World :=
  {| extract_text := fun _ => content;
     stat_size := fun _ => Ok (len content);
     suffix_lower := fun _ => ".txt"%string;
     sha256_hex := fun t => string_of_list_ascii t;
     encode := fun texts => Ok (map demo_embed texts);
     model_name := "all-MiniLM-L6-v2";
     index_query := demo_index |}.

Definition demo_engine : engine := init_engine (Some demo_nlp).

(** An engine holding four records in two tiers, and the rows the demo
    index returns for them on the query "abc". *)
Definition demo_meta : chunk_meta :=
  {| source_file := "demo.txt"; chunk_index := 0;
     meta_privacy_tier := tier_value PUBLIC; meta_processed_timestamp := 0;
     meta_content_hash := "demo" |}.

Definition demo_entry (id : string) (n : nat) : entry :=
  {| e_id := id; e_embedding := repeat 0 n; e_document := T id; e_metadata := demo_meta |}.

Definition demo_hit (id : string) (d : Z) : hit :=
  {| hit_document := T id; hit_metadata := demo_meta; hit_distance := d; hit_id := id |}.

Definition search_demo_engine : engine :=
  {| config_chunk_size := Some 512;
     config_chunk_overlap := Some 50;
     nlp_pipeline := Some demo_nlp;
     compiled_patterns := init_compiled_patterns;
     collections := fun tier =>
       match tier with
       | PUBLIC => [demo_entry "p1" 5; demo_entry "p2" 3]
       | BUSINESS => [demo_entry "b1" 1; demo_entry "b2" 4]
       | PERSONAL => []
       end;
     processing_stats := zero_stats;
     clock := 0;
     calls := [] |}.

Definition search_demo_rows : list (list hit) :=
  [[demo_hit "p2" 0; demo_hit "p1" 2]; [demo_hit "b2" 1; demo_hit "b1" 2]; []].

(** An engine whose configuration file sets the chunk size and overlap. *)
Definition configure (chunk_size chunk_overlap : Z) (s : engine) : engine :=
  {| config_chunk_size := Some chunk_size;
     config_chunk_overlap := Some chunk_overlap;
     nlp_pipeline := nlp_pipeline s;
     compiled_patterns := compiled_patterns s;
     collections := collections s;
     processing_stats := processing_stats s;
     clock := clock s;
     calls := calls s |}.

(** [c] occurs in [t] as a run of consecutive characters. *)
Definition substring (c t : text) : Prop := exists pre post, t = pre ++ c ++ post.

(** The text does not begin with white space. *)
Definition starts_clean (t : text) : Prop :=
  match t with
  | [] => True
  | a :: _ => isspace a = false
  end.

(** The windows the loop records start inside the text, are not empty and
    are at most [cs] characters wide. *)
Definition window_ok (cs : Z) (t : text) (se : Z * Z) : Prop :=
  0 <= fst se < snd se /\ snd se <= len t /\ snd se - fst se <= cs.

(** Position [i] lies in one of the windows. *)
Definition covered (i : Z) (spans : list (Z * Z)) : Prop :=
  exists s e, In (s, e) spans /\ s <= i < e.

(** The counter [classify_privacy_tier] keeps for a tier. *)
Definition tier_counter (tier : PrivacyTier) (st : stats) : Z :=
  match tier with
  | PUBLIC => tier1 st
  | BUSINESS => tier2 st
  | PERSONAL => tier3 st
  end.

Definition tier_eqb (a b : PrivacyTier) : bool :=
  match a, b with
  | PUBLIC, PUBLIC | BUSINESS, BUSINESS | PERSONAL, PERSONAL => true
  | _, _ => false
  end.

(** The counters of documents, embeddings and queries. *)
Definition work_counters (s : engine) : Z * Z * Z :=
  (documents_processed (processing_stats s),
   embeddings_created (processing_stats s),
   queries_executed (processing_stats s)).

(** [s'] differs from [s] in the classification counters, clock and call
    log only. *)
Definition quiet (s s' : engine) : Prop :=
  frame s s' /\ work_counters s' = work_counters s.

(** What the chunk metadata of one document have in common. *)
Definition meta_of (path : string) (tier : PrivacyTier) (hash : string) (m : chunk_meta) : Prop :=
  source_file m = path
  /\ meta_privacy_tier m = tier_value tier
  /\ meta_content_hash m = hash.

(** The number of classifications counted. *)
Definition tier_total (s : engine) : Z :=
  tier1 (processing_stats s) + tier2 (processing_stats s) + tier3 (processing_stats s).

(** The first ingestion of the demo document. *)
Definition demo_first_run : result DocumentMetadata * engine :=
  process_document (demo_world (T "hi")) "a.txt" None demo_engine.

(** The rows of one tier among the rows of the three tiers. *)
Definition rows_of (pub bus per : list hit) (tier : PrivacyTier) : list hit :=
  match tier with
  | PUBLIC => pub
  | BUSINESS => bus
  | PERSONAL => per
  end.

(** The surface strings of the entities with a given label, in order of
    occurrence. *)
Definition surfaces (label : string) (doc : list entity) : list text :=
  map ent_text (List.filter (fun e => String.eqb (ent_label e) label) doc).

(** ** Health check and statistics *)

(** [d[key] = value] on a dictionary kept in insertion order. *)
Fixpoint dict_set {V : Type} (key : string) (value : V) (d : list (string * V))
    : list (string * V) :=
  match d with
  | [] => [(key, value)]
  | (k, v) :: d' =>
      if String.eqb k key then (k, value) :: d' else (k, v) :: dict_set key value d'
  end.

(** [d.get(key)] *)
Fixpoint dict_get {V : Type} (key : string) (d : list (string * V)) : option V :=
  match d with
  | [] => None
  | (k, v) :: d' => if String.eqb k key then Some v else dict_get key d'
  end.

(** A [try] block: the outcome of the body, exception or not, as a value. *)
Definition try_ {A : Type} (m : M A) : M (result A) :=
  fun s => let (r, s') := m s in (Ok r, s').

(** The entry for one component: "healthy", or "error: " and the
    exception. *)
Inductive component_status :=
| Healthy
| Failing (e : exn).

Record health := {
  h_status : string;
  h_components : list (string * component_status);
  h_timestamp : Z }.

Definition probe {A : Type} (name : string) (r : result A) (h : health) : health :=
  match r with
  | Ok _ =>
      {| h_status := h_status h;
         h_components := dict_set name Healthy (h_components h);
         h_timestamp := h_timestamp h |}
  | Raise e =>
      {| h_status := "degraded";
         h_components := dict_set name (Failing e) (h_components h);
         h_timestamp := h_timestamp h |}
  end.

(** [health_check]; [heartbeat] is the outcome of the client's heartbeat
    call. *)
Definition health_check (W : World) (heartbeat : result Z) : M health :=
  let! stamp := now in
  let h0 := {| h_status := "healthy"; h_components := []; h_timestamp := stamp |} in
  let h1 := probe "chromadb" heartbeat h0 in
  let! test_embedding := try_ (call_encode W [T "health check"]) in
  let h2 := probe "embedding_model" test_embedding h1 in
  let! test_doc := try_ (call_nlp (T "Health check test.")) in
  let h3 := probe "nlp_pipeline" test_doc h2 in
  ret h3.

(** What the report holds for a collection: its count, or 0 when
    [collection.count()] raises. *)
Definition reported (count : collection -> result nat) (c : collection) : nat :=
  match count c with
  | Ok n => n
  | Raise _ => 0%nat
  end.

(** [get_processing_stats]: the statistics and, under each tier's value,
    what is reported for its collection; [count] is [collection.count()]. *)
Definition get_processing_stats (count : collection -> result nat)
    : M (stats * list (string * nat)) :=
  let! s := get in
  ret (processing_stats s,
       fold_left
         (fun counts tier => dict_set (tier_value tier) (reported count (collections s tier)) counts)
         all_tiers []).

Definition is_healthy (c : component_status) : Prop :=
  match c with
  | Healthy => True
  | Failing _ => False
  end.

(** ** Collections by name and text extraction *)

Fixpoint split_from (sep : ascii) (t cur : text) : list text :=
  match t with
  | [] => [cur]
  | a :: t' =>
      if ascii_eqb a sep then cur :: split_from sep t' []
      else split_from sep t' (cur ++ [a])
  end.

(** [t.split(sep)] for a one-character separator. *)
Definition py_split (t : text) (sep : ascii) : list text := split_from sep t [].

(** [l[0]] *)
Definition index0 {A : Type} (l : list A) : result A :=
  match l with
  | x :: _ => Ok x
  | [] => Raise IndexError
  end.

(** [f"sefirot_{tier.value.split('_')[0]}"] *)
Definition collection_name (tier : PrivacyTier) : result string :=
  match index0 (py_split (T (tier_value tier)) "_"%char) with
  | Ok segment => Ok ("sefirot_" +:+ string_of_list_ascii segment)
  | Raise e => Raise e
  end.

(** The collections of the persistent client, by name. *)
Abbreviation registry := (gmap string (list entry)).

(** [client.get_or_create_collection(name)]: an absent collection is
    created empty, a present one is left as it is. *)
Definition get_or_create_collection (name : string) (reg : registry) : registry :=
  match reg !! name with
  | Some _ => reg
  | None => <[name := []]> reg
  end.

(** The loop of [_init_chromadb]: the client's collections afterwards and
    the name each tier is bound to. *)
Fixpoint init_collections (tiers : list PrivacyTier) (reg : registry)
    (bound : list (PrivacyTier * string)) : result (registry * list (PrivacyTier * string)) :=
  match tiers with
  | [] => Ok (reg, bound)
  | tier :: tiers' =>
      match collection_name tier with
      | Ok name =>
          init_collections tiers' (get_or_create_collection name reg) (bound ++ [(tier, name)])
      | Raise e => Raise e
      end
  end.

Definition _init_chromadb (reg : registry) : result (registry * list (PrivacyTier * string)) :=
  init_collections all_tiers reg [].

(** The file readers [_extract_text_content] relies on: the pages of a PDF
    with the outcome of extracting each, the paragraphs of a Word document,
    the text of a file, and the converter for other formats. *)
Record Readers := {
  pdf_pages : string -> result (list (result text));
  docx_paragraphs : string -> result (list text);
  read_text : string -> result text;
  docling_text : string -> result text }.

Definition newline : ascii := "010"%char.

(** [for page in reader.pages: text += page.extract_text() + "\n"] *)
Fixpoint pdf_text (pages : list (result text)) (acc : text) : result text :=
  match pages with
  | [] => Ok acc
  | Ok page :: pages' => pdf_text pages' (acc ++ page ++ [newline])
  | Raise e :: _ => Raise e
  end.

(** [except Exception: return ""] *)
Definition or_empty (r : result text) : result text :=
  match r with
  | Ok t => Ok t
  | Raise _ => Ok []
  end.

Definition _extract_pdf_text (R : Readers) (path : string) : result text :=
  or_empty
    match pdf_pages R path with
    | Ok pages => pdf_text pages []
    | Raise e => Raise e
    end.

Definition _extract_docx_text (R : Readers) (path : string) : result text :=
  or_empty
    match docx_paragraphs R path with
    | Ok paragraphs => Ok (fold_left (fun acc p => acc ++ p ++ [newline]) paragraphs [])
    | Raise e => Raise e
    end.

(** [_extract_text_content]; [file_ext] is [file_path.suffix.lower()]. *)
Definition _extract_text_content (R : Readers) (file_ext path : string) : result text :=
  or_empty
    (if String.eqb file_ext ".pdf" then _extract_pdf_text R path
     else if existsb (String.eqb file_ext) [".docx"; ".doc"]%string then _extract_docx_text R path
     else if existsb (String.eqb file_ext) [".txt"; ".md"]%string then read_text R path
     else docling_text R path).

(** The page texts when every page could be extracted. *)
Fixpoint all_ok (pages : list (result text)) : option (list text) :=
  match pages with
  | [] => Some []
  | Ok page :: pages' =>
      match all_ok pages' with
      | Some ps => Some (page :: ps)
      | None => None
      end
  | Raise _ :: _ => None
  end.

(** ** Vault migration

    [_clean_content_privacy] and [_migrate_vault_files] of the vault
    transplantation system, the caller of [classify_privacy_tier]. *)

(** A compiled pattern of the cleaner, by the two methods the cleaner
    calls: [findall(string)] and [sub(repl, string)]. *)
Record cleaner := {
  cl_findall : text -> list text;
  cl_sub : text -> text -> text }.

(** The marker a category's matches are replaced with. *)
Definition replacement (category : string) : option text :=
  if String.eqb category "personal_identifiers" then Some (T "[PERSONAL_INFO_REMOVED]")
  else if String.eqb category "api_credentials" then Some (T "[API_CREDENTIAL_REMOVED]")
  else if String.eqb category "private_conversations" then Some (T "[CONVERSATION_REMOVED]")
  else None.

(** The body of the inner loop of [_clean_content_privacy]. *)
Definition clean_with (category : string) (acc : text * bool) (p : cleaner) : text * bool :=
  match cl_findall p (fst acc) with
  | [] => acc
  | _ :: _ =>
      (match replacement category with
       | Some marker => cl_sub p marker (fst acc)
       | None => fst acc
       end, true)
  end.

(** [_clean_content_privacy]; [compiled] is [self.compiled_patterns] in
    insertion order. *)
Definition _clean_content_privacy (compiled : list (string * list cleaner)) (content : text)
    : text * bool :=
  fold_left (fun acc entry => fold_left (clean_with (fst entry)) (snd entry) acc)
    compiled (content, false).

Inductive file_content :=
| TextFile (t : text)
| BinaryFile (bytes : list ascii).

(** The files on disk, by path. *)
Abbreviation disk := (gmap string file_content).

(** Path arithmetic and the operations of the host that can fail for
    reasons outside the program. *)
Record Host := {
  path_suffix_lower : string -> string;
  path_join : string -> string -> string;
  path_parent : string -> string;
  can_mkdir : string -> bool;
  can_write : string -> bool }.

(** The fields of [VaultTransplantationConfig] the migration reads. *)
Record transplant_config := {
  target_vault_path : string;
  privacy_cleaning_enabled : bool;
  privacy_tier_limits : option (list PrivacyTier) }.

(** An entry of [vault_structure['files']]. *)
Record file_info := {
  info_path : string;
  info_relative_path : string }.

Record migration := {
  total_processed : Z;
  migrated : Z;
  privacy_cleaned : Z;
  excluded : Z;
  privacy_tier_counts : list (string * Z) }.

(** The engine the transplanter holds, if any, the disk, and the results
    so far. *)
Record vault_state := {
  v_engine : option engine;
  v_disk : disk;
  v_results : migration }.

(** [path.read_text(encoding='utf-8')] *)
Definition read_text_file (d : disk) (path : string) : option text :=
  match d !! path with
  | Some (TextFile t) => Some t
  | _ => None
  end.

(** [s[-1]] *)
Definition index_last {A : Type} (l : list A) : result A :=
  match rev l with
  | x :: _ => Ok x
  | [] => Raise IndexError
  end.

(** [f"tier{privacy_tier.value.split('_')[0][-1]}"] *)
Definition tier_key (tier : PrivacyTier) : result string :=
  match index0 (py_split (T (tier_value tier)) "_"%char) with
  | Ok segment =>
      match index_last segment with
      | Ok digit => Ok ("tier" +:+ String digit EmptyString)
      | Raise e => Raise e
      end
  | Raise e => Raise e
  end.

(** [results['privacy_tier_counts'][key] += 1]; [None] is the [KeyError]
    of a missing key. *)
Definition count_tier (key : string) (r : migration) : option migration :=
  match dict_get key (privacy_tier_counts r) with
  | Some n =>
      Some {| total_processed := total_processed r; migrated := migrated r;
              privacy_cleaned := privacy_cleaned r; excluded := excluded r;
              privacy_tier_counts := dict_set key (n + 1) (privacy_tier_counts r) |}
  | None => None
  end.

Definition bump_excluded (r : migration) : migration :=
  {| total_processed := total_processed r; migrated := migrated r;
     privacy_cleaned := privacy_cleaned r; excluded := excluded r + 1;
     privacy_tier_counts := privacy_tier_counts r |}.

Definition bump_cleaned (r : migration) : migration :=
  {| total_processed := total_processed r; migrated := migrated r;
     privacy_cleaned := privacy_cleaned r + 1; excluded := excluded r;
     privacy_tier_counts := privacy_tier_counts r |}.

Definition bump_migrated (r : migration) : migration :=
  {| total_processed := total_processed r; migrated := migrated r + 1;
     privacy_cleaned := privacy_cleaned r; excluded := excluded r;
     privacy_tier_counts := privacy_tier_counts r |}.

(** [privacy_tier in limits] *)
Definition in_tiers (tier : PrivacyTier) (limits : list PrivacyTier) : bool :=
  existsb (tier_eqb tier) limits.

(** [self.config.privacy_tier_limits and privacy_tier not in
    self.config.privacy_tier_limits]: [None] and the empty list are both
    false. *)
Definition over_limit (cfg : transplant_config) (tier : PrivacyTier) : bool :=
  match privacy_tier_limits cfg with
  | Some (t0 :: limits) => negb (in_tiers tier (t0 :: limits))
  | _ => false
  end.

(** The tier of a text: [PUBLIC] without an engine, the engine's
    classification with one. *)
Definition classify_content (eng : option engine) (content : text)
    : result PrivacyTier * option engine :=
  match eng with
  | Some e => let (r, e') := classify_privacy_tier content e in (r, Some e')
  | None => (Ok PUBLIC, None)
  end.

(** The cleaning step of the loop body: the text to write and the
    results. *)
Definition clean_step (compiled : list (string * list cleaner)) (cfg : transplant_config)
    (content : text) (r : migration) : text * migration :=
  if privacy_cleaning_enabled cfg then
    let cleaned := _clean_content_privacy compiled content in
    (fst cleaned, if snd cleaned then bump_cleaned r else r)
  else (content, r).

(** [shutil.copy2(source, target)]: the source must exist and be another
    file than the target. *)
Definition copy2 (H : Host) (d : disk) (source target : string) : option disk :=
  match d !! source with
  | Some c =>
      if String.eqb source target then None
      else if can_write H target then Some (<[target := c]> d)
      else None
  | None => None
  end.

Definition is_text_suffix (ext : string) : bool :=
  existsb (String.eqb ext) [".md"; ".txt"]%string.

Definition target_of (H : Host) (cfg : transplant_config) (f : file_info) : string :=
  path_join H (target_vault_path cfg) (info_relative_path f).

(** One iteration of the loop of [_migrate_vault_files]: the body of the
    [try], where an exception ends the iteration with the state reached so
    far. *)
Definition migrate_file (H : Host) (compiled : list (string * list cleaner))
    (cfg : transplant_config) (st : vault_state) (f : file_info) : vault_state :=
  let target_path := target_of H cfg f in
  if negb (can_mkdir H (path_parent H target_path)) then st
  else if is_text_suffix (path_suffix_lower H (info_path f)) then
    match read_text_file (v_disk st) (info_path f) with
    | None => st
    | Some content =>
        let (r, eng) := classify_content (v_engine st) content in
        let st1 := {| v_engine := eng; v_disk := v_disk st; v_results := v_results st |} in
        match r with
        | Raise _ => st1
        | Ok privacy_tier =>
            match tier_key privacy_tier with
            | Raise _ => st1
            | Ok key =>
                match count_tier key (v_results st) with
                | None => st1
                | Some counted =>
                    if over_limit cfg privacy_tier then
                      {| v_engine := eng; v_disk := v_disk st;
                         v_results := bump_excluded counted |}
                    else
                      let (content', cleaned) := clean_step compiled cfg content counted in
                      if can_write H target_path then
                        {| v_engine := eng;
                           v_disk := <[target_path := TextFile content']> (v_disk st);
                           v_results := bump_migrated cleaned |}
                      else
                        {| v_engine := eng; v_disk := v_disk st; v_results := cleaned |}
                end
            end
        end
    end
  else
    match copy2 H (v_disk st) (info_path f) target_path with
    | Some d =>
        {| v_engine := v_engine st; v_disk := d; v_results := bump_migrated (v_results st) |}
    | None => st
    end.

Definition initial_results (files : list file_info) : migration :=
  {| total_processed := len files; migrated := 0; privacy_cleaned := 0; excluded := 0;
     privacy_tier_counts := [("tier1", 0); ("tier2", 0); ("tier3", 0)]%string |}.

(** [_migrate_vault_files]: the engine, the disk and the results
    afterwards; [None] when creating the target directory raises. *)
Definition _migrate_vault_files (H : Host) (compiled : list (string * list cleaner))
    (cfg : transplant_config) (files : list file_info) (eng : option engine) (d : disk)
    : option vault_state :=
  if can_mkdir H (target_vault_path cfg) then
    Some (fold_left (migrate_file H compiled cfg) files
            {| v_engine := eng; v_disk := d; v_results := initial_results files |})
  else None.

(** The count the results hold under a tier's key. *)
Definition tier_count (tier : PrivacyTier) (r : migration) : Z :=
  match tier_key tier with
  | Ok key => default 0 (dict_get key (privacy_tier_counts r))
  | Raise _ => 0
  end.

(** The tier the migration assigns to a text. *)
Definition tier_of (eng : option engine) (content : text) : result PrivacyTier :=
  fst (classify_content eng content).
(** The spans of the successive leftmost matches of [p] in [t], as
    [findall] and [sub] visit them: after an empty match the next match at
    the same position must be non-empty. *)
Fixpoint scan (p : pattern) (t : text) (fuel i : nat) (must_advance : bool)
    : list (nat * nat) :=
  match fuel with
  | O => []
  | S fuel' =>
      if (length t <? i)%nat then []
      else
        match List.filter (fun st => negb must_advance || (i <? fst st)%nat) (match_at p t i) with
        | st :: _ => (i, fst st) :: scan p t fuel' (fst st) (fst st =? i)%nat
        | [] => scan p t fuel' (S i) false
        end
  end.

Definition match_spans (p : pattern) (t : text) : list (nat * nat) :=
  scan p t (2 * length t + 3) 0 false.

(** [pattern.findall(t)] for a pattern without groups. *)
Definition findall0 (p : pattern) (t : text) : list text :=
  map (fun span => firstn (snd span - fst span) (skipn (fst span) t)) (match_spans p t).

Fixpoint splice (marker t : text) (spans : list (nat * nat)) (i : nat) : text :=
  match spans with
  | [] => skipn i t
  | (a, b) :: spans' => firstn (a - i) (skipn i t) ++ marker ++ splice marker t spans' b
  end.

(** [pattern.sub(marker, t)] for a replacement without group references. *)
Definition re_sub (p : pattern) (marker t : text) : text :=
  splice marker t (match_spans p t) 0.

Definition cleaner_of (p : pattern) : cleaner :=
  {| cl_findall := findall0 p; cl_sub := re_sub p |}.

(** [\b\+?1?[-.\s]?\(?[0-9]{3}\)?[-.\s]?[0-9]{3}[-.\s]?[0-9]{4}\b] *)
Definition re_vault_phone : regex :=
  let sep := opt (Class false [CChar "-"; CChar "."; CSpace]) in
  let d := Class false [CRange "0" "9"] in
  seqs [WordB; opt (Lit "+"); opt (Lit "1"); sep; opt (Lit "("); exactly 3 d; opt (Lit ")");
        sep; exactly 3 d; sep; exactly 4 d; WordB]%char.

(** The compiled patterns of the category [personal_identifiers]; the
    flag [re.MULTILINE] changes nothing for patterns without [^] and [$]. *)
Definition personal_identifier_cleaners : list cleaner :=
  map (fun r => cleaner_of (compile_ic r)) [re_ssn; re_email; re_card; re_vault_phone].

(** ** A small vault *)

Definition demo_host : Host :=
  {| path_suffix_lower := fun p => if String.eqb p "/vault/logo.png" then ".png" else ".md";
     path_join := fun a b => a +:+ "/" +:+ b;
     path_parent := fun p => p;
     can_mkdir := fun _ => true;
     can_write := fun _ => true |}%string.

Definition demo_disk : disk :=
  {[ "/vault/id.md" := TextFile (T "my ssn is 123-45-6789");
     "/vault/note.md" := TextFile (T "call 555-123-4567 today");
     "/vault/logo.png" := BinaryFile (T "PNG") ]}%string.

Definition demo_files : list file_info :=
  [ {| info_path := "/vault/id.md"; info_relative_path := "id.md" |};
    {| info_path := "/vault/note.md"; info_relative_path := "note.md" |};
    {| info_path := "/vault/logo.png"; info_relative_path := "logo.png" |} ]%string.

Definition demo_config : transplant_config :=
  {| target_vault_path := "/new"; privacy_cleaning_enabled := true;
     privacy_tier_limits := Some [PUBLIC; BUSINESS] |}.

Definition demo_cleaners : list (string * list cleaner) :=
  [("personal_identifiers"%string, personal_identifier_cleaners)].

Definition demo_migration : option vault_state :=
  _migrate_vault_files demo_host demo_cleaners demo_config demo_files (Some demo_engine)
    demo_disk.

(** The dictionary of tier counts with its three keys. *)
Definition tier_counts (a b c : Z) : list (string * Z) :=
  [("tier1", a); ("tier2", b); ("tier3", c)]%string.

Definition flag (b : bool) : Z := if b then 1 else 0.

(** How the results can have moved after [n] iterations of the loop. *)
Definition advance (cfg : transplant_config) (n : Z) (r r' : migration) : Prop :=
  exists a b c a' b' c',
    privacy_tier_counts r = tier_counts a b c
    /\ privacy_tier_counts r' = tier_counts a' b' c'
    /\ total_processed r' = total_processed r
    /\ a <= a' /\ b <= b' /\ c <= c'
    /\ (a' - a) + (b' - b) + (c' - c) <= n
    /\ excluded r' - excluded r
       = flag (over_limit cfg PUBLIC) * (a' - a)
         + flag (over_limit cfg BUSINESS) * (b' - b)
         + flag (over_limit cfg PERSONAL) * (c' - c)
    /\ 0 <= privacy_cleaned r' - privacy_cleaned r
    /\ privacy_cleaned r' - privacy_cleaned r
       <= flag (negb (over_limit cfg PUBLIC)) * (a' - a)
          + flag (negb (over_limit cfg BUSINESS)) * (b' - b)
          + flag (negb (over_limit cfg PERSONAL)) * (c' - c)
    /\ (privacy_cleaning_enabled cfg = false -> privacy_cleaned r' = privacy_cleaned r)
    /\ 0 <= migrated r' - migrated r
    /\ (migrated r' - migrated r) + (excluded r' - excluded r) <= n.

(** The text a migrated text file is written as. *)
Definition written_text (compiled : list (string * list cleaner)) (cfg : transplant_config)
    (content : text) : text :=
  if privacy_cleaning_enabled cfg then fst (_clean_content_privacy compiled content)
  else content.
(** What the target path of a text file holds once the file has been
    processed. *)
Definition text_fate (H : Host) (compiled : list (string * list cleaner))
    (cfg : transplant_config) (d : disk) (f : file_info) (content : text)
    (tier : PrivacyTier) : option file_content :=
  if over_limit cfg tier then d !! target_of H cfg f
  else if can_mkdir H (path_parent H (target_of H cfg f)) && can_write H (target_of H cfg f)
       then Some (TextFile (written_text compiled cfg content))
       else d !! target_of H cfg f.

(** What the target path of another file holds once it has been
    processed. *)
Definition copy_fate (H : Host) (cfg : transplant_config) (d : disk) (f : file_info)
    (c : file_content) : option file_content :=
  if can_mkdir H (path_parent H (target_of H cfg f)) && can_write H (target_of H cfg f)
  then Some c
  else d !! target_of H cfg f.

(** A state of the loop in which [f] is still to be read as on the disk
    [d] and classified as by the engine [eng]. *)
Definition ready_for (eng : option engine) (d : disk) (f : file_info) (st : vault_state)
    : Prop :=
  v_disk st !! info_path f = d !! info_path f
  /\ (forall c, tier_of (v_engine st) c = tier_of eng c)
  /\ exists a b c, privacy_tier_counts (v_results st) = tier_counts a b c.

(** The demo world with a file whose size cannot be read. *)
Definition unreadable_size_world (content : text) : World :=
  {| extract_text := extract_text (demo_world content);
     stat_size := fun _ => Raise (ServiceError "stat failed");
     suffix_lower := suffix_lower (demo_world content);
     sha256_hex := sha256_hex (demo_world content);
     encode := encode (demo_world content);
     model_name := model_name (demo_world content);
     index_query := index_query (demo_world content) |}.

Definition demo_failed_run : result DocumentMetadata * engine :=
  process_document (unreadable_size_world (T "hi")) "a.txt" None demo_engine.

(** The three texts of the classification scenario. *)
Definition scenario_email : text := T "Contact me at alice@example.com".
Definition scenario_contract : text :=
  T "This contract is confidential and includes client revenue details".
Definition scenario_fox : text := T "The quick brown fox jumps over the lazy dog".

(** * Properties *)

(** ** Slices and [rfind] *)

Lemma norm_index_inside (n i : Z) : 0 <= i <= n -> norm_index n i = i.
Proof.
  intros H. unfold norm_index.
  destruct (Z.ltb_spec i 0); lia.
Qed.

Lemma norm_index_range (n i : Z) : 0 <= n -> 0 <= norm_index n i <= n.
Proof.
  intros H. unfold norm_index.
  destruct (Z.ltb_spec i 0); lia.
Qed.

Lemma py_slice_length {A : Type} (l : list A) (a b : Z) :
  0 <= a <= b -> b <= len l -> len (py_slice l a b) = b - a.
Proof.
  intros Ha Hb. unfold py_slice, len in *.
  rewrite !norm_index_inside by lia.
  rewrite length_firstn, length_skipn. lia.
Qed.

Lemma py_slice_length_le {A : Type} (l : list A) (i j : Z) :
  len (py_slice l i j) <= Z.max 0 (norm_index (len l) j - norm_index (len l) i).
Proof.
  unfold py_slice, len. rewrite length_firstn. lia.
Qed.

Lemma last_index_range (c : ascii) (s : text) (i found : Z) :
  last_index c s i found = found
  \/ i <= last_index c s i found < i + len s.
Proof.
  revert i found. induction s as [|x s IH]; intros i found; cbn [last_index].
  - now left.
  - unfold len in *. cbn [length]. rewrite Nat2Z.inj_succ.
    destruct (IH (i + 1) (if ascii_eqb x c then i else found)) as [E|E].
    + rewrite E. destruct (ascii_eqb x c); [right; lia | now left].
    + right. lia.
Qed.

Lemma py_rfind_range (t : text) (c : ascii) (a b : Z) :
  0 <= a -> a <= len t ->
  py_rfind t c a b = -1 \/ a <= py_rfind t c a b < Z.max a (norm_index (len t) b).
Proof.
  intros Ha Hl. unfold py_rfind.
  pose proof (py_slice_length_le t a b) as Hs.
  rewrite (norm_index_inside (len t) a) in * by lia.
  destruct (last_index_range c (py_slice t a b) a (-1)) as [E|E]; [now left|].
  right. lia.
Qed.

(** ** The chunker *)

Lemma next_start_advances (cs ov : Z) (t : text) (start : Z) :
  start + 1 <= next_start cs ov t start.
Proof. unfold next_start. lia. Qed.

Lemma window_end_le (cs ov : Z) (t : text) (start : Z) :
  0 <= start < len t -> 0 <= cs ->
  window_end cs t start <= Z.min (start + cs) (len t).
Proof.
  intros Hs Hc. unfold window_end.
  destruct (Z.ltb_spec (Z.min (start + cs) (len t)) (len t)) as [Hlt|]; [|lia].
  destruct (Z.ltb_spec (start + Z.div cs 2) (py_rfind t "."%char start (Z.min (start + cs) (len t))))
    as [Hp|]; [|lia].
  destruct (py_rfind_range t "."%char start (Z.min (start + cs) (len t))) as [E|E]; try lia.
  rewrite norm_index_inside in E by lia. lia.
Qed.

Lemma window_end_ge (cs : Z) (t : text) (start : Z) :
  Z.min (Z.min (start + cs) (len t)) (start + Z.div cs 2 + 2) <= window_end cs t start.
Proof.
  unfold window_end.
  destruct (Z.ltb_spec (Z.min (start + cs) (len t)) (len t)); [|lia].
  destruct (Z.ltb_spec (start + Z.div cs 2) (py_rfind t "."%char start (Z.min (start + cs) (len t))));
    lia.
Qed.

Lemma chunk_loop_total (cs ov : Z) (t : text) (fuel : nat) :
  forall start chunks,
    len t - start <= Z.of_nat fuel ->
    exists r, chunk_loop cs ov t fuel start chunks = Some r.
Proof.
  induction fuel as [|fuel IH]; intros start chunks Hf; simpl.
  - destruct (Z.ltb_spec start (len t)); [lia | eauto].
  - destruct (Z.ltb_spec start (len t)); [|eauto].
    apply IH. pose proof (next_start_advances cs ov t start). lia.
Qed.

Lemma chunk_loop_more_fuel (cs ov : Z) (t : text) (fuel : nat) :
  forall start chunks r,
    chunk_loop cs ov t fuel start chunks = Some r ->
    forall fuel', (fuel <= fuel')%nat -> chunk_loop cs ov t fuel' start chunks = Some r.
Proof.
  induction fuel as [|fuel IH]; intros start chunks r H fuel' Hle; simpl in H.
  - destruct fuel'; simpl; destruct (start <? len t); congruence.
  - destruct fuel' as [|fuel']; [lia|]. simpl.
    destruct (start <? len t); [|exact H].
    apply (IH _ _ _ H). lia.
Qed.

Lemma chunk_loop_nonempty (cs ov : Z) (t : text) (fuel : nat) :
  forall start chunks r,
    chunk_loop cs ov t fuel start chunks = Some r ->
    Forall (fun c => nonempty c = true) chunks ->
    Forall (fun c => nonempty c = true) r.
Proof.
  induction fuel as [|fuel IH]; intros start chunks r H Hc; simpl in H.
  - destruct (start <? len t); congruence.
  - destruct (start <? len t); [|congruence].
    apply (IH _ _ _ H).
    destruct (nonempty (window_chunk cs t start)) eqn:E; [|exact Hc].
    apply Forall_app. split; [exact Hc|]. constructor; [exact E|constructor].
Qed.

Lemma chunks_of_app (t : text) (a b : list (Z * Z)) :
  chunks_of t (a ++ b) = chunks_of t a ++ chunks_of t b.
Proof. unfold chunks_of. now rewrite map_app, List.filter_app. Qed.

Lemma chunk_loop_windows (cs ov : Z) (t : text) (fuel : nat) :
  forall start spans w,
    window_loop cs ov t fuel start spans = Some w ->
    chunk_loop cs ov t fuel start (chunks_of t spans) = Some (chunks_of t w).
Proof.
  induction fuel as [|fuel IH]; intros start spans w H; simpl in *.
  - destruct (start <? len t); congruence.
  - destruct (start <? len t); [|congruence].
    specialize (IH _ _ _ H). rewrite chunks_of_app in IH.
    unfold chunks_of at 2 in IH. simpl in IH.
    unfold window_chunk.
    destruct (nonempty (strip (py_slice t start (window_end cs t start))));
      [exact IH | now rewrite app_nil_r in IH].
Qed.

Lemma window_loop_total (cs ov : Z) (t : text) (fuel : nat) :
  forall start spans,
    len t - start <= Z.of_nat fuel ->
    exists w, window_loop cs ov t fuel start spans = Some w.
Proof.
  induction fuel as [|fuel IH]; intros start spans Hf; simpl.
  - destruct (Z.ltb_spec start (len t)); [lia | eauto].
  - destruct (Z.ltb_spec start (len t)); [|eauto].
    apply IH. pose proof (next_start_advances cs ov t start). lia.
Qed.

Lemma window_loop_prefix (cs ov : Z) (t : text) (fuel : nat) :
  forall start spans w,
    window_loop cs ov t fuel start spans = Some w ->
    exists rest, w = spans ++ rest
      /\ (start < len t -> exists rest', rest = (start, window_end cs t start) :: rest'
            /\ exists fuel', fuel = S fuel'
               /\ window_loop cs ov t fuel' (next_start cs ov t start)
                    (spans ++ [(start, window_end cs t start)]) = Some w).
Proof.
  induction fuel as [|fuel IH]; intros start spans w H; simpl in H.
  - destruct (Z.ltb_spec start (len t)); [congruence|].
    exists []. split; [rewrite app_nil_r; congruence | lia].
  - destruct (Z.ltb_spec start (len t)).
    + destruct (IH _ _ _ H) as (rest & -> & _).
      exists ((start, window_end cs t start) :: rest). split.
      * now rewrite <- app_assoc.
      * intros _. exists rest. split; [reflexivity|]. exists fuel. split; [reflexivity|].
        exact H.
    + exists []. split; [rewrite app_nil_r; congruence | lia].
Qed.

Lemma chunk_text_returns (cs ov : Z) (t : text) :
  exists chunks,
    chunk_text cs ov t = Some chunks
    /\ Forall (fun c => nonempty c = true) chunks
    /\ forall fuel, (length t <= fuel)%nat -> chunk_loop cs ov t fuel 0 [] = Some chunks.
Proof.
  destruct (chunk_loop_total cs ov t (length t) 0 []) as [r Hr]; [unfold len; lia|].
  exists r. split; [exact Hr|]. split.
  - apply (chunk_loop_nonempty _ _ _ _ _ _ _ Hr). constructor.
  - intros fuel Hf. now apply (chunk_loop_more_fuel _ _ _ _ _ _ _ Hr).
Qed.

(** C9: for every text and every integer configuration with
    [chunk_size >= 1], also one with [overlap >= chunk_size] or a negative
    overlap, the start of the window grows by at least one character per
    iteration and the loop ends: [length t] iterations reach the end of the
    text, and more fuel does not change the chunk list. *)
Theorem chunk_text_terminates (cs ov : Z) (t : text) (Hcs : 1 <= cs) :
  (forall start, start + 1 <= next_start cs ov t start)
  /\ exists chunks,
       chunk_text cs ov t = Some chunks
       /\ forall fuel, (length t <= fuel)%nat -> chunk_loop cs ov t fuel 0 [] = Some chunks.
Proof.
  split.
  - intros start. apply next_start_advances.
  - destruct (chunk_text_returns cs ov t) as (chunks & H1 & _ & H3). eauto.
Qed.

Lemma chunk_text_terminates_witness :
  1 <= 3
  /\ ((forall start, start + 1 <= next_start 3 7 (T "hello") start)
      /\ exists chunks,
           chunk_text 3 7 (T "hello") = Some chunks
           /\ forall fuel, (length (T "hello") <= fuel)%nat ->
                chunk_loop 3 7 (T "hello") fuel 0 [] = Some chunks).
Proof.
  split; [lia | apply (chunk_text_terminates 3 7 (T "hello")); lia].
Defined.

(** C5 fails as stated: with [chunk_size = chunk_overlap = 10] the
    chunker returns chunks instead of failing. *)
Lemma chunk_text_accepts_overlap_10_10 :
  ~ (10 > 10 /\ 10 >= 0)
  /\ _chunk_text (configure 10 10 demo_engine) (T "hello")
     = Some [T "hello"; T "ello"; T "llo"; T "lo"; T "o"].
Proof. split; [lia | vm_compute; reflexivity]. Qed.

(** C5, amended: the chunker does not validate its configuration.  For
    every text and every integer configuration that violates
    [chunk_size > overlap >= 0] it returns a list of non-empty chunks. *)
Theorem chunk_text_no_validation (s : engine) (cs ov : Z) (t : text)
    (Hbad : ~ (cs > ov /\ ov >= 0)) :
  exists chunks,
    _chunk_text (configure cs ov s) t = Some chunks
    /\ Forall (fun c => nonempty c = true) chunks.
Proof.
  destruct (chunk_text_returns cs ov t) as (chunks & H1 & H2 & _).
  exists chunks. split; [exact H1 | exact H2].
Qed.

Lemma chunk_text_no_validation_witness :
  ~ (4 > -2 /\ -2 >= 0)
  /\ exists chunks,
       _chunk_text (configure 4 (-2) demo_engine) (T "hello world. abc") = Some chunks
       /\ Forall (fun c => nonempty c = true) chunks.
Proof.
  split; [lia | apply (chunk_text_no_validation demo_engine 4 (-2) (T "hello world. abc")); lia].
Defined.

(** C8 fails as stated: a 1000-character text without blanks or full
    stops yields 53 chunks, not 2. *)
Lemma chunk_1000_letters_53_chunks :
  length (repeat "a"%char 1000) = 1000%nat
  /\ option_map (@List.length text) (chunk_text 512 50 (repeat "a"%char 1000)) = Some 53%nat.
Proof. split; vm_compute; reflexivity. Qed.

(** C8, amended: for every text of exactly 1000 characters, chunking with
    size 512 and overlap 50 scans at least three windows; the first starts
    at character 0, the second at a character between 208 and 462 (50
    before the end of the first), the third at or before character 924; the
    chunks are the trimmed windows that are not blank, so none is empty. *)
Theorem chunk_1000_windows (t : text) (Hlen : length t = 1000%nat) :
  exists chunks e1 s2 e2 s3 e3 rest,
    chunk_windows 512 50 t = Some ((0, e1) :: (s2, e2) :: (s3, e3) :: rest)
    /\ s2 = e1 - 50 /\ 208 <= s2 <= 462 /\ s3 <= 924
    /\ chunk_text 512 50 t = Some chunks
    /\ chunks = chunks_of t ((0, e1) :: (s2, e2) :: (s3, e3) :: rest)
    /\ Forall (fun c => nonempty c = true) chunks.
Proof.
  assert (Hl : len t = 1000) by (unfold len; lia).
  destruct (window_loop_total 512 50 t (length t) 0 []) as [w Hw]; [lia|].
  pose proof (chunk_loop_windows _ _ _ _ _ _ _ Hw) as Hc.
  change (chunks_of t []) with (@nil text) in Hc.
  destruct (window_loop_prefix _ _ _ _ _ _ _ Hw) as (r1 & E1 & S1).
  destruct S1 as (r1' & -> & f1 & Hf1 & W1); [lia|].
  pose proof (window_end_le 512 50 t 0) as U1.
  pose proof (window_end_ge 512 t 0) as L1.
  change (Z.div 512 2) with 256 in *.
  set (e1 := window_end 512 t 0) in *.
  assert (B1 : 258 <= e1 <= 512) by lia.
  assert (N1 : next_start 512 50 t 0 = e1 - 50) by (unfold next_start; fold e1; lia).
  rewrite N1 in W1.
  destruct (window_loop_prefix _ _ _ _ _ _ _ W1) as (r2 & E2 & S2).
  destruct S2 as (r2' & -> & f2 & Hf2 & W2); [lia|].
  pose proof (window_end_le 512 50 t (e1 - 50)) as U2.
  pose proof (window_end_ge 512 t (e1 - 50)) as L2.
  change (Z.div 512 2) with 256 in *.
  set (e2 := window_end 512 t (e1 - 50)) in *.
  assert (B2 : e1 - 50 + 258 <= e2 <= e1 - 50 + 512) by lia.
  assert (N2 : next_start 512 50 t (e1 - 50) = e2 - 50) by (unfold next_start; fold e2; lia).
  rewrite N2 in W2.
  destruct (window_loop_prefix _ _ _ _ _ _ _ W2) as (r3 & E3 & S3).
  destruct S3 as (r3' & -> & _); [lia|].
  exists (chunks_of t w), e1, (e1 - 50), e2, (e2 - 50), (window_end 512 t (e2 - 50)), r3'.
  assert (Ew : w = (0, e1) :: (e1 - 50, e2) :: (e2 - 50, window_end 512 t (e2 - 50)) :: r3').
  { rewrite E3. simpl. reflexivity. }
  split; [unfold chunk_windows; rewrite Hw, Ew; reflexivity|].
  split; [reflexivity|]. split; [lia|]. split; [lia|].
  split; [exact Hc|]. split; [now rewrite Ew|].
  apply (chunk_loop_nonempty _ _ _ _ _ _ _ Hc). constructor.
Qed.

Lemma chunk_1000_windows_witness :
  length (repeat "a"%char 300 ++ T "." ++ repeat "b"%char 699) = 1000%nat
  /\ exists chunks e1 s2 e2 s3 e3 rest,
       chunk_windows 512 50 (repeat "a"%char 300 ++ T "." ++ repeat "b"%char 699)
       = Some ((0, e1) :: (s2, e2) :: (s3, e3) :: rest)
       /\ s2 = e1 - 50 /\ 208 <= s2 <= 462 /\ s3 <= 924
       /\ chunk_text 512 50 (repeat "a"%char 300 ++ T "." ++ repeat "b"%char 699) = Some chunks
       /\ chunks = chunks_of (repeat "a"%char 300 ++ T "." ++ repeat "b"%char 699)
                     ((0, e1) :: (s2, e2) :: (s3, e3) :: rest)
       /\ Forall (fun c => nonempty c = true) chunks.
Proof.
  split; [reflexivity|].
  apply (chunk_1000_windows (repeat "a"%char 300 ++ T "." ++ repeat "b"%char 699)).
  reflexivity.
Defined.

(** ** Ranking *)

Section SortFacts.

Context {A : Type} (key : A -> Z).

Lemma insert_by_perm (x : A) (l : list A) : Permutation (insert_by key x l) (x :: l).
Proof.
  induction l as [|y l IH]; simpl; [reflexivity|].
  destruct (key x <=? key y); [reflexivity|].
  rewrite IH. apply perm_swap.
Qed.

Lemma sort_by_perm (l : list A) : Permutation (sort_by key l) l.
Proof.
  induction l as [|x l IH]; simpl; [reflexivity|].
  rewrite insert_by_perm. now constructor.
Qed.

Lemma insert_by_sorted (x : A) (l : list A) :
  StronglySorted (by_key key) l -> StronglySorted (by_key key) (insert_by key x l).
Proof.
  induction 1 as [|y l Hs IH Hy]; simpl.
  - repeat constructor.
  - destruct (Z.leb_spec (key x) (key y)) as [Hle|Hgt].
    + constructor; [now constructor|].
      constructor; [exact Hle|].
      eapply List.Forall_impl; [|exact Hy]. unfold by_key. intros b Hb. lia.
    + constructor; [exact IH|].
      eapply Permutation_Forall; [symmetry; apply insert_by_perm|].
      constructor; [unfold by_key; lia | exact Hy].
Qed.

Lemma sort_by_sorted (l : list A) : StronglySorted (by_key key) (sort_by key l).
Proof.
  induction l as [|x l IH]; simpl; [constructor | now apply insert_by_sorted].
Qed.

(** Stability: the rows of any one distance keep their relative order. *)
Lemma insert_by_stable (d : Z) (x : A) (l : list A) :
  List.filter (fun a => key a =? d) (insert_by key x l)
  = List.filter (fun a => key a =? d) (x :: l).
Proof.
  induction l as [|y l IH]; [reflexivity|].
  cbn [insert_by]. destruct (Z.leb_spec (key x) (key y)) as [Hle|Hgt]; [reflexivity|].
  cbn [List.filter] in *. rewrite IH.
  destruct (Z.eqb_spec (key x) d), (Z.eqb_spec (key y) d); try reflexivity. lia.
Qed.

Lemma sort_by_stable (d : Z) (l : list A) :
  List.filter (fun a => key a =? d) (sort_by key l) = List.filter (fun a => key a =? d) l.
Proof.
  induction l as [|x l IH]; [reflexivity|].
  cbn [sort_by fold_right]. rewrite insert_by_stable.
  cbn [List.filter]. fold (sort_by key l). now rewrite IH.
Qed.

End SortFacts.

Lemma py_prefix_firstn {A : Type} (l : list A) (j : Z) :
  0 <= j -> py_prefix l j = firstn (Z.to_nat j) l.
Proof.
  intros Hj. unfold py_prefix, py_slice.
  rewrite (norm_index_inside _ 0) by lia.
  change (Z.to_nat 0) with O. rewrite skipn_O.
  unfold norm_index. destruct (Z.ltb_spec j 0); [lia|].
  rewrite Z.sub_0_r.
  destruct (Z.le_gt_cases j (Z.of_nat (length l))).
  - now rewrite Z.min_l by lia.
  - rewrite Z.min_r by lia. rewrite Nat2Z.id.
    rewrite firstn_all. symmetry. apply firstn_all2. lia.
Qed.

(** ** Link extraction *)

(** C10: for every text, the extracted link list has no repeated entry and
    holds exactly the link targets [findall] finds; it is a rearrangement of
    the distinct matches, its order being that of the set, not that of the
    text. *)
Theorem extract_links_distinct (t : text) :
  List.NoDup (_extract_obsidian_links t)
  /\ (forall x, In x (_extract_obsidian_links t) <-> In x (findall link_pattern t))
  /\ Permutation (_extract_obsidian_links t)
       (nodup (List.list_eq_dec ascii_dec) (findall link_pattern t)).
Proof.
  assert (Hn : List.NoDup (_extract_obsidian_links t))
    by (unfold _extract_obsidian_links; apply NoDup_ListNoDup, NoDup_elements).
  assert (Hi : forall x, In x (_extract_obsidian_links t) <-> In x (findall link_pattern t)).
  { intros x. unfold _extract_obsidian_links.
    rewrite <- !list_elem_of_In, elem_of_elements, elem_of_list_to_set. reflexivity. }
  split; [exact Hn|]. split; [exact Hi|].
  apply Permutation.NoDup_Permutation; [exact Hn | apply List.NoDup_nodup |].
  intros x. rewrite Hi, nodup_In. reflexivity.
Qed.

(** Repeated links are collapsed, and the list does not follow the order
    of occurrence. *)
Example extract_links_order :
  findall link_pattern (T "[[a]] [[b]] [[a]]") = [T "a"; T "b"; T "a"]
  /\ _extract_obsidian_links (T "[[a]] [[b]] [[a]]") = [T "b"; T "a"].
Proof. split; vm_compute; reflexivity. Qed.

(** ** The privacy classifier *)

Lemma search_iff (p : pattern) (t : text) :
  search p t = true <-> exists i st, (i <= length t)%nat /\ In st (match_at p t i).
Proof.
  unfold search. rewrite existsb_exists. split.
  - intros (i & Hin & Hm). apply List.in_seq in Hin.
    destruct (match_at p t i) as [|st l] eqn:E; [discriminate|].
    exists i, st. split; [lia | rewrite E; apply in_eq].
  - intros (i & st & Hi & Hm). exists i. split; [apply List.in_seq; lia|].
    destruct (match_at p t i); [destruct Hm | reflexivity].
Qed.

Lemma any_match_iff (ps : list pattern) (t : text) :
  any_match ps t = true
  <-> exists p i st, In p ps /\ (i <= length t)%nat /\ In st (match_at p t i).
Proof.
  unfold any_match. rewrite existsb_exists. split.
  - intros (p & Hp & Hs). apply search_iff in Hs. destruct Hs as (i & st & Hi & Hm).
    now exists p, i, st.
  - intros (p & i & st & Hp & Hi & Hm). exists p. split; [exact Hp|].
    apply search_iff. now exists i, st.
Qed.

Ltac classify_cases s t :=
  unfold classify_privacy_tier, bind, get, modify, ret;
  destruct (any_match (patterns_of s PERSONAL) t);
  [|destruct (any_match (patterns_of s BUSINESS) t);
    [|destruct (nlp_pipeline s) as [nlp|];
      [destruct (5 <? entity_count (nlp (py_prefix t 1000)))|]]].

Lemma classify_returns (t : text) (s : engine) :
  exists tier s',
    classify_privacy_tier t s = (Ok tier, s')
    /\ same_setup s s' /\ collections s' = collections s.
Proof.
  classify_cases s t; eexists; eexists; (split; [reflexivity|]);
    unfold same_setup; repeat split; reflexivity.
Qed.

Lemma classify_deterministic (t : text) (s s2 : engine) :
  compiled_patterns s2 = compiled_patterns s ->
  nlp_pipeline s2 = nlp_pipeline s ->
  fst (classify_privacy_tier t s2) = fst (classify_privacy_tier t s).
Proof.
  intros Hp Hn.
  unfold classify_privacy_tier, bind, get, modify, ret, patterns_of.
  rewrite Hp, Hn.
  destruct (any_match _ t); [reflexivity|].
  destruct (any_match _ t); [reflexivity|].
  destruct (nlp_pipeline s) as [nlp|]; [|reflexivity].
  destruct (5 <? entity_count (nlp (py_prefix t 1000))); reflexivity.
Qed.

(** C3: for every text and every engine, classification returns, and
    returns one of the three tiers; the tier depends only on the text, the
    compiled patterns and the entity extractor; and whenever some Personal
    pattern matches at some position of the text, the tier is Personal,
    whatever the Business patterns match. *)
Theorem classify_total_personal_first (s : engine) (t : text) :
  (exists tier s',
      classify_privacy_tier t s = (Ok tier, s')
      /\ (tier = PUBLIC \/ tier = BUSINESS \/ tier = PERSONAL))
  /\ (forall s2,
        compiled_patterns s2 = compiled_patterns s ->
        nlp_pipeline s2 = nlp_pipeline s ->
        fst (classify_privacy_tier t s2) = fst (classify_privacy_tier t s))
  /\ (forall p i st,
        In p (patterns_of s PERSONAL) -> (i <= length t)%nat -> In st (match_at p t i) ->
        fst (classify_privacy_tier t s) = Ok PERSONAL).
Proof.
  split; [|split].
  - destruct (classify_returns t s) as (tier & s' & H & _).
    exists tier, s'. split; [exact H|]. destruct tier; auto.
  - intros s2. apply classify_deterministic.
  - intros p i st Hp Hi Hm.
    assert (E : any_match (patterns_of s PERSONAL) t = true)
      by (apply any_match_iff; now exists p, i, st).
    unfold classify_privacy_tier, bind, get, modify, ret. now rewrite E.
Qed.

(** A text in which a Business pattern matches before the Personal one:
    "client" at position 0, the e-mail address at position 7. *)
Lemma classify_total_personal_first_witness :
  fst (classify_privacy_tier (T "client bob@example.com") demo_engine) = Ok PERSONAL.
Proof.
  apply (proj2 (proj2 (classify_total_personal_first demo_engine (T "client bob@example.com")))
           (compile_ic re_email) 7%nat (22%nat, None)).
  - vm_compute. tauto.
  - vm_compute. lia.
  - vm_compute. tauto.
Defined.

(** C1 fails as stated: the contract sentence is classified Personal, not
    Business, because the Personal pattern
    [\bpassword|secret|private key|confidential\b] matches "confidential". *)
Lemma classify_contract_is_personal :
  fst (classify_privacy_tier scenario_contract demo_engine) = Ok PERSONAL
  /\ fst (classify_privacy_tier scenario_contract demo_engine) <> Ok BUSINESS
  /\ search (compile_ic re_credential) scenario_contract = true.
Proof. split; [|split]; vm_compute; [reflexivity | discriminate | reflexivity]. Qed.

(** C1, amended: with the patterns of [_init_privacy_detector], the
    e-mail sentence is Personal; the contract sentence is Personal as
    well; the fox sentence is Public when no entity extractor is loaded or
    it reports at most five sensitive entities in it. *)
Theorem classify_scenarios (s : engine)
    (Hp : compiled_patterns s = init_compiled_patterns)
    (Hn : match nlp_pipeline s with
          | Some nlp => entity_count (nlp (py_prefix scenario_fox 1000)) <= 5
          | None => True
          end) :
  fst (classify_privacy_tier scenario_email s) = Ok PERSONAL
  /\ fst (classify_privacy_tier scenario_contract s) = Ok PERSONAL
  /\ fst (classify_privacy_tier scenario_fox s) = Ok PUBLIC.
Proof.
  assert (E1 : any_match (patterns_of demo_engine PERSONAL) scenario_email = true)
    by (vm_compute; reflexivity).
  assert (E2 : any_match (patterns_of demo_engine PERSONAL) scenario_contract = true)
    by (vm_compute; reflexivity).
  assert (E3 : any_match (patterns_of demo_engine PERSONAL) scenario_fox = false)
    by (vm_compute; reflexivity).
  assert (E4 : any_match (patterns_of demo_engine BUSINESS) scenario_fox = false)
    by (vm_compute; reflexivity).
  assert (P : forall tier, patterns_of s tier = patterns_of demo_engine tier)
    by (intros tier; unfold patterns_of; now rewrite Hp).
  unfold classify_privacy_tier, bind, get, modify, ret.
  rewrite !P, E1, E2, E3, E4.
  split; [reflexivity|]. split; [reflexivity|].
  destruct (nlp_pipeline s) as [nlp|]; [|reflexivity].
  destruct (Z.ltb_spec 5 (entity_count (nlp (py_prefix scenario_fox 1000)))); [lia | reflexivity].
Qed.

Lemma classify_scenarios_witness :
  fst (classify_privacy_tier scenario_email demo_engine) = Ok PERSONAL
  /\ fst (classify_privacy_tier scenario_contract demo_engine) = Ok PERSONAL
  /\ fst (classify_privacy_tier scenario_fox demo_engine) = Ok PUBLIC.
Proof.
  apply (classify_scenarios demo_engine); [reflexivity | vm_compute; discriminate].
Defined.

(** ** The engine monad *)

Lemma bind_ok {A B : Type} (m : M A) (k : A -> M B) (s s' : engine) (a : A) :
  m s = (Ok a, s') -> bind m k s = k a s'.
Proof. intros E. unfold bind. now rewrite E. Qed.

Lemma bind_raise {A B : Type} (m : M A) (k : A -> M B) (s s' : engine) (e : exn) :
  m s = (Raise e, s') -> bind m k s = (Raise e, s').
Proof. intros E. unfold bind. now rewrite E. Qed.

Lemma frame_refl (s : engine) : frame s s.
Proof. unfold frame, same_setup. tauto. Qed.

Lemma frame_trans (s1 s2 s3 : engine) : frame s1 s2 -> frame s2 s3 -> frame s1 s3.
Proof. unfold frame, same_setup. intuition congruence. Qed.

Lemma frame_log (c : call) (s : engine) : frame s (log_call c s).
Proof. unfold frame, same_setup. cbn. tauto. Qed.

Lemma frame_stats (f : stats -> stats) (s : engine) : frame s (set_stats f s).
Proof. unfold frame, same_setup. cbn. tauto. Qed.

Create HintDb frame.
#[local] Hint Resolve frame_refl frame_log frame_stats : frame.

Ltac frames := eauto using frame_trans with frame.

Lemma now_spec (s : engine) :
  exists s', now s = (Ok (clock s), s') /\ frame s s' /\ calls s' = calls s.
Proof. eexists. split; [reflexivity|]. unfold frame, same_setup. cbn. tauto. Qed.

Lemma classify_frame (t : text) (s : engine) :
  exists tier s', classify_privacy_tier t s = (Ok tier, s') /\ frame s s'.
Proof.
  destruct (classify_returns t s) as (tier & s' & E & F & C).
  exists tier, s'. unfold frame. tauto.
Qed.

Lemma for_each_metadata (path : string) (tier : PrivacyTier) (hash : string) (l : list nat) :
  forall s, exists ms s',
    for_each (chunk_metadata path tier hash) l s = (Ok ms, s')
    /\ length ms = length l /\ frame s s' /\ calls s' = calls s.
Proof.
  induction l as [|i l IH]; intros s; cbn [for_each].
  - exists [], s. split; [reflexivity|]. split; [reflexivity|]. split; frames.
  - destruct (now_spec s) as (s1 & E1 & F1 & K1).
    destruct (IH s1) as (ms & s2 & E2 & Hl & F2 & K2).
    assert (Em : chunk_metadata path tier hash i s
                 = (Ok (Build_chunk_meta path i (tier_value tier) (clock s) hash), s1)).
    { unfold chunk_metadata. rewrite (bind_ok _ _ _ _ _ E1). reflexivity. }
    rewrite (bind_ok _ _ _ _ _ Em), (bind_ok _ _ _ _ _ E2).
    eexists; eexists. split; [reflexivity|].
    split; [simpl; now rewrite Hl|].
    split; [frames | congruence].
Qed.

Lemma chunk_text_same_setup (s s' : engine) (t : text) :
  same_setup s s' -> _chunk_text s' t = _chunk_text s t.
Proof.
  intros (H1 & H2 & _). unfold _chunk_text. now rewrite H1, H2.
Qed.

Lemma classify_same_setup (s s' : engine) (t : text) :
  same_setup s s' -> fst (classify_privacy_tier t s') = fst (classify_privacy_tier t s).
Proof.
  intros (_ & _ & H3 & H4). now apply classify_deterministic.
Qed.

Lemma set_collection_frame (tier : PrivacyTier) (c : collection) (s s' : engine) :
  frame s s' ->
  same_setup s (set_collection tier c s')
  /\ forall tier', collections (set_collection tier c s') tier'
                   = collections (set_collection tier c s) tier'.
Proof.
  intros (S & H). split; [exact S|].
  intros tier'. cbn. rewrite H. reflexivity.
Qed.

Lemma call_nlp_spec (t : text) (s : engine) :
  call_nlp t s =
  match nlp_pipeline s with
  | Some nlp => (Ok (nlp t), log_call (CallNlp t) s)
  | None => (Raise (TypeError "'NoneType' object is not callable"), s)
  end.
Proof. unfold call_nlp, bind, get. destruct (nlp_pipeline s); reflexivity. Qed.

Lemma call_encode_spec (W : World) (texts : list text) (s : engine) :
  call_encode W texts s = (encode W texts, log_call (CallEncode texts) s).
Proof. reflexivity. Qed.

Lemma call_add_spec (tier : PrivacyTier) (embeddings : list vector) (documents : list text)
    (ids : list string) (metadatas : list chunk_meta) (s : engine) :
  call_add tier embeddings documents ids metadatas s =
  match collection_add (collections s tier) embeddings documents ids metadatas with
  | Ok c => (Ok tt, set_collection tier c (log_call (CallAdd tier ids) s))
  | Raise e => (Raise e, log_call (CallAdd tier ids) s)
  end.
Proof.
  unfold call_add, bind, get, modify, lift. cbn [collections log_call].
  destruct (collection_add _ _ _ _ _); reflexivity.
Qed.

Lemma call_query_spec (W : World) (tier : PrivacyTier) (qe : list vector) (n : Z) (s : engine) :
  call_query W tier qe n s
  = (collection_query W (collections s tier) qe n, log_call (CallQuery tier n) s).
Proof. reflexivity. Qed.

(** ** The collection primitive *)

Lemma has_id_app (c c' : collection) (id : string) :
  has_id (c ++ c') id = has_id c id || has_id c' id.
Proof. unfold has_id. apply existsb_app. Qed.

Lemma has_id_add_record_mono (c : collection) (e : entry) (id : string) :
  has_id c id = true -> has_id (add_record c e) id = true.
Proof.
  intros H. unfold add_record. destruct (has_id c (e_id e)); [exact H|].
  rewrite has_id_app, H. reflexivity.
Qed.

Lemma has_id_add_record_self (c : collection) (e : entry) :
  has_id (add_record c e) (e_id e) = true.
Proof.
  unfold add_record. destruct (has_id c (e_id e)) eqn:E; [exact E|].
  rewrite has_id_app. cbn. rewrite String.eqb_refl. apply orb_true_r.
Qed.

Lemma fold_add_record_has (es : list entry) :
  forall c id,
    has_id c id = true \/ In id (map e_id es) ->
    has_id (fold_left add_record es c) id = true.
Proof.
  induction es as [|e es IH]; intros c id H; cbn [fold_left].
  - destruct H as [H|[]]. exact H.
  - apply IH. destruct H as [H|[H|H]].
    + left. now apply has_id_add_record_mono.
    + left. subst id. apply has_id_add_record_self.
    + now right.
Qed.

Lemma fold_add_record_present (es : list entry) (c : collection) :
  (forall e, In e es -> has_id c (e_id e) = true) ->
  fold_left add_record es c = c.
Proof.
  induction es as [|e es IH]; intros H; cbn [fold_left]; [reflexivity|].
  assert (E : add_record c e = c)
    by (unfold add_record; now rewrite (H e (or_introl eq_refl))).
  rewrite E. apply IH. intros e' He'. apply H. now right.
Qed.

Lemma zip_entries_ids (ids : list string) :
  forall embeddings documents metadatas,
    length embeddings = length ids ->
    length documents = length ids ->
    length metadatas = length ids ->
    map e_id (zip_entries ids embeddings documents metadatas) = ids.
Proof.
  induction ids as [|id ids IH]; intros [|v vs] [|d ds] [|m ms] H1 H2 H3;
    try discriminate; [reflexivity|].
  cbn. f_equal. apply IH; simpl in *; congruence.
Qed.

Lemma collection_add_ok (c c' : collection) (embeddings : list vector)
    (documents : list text) (ids : list string) (metadatas : list chunk_meta) :
  collection_add c embeddings documents ids metadatas = Ok c' ->
  ids <> []
  /\ c' = fold_left add_record (zip_entries ids embeddings documents metadatas) c
  /\ map e_id (zip_entries ids embeddings documents metadatas) = ids.
Proof.
  unfold collection_add. intros H.
  destruct ids as [|id ids]; [discriminate|].
  cbn [nonempty negb] in H.
  destruct (distinct (id :: ids)); [|discriminate]. cbn [negb] in H.
  destruct ((length embeddings =? length (id :: ids))%nat) eqn:E1; [|discriminate].
  destruct ((length documents =? length (id :: ids))%nat) eqn:E2; [|discriminate].
  destruct ((length metadatas =? length (id :: ids))%nat) eqn:E3; [|discriminate].
  cbn [andb negb] in H. injection H as <-.
  apply Nat.eqb_eq in E1, E2, E3.
  split; [discriminate|]. split; [reflexivity|].
  now apply zip_entries_ids.
Qed.

(** After a successful [add] every submitted identifier is held. *)
Lemma collection_add_has (c c' : collection) (embeddings : list vector)
    (documents : list text) (ids : list string) (metadatas : list chunk_meta) :
  collection_add c embeddings documents ids metadatas = Ok c' ->
  forall id, In id ids -> has_id c' id = true.
Proof.
  intros H id Hid. destruct (collection_add_ok _ _ _ _ _ _ H) as (_ & -> & E).
  apply fold_add_record_has. right. now rewrite E.
Qed.

(** An [add] of identifiers that are all held changes nothing. *)
Lemma collection_add_present (c c' : collection) (embeddings : list vector)
    (documents : list text) (ids : list string) (metadatas : list chunk_meta) :
  (forall id, In id ids -> has_id c id = true) ->
  collection_add c embeddings documents ids metadatas = Ok c' ->
  c' = c.
Proof.
  intros Hp H. destruct (collection_add_ok _ _ _ _ _ _ H) as (_ & -> & E).
  apply fold_add_record_present. intros e He. apply Hp.
  rewrite <- E. now apply in_map.
Qed.

(** ** Ingestion *)

(** The outcomes of [process_document]: it raises with the collections
    untouched (no entity extractor, embedding failure, or the batch
    rejected by the collection), or it stores the batch in the collection of
    the document's tier and then returns the metadata, or raises if the
    file size cannot be read. *)
Lemma process_document_cases (W : World) (s : engine) (path : string) (vault : option string) :
  exists tier chunks r s',
    fst (classify_privacy_tier (extract_text W path) s) = Ok tier
    /\ _chunk_text s (extract_text W path) = Some chunks
    /\ process_document W path vault s = (r, s')
    /\ same_setup s s'
    /\ ((nlp_pipeline s = None
         /\ r = Raise (TypeError "'NoneType' object is not callable")
         /\ collections s' = collections s)
        \/ (exists e, encode W chunks = Raise e /\ r = Raise e
                      /\ collections s' = collections s)
        \/ (exists embeddings metadatas e,
              encode W chunks = Ok embeddings
              /\ collection_add (collections s tier) embeddings chunks
                   (chunk_ids (sha256_hex W (extract_text W path)) (length chunks))
                   metadatas = Raise e
              /\ r = Raise e /\ collections s' = collections s)
        \/ (exists embeddings metadatas c,
              encode W chunks = Ok embeddings
              /\ collection_add (collections s tier) embeddings chunks
                   (chunk_ids (sha256_hex W (extract_text W path)) (length chunks))
                   metadatas = Ok c
              /\ (forall tier', collections s' tier' = collections (set_collection tier c s) tier')
              /\ ((exists e, stat_size W path = Raise e /\ r = Raise e)
                  \/ exists m, r = Ok m /\ chunk_count m = length chunks
                               /\ privacy_tier m = tier /\ file_path m = path))).
Proof.
  set (content := extract_text W path).
  destruct (now_spec s) as (s1 & E1 & F1 & _).
  destruct (classify_frame content s1) as (tier & s2 & E2 & F2).
  destruct (chunk_text_returns (default 512 (config_chunk_size s))
              (default 50 (config_chunk_overlap s)) content) as (chunks & Ech & _ & _).
  fold (_chunk_text s content) in Ech.
  exists tier, chunks.
  assert (Et : fst (classify_privacy_tier content s) = Ok tier)
    by (rewrite <- (classify_same_setup s s1) by apply F1; now rewrite E2).
  assert (F12 : frame s s2) by frames.
  unfold process_document. fold content.
  rewrite (bind_ok _ _ _ _ _ E1), (bind_ok _ _ _ _ _ E2).
  pose proof (call_nlp_spec (py_prefix content 5000) s2) as E3.
  assert (N2 : nlp_pipeline s2 = nlp_pipeline s) by apply F12.
  rewrite N2 in E3.
  destruct (nlp_pipeline s) as [nlp|] eqn:En.
  2:{ rewrite (bind_raise _ _ _ _ _ E3). eexists; eexists.
      split; [exact Et|]. split; [exact Ech|]. split; [reflexivity|].
      split; [apply F12|]. left. split; [reflexivity|]. split; [reflexivity | apply F12]. }
  rewrite (bind_ok _ _ _ _ _ E3).
  set (s3 := log_call (CallNlp (py_prefix content 5000)) s2).
  assert (F3 : frame s s3) by (subst s3; frames).
  unfold bind at 1, get at 1.
  rewrite (chunk_text_same_setup s s3) by apply F3. rewrite Ech.
  pose proof (call_encode_spec W chunks s3) as E4.
  set (s4 := log_call (CallEncode chunks) s3) in E4.
  assert (F4 : frame s s4) by (subst s4; frames).
  destruct (encode W chunks) as [embeddings|e].
  2:{ rewrite (bind_raise _ _ _ _ _ E4). eexists; eexists.
      split; [exact Et|]. split; [reflexivity|]. split; [reflexivity|].
      split; [apply F4|]. right; left. exists e. split; [reflexivity|].
      split; [reflexivity | apply F4]. }
  rewrite (bind_ok _ _ _ _ _ E4).
  destruct (for_each_metadata path tier (sha256_hex W content) (seq 0 (length chunks)) s4)
    as (metadatas & s5 & E5 & _ & F5 & _).
  rewrite (bind_ok _ _ _ _ _ E5).
  assert (F5' : frame s s5) by frames.
  set (ids := chunk_ids (sha256_hex W content) (length chunks)).
  pose proof (call_add_spec tier embeddings chunks ids metadatas s5) as E6.
  set (s6 := log_call (CallAdd tier ids) s5) in E6.
  assert (F6 : frame s s6) by (subst s6; frames).
  assert (C5 : collections s5 = collections s) by apply F5'.
  rewrite C5 in E6.
  destruct (collection_add (collections s tier) embeddings chunks ids metadatas)
    as [c|e] eqn:Eadd.
  2:{ rewrite (bind_raise _ _ _ _ _ E6). eexists; eexists.
      split; [exact Et|]. split; [reflexivity|]. split; [reflexivity|].
      split; [apply F6|]. right; right; left. exists embeddings, metadatas, e.
      split; [reflexivity|]. split; [exact Eadd|]. split; [reflexivity | apply F6]. }
  rewrite (bind_ok _ _ _ _ _ E6).
  destruct (set_collection_frame tier c s s6 F6) as (S7 & C7).
  unfold lift at 1.
  destruct (stat_size W path) as [size|e].
  2:{ unfold bind at 1. eexists; eexists.
      split; [exact Et|]. split; [reflexivity|]. split; [reflexivity|].
      split; [exact S7|]. right; right; right. exists embeddings, metadatas, c.
      split; [reflexivity|]. split; [exact Eadd|]. split; [exact C7|].
      left. exists e. split; reflexivity. }
  eexists; eexists.
  split; [exact Et|]. split; [reflexivity|]. split; [reflexivity|].
  split; [exact S7|]. right; right; right. exists embeddings, metadatas, c.
  split; [reflexivity|]. split; [exact Eadd|]. split; [exact C7|].
  right. eexists. split; [reflexivity|]. cbn. tauto.
Qed.

Lemma set_collection_same (tier : PrivacyTier) (s : engine) :
  forall tier', collections (set_collection tier (collections s tier) s) tier' = collections s tier'.
Proof. intros tier'. destruct tier, tier'; reflexivity. Qed.

Lemma set_collection_at (tier : PrivacyTier) (c : collection) (s : engine) :
  collections (set_collection tier c s) tier = c.
Proof. destruct tier; reflexivity. Qed.

(** C2 fails as stated: the second ingestion of the same content, here
    from another path, succeeds, and the records stored under its chunk
    identifiers are still those of the first ingestion (source "a.txt", time
    stamps 1 and 2); they are not replaced. *)
Lemma reingest_does_not_replace :
  let W := demo_world (T "hi") in
  let s1 := snd (process_document W "a.txt" None demo_engine) in
  let run2 := process_document W "b.txt" None s1 in
  (exists m2, fst run2 = Ok m2 /\ file_path m2 = "b.txt"%string /\ chunk_count m2 = 2%nat)
  /\ map (fun e => (e_id e, source_file (e_metadata e), meta_processed_timestamp (e_metadata e)))
       (collections (snd run2) PUBLIC)
     = [("hi_0"%string, "a.txt"%string, 1); ("hi_1"%string, "a.txt"%string, 2)].
Proof.
  split.
  - eexists. split; [vm_compute; reflexivity|]. split; reflexivity.
  - vm_compute. reflexivity.
Qed.

(** C2, amended: when a document has been ingested, ingesting the same
    content again leaves every tier's collection exactly as the first
    ingestion left it, so every tier's chunk count is that of a single
    ingestion: a chunk submitted under an identifier the collection holds is
    skipped and the record stored first is kept. *)
Theorem reingest_keeps_first_entries (W : World) (s s1 : engine) (path1 path2 : string)
    (vault1 vault2 : option string) (m1 : DocumentMetadata)
    (Hsame : extract_text W path2 = extract_text W path1)
    (H1 : process_document W path1 vault1 s = (Ok m1, s1)) :
  forall tier,
    collections (snd (process_document W path2 vault2 s1)) tier = collections s1 tier
    /\ collection_count (collections (snd (process_document W path2 vault2 s1)) tier)
       = collection_count (collections s1 tier).
Proof.
  assert (G : forall tier,
             collections (snd (process_document W path2 vault2 s1)) tier = collections s1 tier);
    [|intros tier; split; [apply G | now rewrite G]].
  destruct (process_document_cases W s path1 vault1)
    as (tier1 & chunks1 & r1 & s1' & Et1 & Ec1 & Er1 & S1 & Hc1).
  rewrite H1 in Er1. injection Er1 as <- <-.
  destruct Hc1 as [(_ & Hr & _)|[(e & _ & Hr & _)|[(v & ms & e & _ & _ & Hr & _)|Hc1]]];
    try discriminate.
  destruct Hc1 as (emb1 & metas1 & c1 & _ & Ea1 & Hcol1 & _).
  destruct (process_document_cases W s1 path2 vault2)
    as (tier2 & chunks2 & r2 & s2 & Et2 & Ec2 & Er2 & S2 & Hc2).
  rewrite Hsame in *.
  rewrite (classify_same_setup s s1) in Et2 by exact S1.
  rewrite (chunk_text_same_setup s s1) in Ec2 by exact S1.
  assert (tier2 = tier1) by congruence. assert (chunks2 = chunks1) by congruence.
  subst tier2 chunks2. rewrite Er2. cbn [snd].
  destruct Hc2 as [(_ & _ & Hk)|[(e & _ & _ & Hk)|[(v & ms & e & _ & _ & _ & Hk)|Hc2]]];
    try (intros tier; now rewrite Hk).
  destruct Hc2 as (emb2 & metas2 & c2 & _ & Ea2 & Hcol2 & _).
  assert (Ec : collections s1 tier1 = c1)
    by (rewrite Hcol1; apply set_collection_at).
  rewrite Ec in Ea2.
  assert (E2 : c2 = c1).
  { apply (collection_add_present _ _ _ _ _ _ (collection_add_has _ _ _ _ _ _ Ea1) Ea2). }
  intros tier. rewrite Hcol2, E2, <- Ec. apply set_collection_same.
Qed.

Lemma reingest_keeps_first_entries_witness :
  let W := demo_world (T "hi") in
  let s1 := snd (process_document W "a.txt" None demo_engine) in
  extract_text W "b.txt" = extract_text W "a.txt"
  /\ collections (snd (process_document W "b.txt" None s1)) PUBLIC = collections s1 PUBLIC
  /\ collection_count (collections (snd (process_document W "b.txt" None s1)) PUBLIC)
     = collection_count (collections s1 PUBLIC).
Proof.
  intros W s1. split; [reflexivity|].
  destruct (process_document W "a.txt" None demo_engine) as [[m1|e] s1'] eqn:E.
  - apply (reingest_keeps_first_entries W demo_engine s1 "a.txt" "b.txt" None None m1);
      [reflexivity|].
    subst s1. rewrite E. reflexivity.
  - vm_compute in E. discriminate E.
Defined.

(** C4: when extraction yields the empty string, [process_document] does
    not return a record: it raises, leaving the collections as they were.
    With an entity extractor loaded and an embedding model that accepts the
    empty batch, the error is the collection's rejection of the empty
    identifier list. *)
Theorem process_document_empty_text_raises (W : World) (s : engine) (path : string)
    (vault : option string) (Hempty : extract_text W path = []) :
  (exists e, fst (process_document W path vault s) = Raise e)
  /\ collections (snd (process_document W path vault s)) = collections s
  /\ (forall nlp vs,
        nlp_pipeline s = Some nlp -> encode W [] = Ok vs ->
        fst (process_document W path vault s)
        = Raise (ValueError "Expected IDs to be a non-empty list")).
Proof.
  destruct (process_document_cases W s path vault)
    as (tier & chunks & r & s' & _ & Ec & Er & _ & Hc).
  rewrite Hempty in *. rewrite Er. cbn [fst snd].
  unfold _chunk_text, chunk_text in Ec. cbn in Ec. injection Ec as <-.
  cbn in Hc.
  destruct Hc as [(Hn & -> & Hk)|[(e & He & -> & Hk)|[(v & ms & e & He & Ha & -> & Hk)|Hc]]].
  - split; [eauto|]. split; [exact Hk|]. intros nlp vs Hn'. congruence.
  - split; [eauto|]. split; [exact Hk|]. intros nlp vs _ Hv. congruence.
  - split; [eauto|]. split; [exact Hk|]. intros nlp vs _ _. congruence.
  - destruct Hc as (v & ms & c & _ & Ha & _). discriminate Ha.
Qed.

Lemma process_document_empty_text_raises_witness :
  extract_text (demo_world []) "empty.txt" = []
  /\ (exists e, fst (process_document (demo_world []) "empty.txt" None demo_engine) = Raise e)
  /\ collections (snd (process_document (demo_world []) "empty.txt" None demo_engine))
     = collections demo_engine
  /\ (forall nlp vs,
        nlp_pipeline demo_engine = Some nlp -> encode (demo_world []) [] = Ok vs ->
        fst (process_document (demo_world []) "empty.txt" None demo_engine)
        = Raise (ValueError "Expected IDs to be a non-empty list")).
Proof.
  split; [reflexivity|].
  apply (process_document_empty_text_raises (demo_world []) demo_engine "empty.txt" None).
  reflexivity.
Defined.

(** ** Search *)

(** The engine after the query calls for [tiers], each asking for [n]
    results. *)
Lemma log_queries_calls (n : Z) (tiers : list PrivacyTier) :
  forall s,
    calls (fold_left (fun s' tier => log_call (CallQuery tier n) s') tiers s)
    = calls s ++ map (fun tier => CallQuery tier n) tiers
    /\ frame s (fold_left (fun s' tier => log_call (CallQuery tier n) s') tiers s).
Proof.
  induction tiers as [|tier tiers IH]; intros s; cbn [fold_left map].
  - rewrite app_nil_r. split; [reflexivity | frames].
  - destruct (IH (log_call (CallQuery tier n) s)) as (E & F).
    rewrite E. cbn [calls log_call]. rewrite <- app_assoc. split; [reflexivity | frames].
Qed.

Lemma search_collections_ok (W : World) (emb : list vector) (limit : Z)
    (colls : PrivacyTier -> collection) (tiers : list PrivacyTier) (per_tier : list (list hit)) :
  Forall2 (fun tier hs => tier_hits W colls emb limit tier = Ok hs) tiers per_tier ->
  forall acc s,
    collections s = colls ->
    search_collections W tiers emb limit acc s
    = (Ok (acc ++ concat per_tier),
       fold_left (fun s' tier => log_call (CallQuery tier (Z.min limit 100)) s') tiers s).
Proof.
  induction 1 as [|tier hs tiers per_tier Hh _ IH]; intros acc s Hs; cbn [search_collections].
  - cbn. now rewrite app_nil_r.
  - unfold tier_hits in Hh. rewrite <- Hs in Hh.
    destruct (collection_query W (collections s tier) emb (Z.min limit 100)) as [qr|e] eqn:Eq;
      [|discriminate].
    assert (E1 : call_query W tier emb (Z.min limit 100) s
                 = (Ok qr, log_call (CallQuery tier (Z.min limit 100)) s))
      by (rewrite call_query_spec, Eq; reflexivity).
    rewrite (bind_ok _ _ _ _ _ E1).
    unfold bind at 1, lift at 1. rewrite Hh.
    rewrite IH by exact Hs. cbn [concat fold_left]. now rewrite app_assoc.
Qed.

Lemma search_collections_calls (W : World) (emb : list vector) (limit : Z)
    (tiers : list PrivacyTier) :
  forall acc s,
    exists rest, calls (snd (search_collections W tiers emb limit acc s)) = calls s ++ rest.
Proof.
  induction tiers as [|tier tiers IH]; intros acc s; cbn [search_collections].
  - exists []. cbn. now rewrite app_nil_r.
  - unfold bind at 1. rewrite call_query_spec.
    destruct (collection_query W (collections s tier) emb (Z.min limit 100)) as [qr|e].
    + unfold bind at 1, lift at 1. destruct (hits_of qr) as [hs|e].
      * destruct (IH (acc ++ hs) (log_call (CallQuery tier (Z.min limit 100)) s)) as (rest & E).
        rewrite E. cbn [calls log_call]. rewrite <- app_assoc. eauto.
      * cbn. eauto.
    + cbn. eauto.
Qed.

Lemma tier_hits_positive (W : World) (colls : PrivacyTier -> collection)
    (emb : list vector) (limit : Z) (tier : PrivacyTier) (hs : list hit) :
  tier_hits W colls emb limit tier = Ok hs -> 1 <= limit.
Proof.
  unfold tier_hits, collection_query.
  destruct (Z.leb_spec (Z.min limit 100) 0); [discriminate | lia].
Qed.

Lemma collections_to_search_cons (filter : option PrivacyTier) :
  exists tier tiers, collections_to_search filter = tier :: tiers.
Proof. destruct filter; cbn; eauto. Qed.

(** C6: for every query, tier filter and limit, when the embedding call
    returns and the query of every target tier returns rows, each query
    having asked for [min(limit, 100)] results (never more than 100),
    [semantic_search] returns the first [limit] rows of the concatenated
    per-tier rows sorted by ascending distance; the sort keeps rows of equal
    distance in their order of concatenation; at most [limit] rows are
    returned. *)
Theorem semantic_search_merges (W : World) (s : engine) (query : text)
    (filter : option PrivacyTier) (limit : Z) (emb : list vector)
    (per_tier : list (list hit))
    (Henc : encode W [query] = Ok emb)
    (Hq : Forall2 (fun tier hs => tier_hits W (collections s) emb limit tier = Ok hs)
            (collections_to_search filter) per_tier) :
  let merged := sort_by hit_distance (concat per_tier) in
  fst (semantic_search W query filter limit s) = Ok (firstn (Z.to_nat limit) merged)
  /\ StronglySorted (by_key hit_distance) merged
  /\ Permutation merged (concat per_tier)
  /\ (forall d, List.filter (fun h => hit_distance h =? d) merged
                = List.filter (fun h => hit_distance h =? d) (concat per_tier))
  /\ Z.of_nat (length (firstn (Z.to_nat limit) merged)) <= limit
  /\ calls (snd (semantic_search W query filter limit s))
     = calls s ++ CallEncode [query]
         :: map (fun tier => CallQuery tier (Z.min limit 100)) (collections_to_search filter)
  /\ Z.min limit 100 <= 100.
Proof.
  intros merged.
  assert (Hl : 1 <= limit).
  { destruct (collections_to_search_cons filter) as (tier & tiers & E).
    rewrite E in Hq. inversion Hq as [|? hs ? ? Hh _]; subst.
    exact (tier_hits_positive _ _ _ _ _ _ Hh). }
  assert (Erun : semantic_search W query filter limit s
                 = (Ok (firstn (Z.to_nat limit) merged),
                    set_stats bump_queries
                      (fold_left (fun s' tier => log_call (CallQuery tier (Z.min limit 100)) s')
                         (collections_to_search filter) (log_call (CallEncode [query]) s)))).
  { unfold semantic_search.
    assert (E1 : call_encode W [query] s = (Ok emb, log_call (CallEncode [query]) s))
      by (rewrite call_encode_spec, Henc; reflexivity).
    rewrite (bind_ok _ _ _ _ _ E1).
    rewrite (bind_ok _ _ _ _ _
               (search_collections_ok W emb limit (collections s) _ _ Hq []
                  (log_call (CallEncode [query]) s) eq_refl)).
    cbn [app]. unfold bind, modify, ret. fold merged.
    now rewrite py_prefix_firstn by lia. }
  rewrite Erun. cbn [fst snd].
  split; [reflexivity|].
  split; [apply sort_by_sorted|].
  split; [apply sort_by_perm|].
  split; [intros d; apply sort_by_stable|].
  split; [rewrite length_firstn; lia|].
  split; [|lia].
  cbn [calls set_stats].
  destruct (log_queries_calls (Z.min limit 100) (collections_to_search filter)
              (log_call (CallEncode [query]) s)) as (E & _).
  rewrite E. cbn [calls log_call]. now rewrite <- app_assoc.
Qed.

Lemma semantic_search_merges_witness :
  let W := demo_world [] in
  let merged := sort_by hit_distance (concat search_demo_rows) in
  fst (semantic_search W (T "abc") None 3 search_demo_engine)
  = Ok (firstn (Z.to_nat 3) merged)
  /\ StronglySorted (by_key hit_distance) merged
  /\ Permutation merged (concat search_demo_rows)
  /\ (forall d, List.filter (fun h => hit_distance h =? d) merged
                = List.filter (fun h => hit_distance h =? d) (concat search_demo_rows))
  /\ Z.of_nat (length (firstn (Z.to_nat 3) merged)) <= 3
  /\ calls (snd (semantic_search W (T "abc") None 3 search_demo_engine))
     = calls search_demo_engine ++ CallEncode [T "abc"]
         :: map (fun tier => CallQuery tier (Z.min 3 100)) (collections_to_search None)
  /\ Z.min 3 100 <= 100.
Proof.
  intros W.
  apply (semantic_search_merges W search_demo_engine (T "abc") None 3 [demo_embed (T "abc")]
           search_demo_rows).
  - reflexivity.
  - repeat constructor; vm_compute; reflexivity.
Defined.

(** The merged rows of the run above: the rows of distance 2 keep the order
    of the tiers they come from, and the fourth row is cut off. *)
Example semantic_search_demo_rows :
  fst (semantic_search (demo_world []) (T "abc") None 3 search_demo_engine)
  = Ok [demo_hit "p2" 0; demo_hit "b2" 1; demo_hit "p1" 2].
Proof. vm_compute. reflexivity. Qed.

(** C7 fails as stated: an empty query is embedded, sent to the three
    collections and answered; a limit of zero is refused by the first
    collection query, after the embedding call, not before it. *)
Lemma search_empty_query_not_rejected :
  let W := demo_world [] in
  let run := semantic_search W [] None 10 search_demo_engine in
  let run0 := semantic_search W (T "x") None 0 search_demo_engine in
  match fst run with
  | Ok results => map hit_id results = ["b1"; "p2"; "b2"; "p1"]%string
  | Raise _ => False
  end
  /\ calls (snd run)
     = [CallEncode [[]]; CallQuery PUBLIC 10; CallQuery BUSINESS 10; CallQuery PERSONAL 10]
  /\ fst run0 = Raise (TypeError "Number of requested results cannot be negative, or zero")
  /\ calls (snd run0) = [CallEncode [T "x"]; CallQuery PUBLIC 0].
Proof. repeat split; vm_compute; reflexivity. Qed.

(** C7, amended: [semantic_search] validates nothing before its external
    calls.  For every query, empty or not, and every limit, its first action
    is the embedding call on the query, and an error of that call is passed
    on.  A non-positive limit is refused only by the collection primitive, at
    the query of the first target tier, issued with [min(limit, 100)] after
    the embedding call. *)
Theorem semantic_search_no_validation (W : World) (s : engine) (query : text)
    (filter : option PrivacyTier) (limit : Z) :
  (exists rest,
      calls (snd (semantic_search W query filter limit s))
      = calls s ++ CallEncode [query] :: rest)
  /\ (forall e, encode W [query] = Raise e ->
        fst (semantic_search W query filter limit s) = Raise e)
  /\ (forall emb, encode W [query] = Ok emb -> limit <= 0 ->
        exists tier tiers,
          collections_to_search filter = tier :: tiers
          /\ semantic_search W query filter limit s
             = (Raise (TypeError "Number of requested results cannot be negative, or zero"),
                log_call (CallQuery tier (Z.min limit 100))
                  (log_call (CallEncode [query]) s))).
Proof.
  split; [|split].
  - unfold semantic_search. unfold bind at 1. rewrite call_encode_spec.
    destruct (encode W [query]) as [emb|e]; [|cbn; eauto].
    unfold bind at 1.
    destruct (search_collections_calls W emb limit (collections_to_search filter) []
                (log_call (CallEncode [query]) s)) as (rest & E).
    destruct (search_collections W (collections_to_search filter) emb limit []
                (log_call (CallEncode [query]) s)) as [[results|e] s'].
    + cbn in E |- *. rewrite E, <- app_assoc. eauto.
    + cbn in E |- *. rewrite E, <- app_assoc. eauto.
  - intros e He. unfold semantic_search. unfold bind at 1.
    rewrite call_encode_spec, He. reflexivity.
  - intros emb He Hl.
    destruct (collections_to_search_cons filter) as (tier & tiers & E).
    exists tier, tiers. split; [exact E|].
    unfold semantic_search. unfold bind at 1. rewrite call_encode_spec, He, E.
    cbn [search_collections]. unfold bind at 1. unfold bind at 1.
    rewrite call_query_spec. unfold collection_query.
    destruct (Z.leb_spec (Z.min limit 100) 0); [reflexivity | lia].
Qed.

Lemma semantic_search_no_validation_witness :
  encode (demo_world []) [T "x"] = Ok [demo_embed (T "x")]
  /\ 0 <= 0
  /\ exists tier tiers,
       collections_to_search None = tier :: tiers
       /\ semantic_search (demo_world []) (T "x") None 0 search_demo_engine
          = (Raise (TypeError "Number of requested results cannot be negative, or zero"),
             log_call (CallQuery tier (Z.min 0 100))
               (log_call (CallEncode [T "x"]) search_demo_engine)).
Proof.
  split; [reflexivity|]. split; [lia|].
  apply (proj2 (proj2 (semantic_search_no_validation (demo_world []) search_demo_engine
                         (T "x") None 0)) [demo_embed (T "x")]); [reflexivity | lia].
Defined.

(** ** What the chunker returns *)

Lemma py_slice_substring (t : text) (i j : Z) : substring (py_slice t i j) t.
Proof.
  unfold py_slice, substring.
  set (a := Z.to_nat (norm_index _ i)). set (n := Z.to_nat _).
  exists (firstn a t), (skipn n (skipn a t)).
  now rewrite firstn_skipn, firstn_skipn.
Qed.

Lemma substring_trans (a b c : text) : substring a b -> substring b c -> substring a c.
Proof.
  intros (p1 & q1 & ->) (p2 & q2 & ->).
  exists (p2 ++ p1), (q1 ++ q2). now rewrite <- !app_assoc.
Qed.

Lemma substring_length (c t : text) : substring c t -> len c <= len t.
Proof.
  intros (p & q & ->). unfold len. rewrite !length_app. lia.
Qed.

Lemma lstrip_clean (t : text) : starts_clean (lstrip t).
Proof.
  induction t as [|a t IH]; simpl; [exact I|].
  destruct (isspace a) eqn:E; [exact IH | exact E].
Qed.

Lemma lstrip_id (t : text) : starts_clean t -> lstrip t = t.
Proof. destruct t as [|a t]; simpl; [reflexivity|]. now intros ->. Qed.

Lemma lstrip_suffix (t : text) : exists ws, t = ws ++ lstrip t.
Proof.
  induction t as [|a t (ws & IH)]; simpl; [now exists []|].
  destruct (isspace a); [exists (a :: ws); simpl; now rewrite <- IH | now exists []].
Qed.

Lemma starts_clean_prefix (p q : text) : starts_clean (p ++ q) -> starts_clean p.
Proof. destruct p; simpl; auto. Qed.

Lemma strip_parts (t : text) :
  exists ws1 ws2, t = ws1 ++ strip t ++ ws2 /\ lstrip t = strip t ++ ws2.
Proof.
  unfold strip.
  destruct (lstrip_suffix t) as (ws1 & E1).
  destruct (lstrip_suffix (rev (lstrip t))) as (ws2 & E2).
  exists ws1, (rev ws2).
  assert (E : lstrip t = rev (lstrip (rev (lstrip t))) ++ rev ws2).
  { rewrite <- rev_app_distr, <- E2. now rewrite rev_involutive. }
  split; [|exact E]. now rewrite <- E.
Qed.

Lemma strip_substring (t : text) : substring (strip t) t.
Proof. destruct (strip_parts t) as (ws1 & ws2 & E & _). now exists ws1, ws2. Qed.

Lemma strip_idempotent (t : text) : strip (strip t) = strip t.
Proof.
  destruct (strip_parts t) as (ws1 & ws2 & _ & E).
  assert (C : starts_clean (strip t)).
  { apply (starts_clean_prefix _ ws2). rewrite <- E. apply lstrip_clean. }
  unfold strip at 1. rewrite (lstrip_id _ C).
  unfold strip. rewrite rev_involutive.
  rewrite (lstrip_id (lstrip _)) by apply lstrip_clean. reflexivity.
Qed.

Lemma window_end_gt (cs : Z) (t : text) (start : Z) :
  1 <= cs -> 0 <= start < len t -> start < window_end cs t start.
Proof.
  intros Hc Hs. pose proof (window_end_ge cs t start) as H.
  assert (0 <= Z.div cs 2) by (apply Z.div_pos; lia). lia.
Qed.

Lemma window_loop_ok (cs ov : Z) (t : text) (Hcs : 1 <= cs) (fuel : nat) :
  forall start spans w,
    0 <= start ->
    Forall (window_ok cs t) spans ->
    window_loop cs ov t fuel start spans = Some w ->
    Forall (window_ok cs t) w.
Proof.
  induction fuel as [|fuel IH]; intros start spans w Hs Hf H; simpl in H.
  - destruct (start <? len t); congruence.
  - destruct (Z.ltb_spec start (len t)); [|congruence].
    apply (IH _ _ _) in H; [exact H| |].
    + pose proof (next_start_advances cs ov t start). lia.
    + apply Forall_app. split; [exact Hf|]. constructor; [|constructor].
      pose proof (window_end_gt cs t start Hcs ltac:(lia)).
      pose proof (window_end_le cs ov t start ltac:(lia) ltac:(lia)).
      unfold window_ok. cbn [fst snd]. lia.
Qed.

(** Every chunk is a run of consecutive characters of the text, carries no
    white space at either end, is not empty and is at most [chunk_size]
    characters long. *)
Theorem chunks_are_trimmed_pieces (cs ov : Z) (t : text) (Hcs : 1 <= cs) :
  exists chunks,
    chunk_text cs ov t = Some chunks
    /\ Forall (fun c => substring c t /\ strip c = c /\ c <> [] /\ len c <= cs) chunks.
Proof.
  destruct (window_loop_total cs ov t (length t) 0 []) as [w Hw]; [unfold len; lia|].
  pose proof (chunk_loop_windows _ _ _ _ _ _ _ Hw) as Hc.
  change (chunks_of t []) with (@nil text) in Hc.
  exists (chunks_of t w). split; [exact Hc|].
  pose proof (window_loop_ok cs ov t Hcs _ 0 [] w (Z.le_refl 0) (List.Forall_nil _) Hw) as Hok.
  unfold chunks_of. apply List.Forall_forall. intros c Hin.
  apply List.filter_In in Hin. destruct Hin as (Hin & Hne).
  apply in_map_iff in Hin. destruct Hin as ((s & e) & <- & Hse).
  cbn [fst snd] in *.
  rewrite List.Forall_forall in Hok. specialize (Hok _ Hse).
  destruct Hok as (H1 & H2 & H3). cbn [fst snd] in *.
  split; [|split; [|split]].
  - eapply substring_trans; [apply strip_substring | apply py_slice_substring].
  - apply strip_idempotent.
  - intros E. rewrite E in Hne. discriminate.
  - pose proof (substring_length _ _ (strip_substring (py_slice t s e))).
    rewrite py_slice_length in H by lia. lia.
Qed.

Lemma window_loop_covers (cs ov : Z) (t : text) (Hcs : 1 <= cs) (Hov : 0 <= ov) (fuel : nat) :
  forall start spans w,
    0 <= start ->
    (forall i, 0 <= i < start -> covered i spans) ->
    window_loop cs ov t fuel start spans = Some w ->
    forall i, 0 <= i < len t -> covered i w.
Proof.
  induction fuel as [|fuel IH]; intros start spans w Hs Hc H; simpl in H.
  - destruct (Z.ltb_spec start (len t)); [congruence|].
    injection H as <-. intros i Hi. apply Hc. lia.
  - destruct (Z.ltb_spec start (len t)).
    + eapply IH; [| |exact H].
      * pose proof (next_start_advances cs ov t start). lia.
      * intros i Hi.
        destruct (Z.lt_ge_cases i start) as [Hlt|Hge].
        -- destruct (Hc i ltac:(lia)) as (s & e & Hin & Hr).
           exists s, e. split; [apply in_or_app; now left | exact Hr].
        -- exists start, (window_end cs t start). split.
           ++ apply in_or_app. right. now left.
           ++ pose proof (window_end_gt cs t start Hcs ltac:(lia)).
              unfold next_start in Hi. lia.
    + injection H as <-. intros i Hi. apply Hc. lia.
Qed.

Lemma chunks_are_trimmed_pieces_witness :
  1 <= 10
  /\ exists chunks,
       chunk_text 10 3 (T "Hello wo. rld. Abcdefg hijk lmnop") = Some chunks
       /\ Forall (fun c => substring c (T "Hello wo. rld. Abcdefg hijk lmnop")
                           /\ strip c = c /\ c <> [] /\ len c <= 10) chunks.
Proof.
  split; [lia|].
  apply (chunks_are_trimmed_pieces 10 3 (T "Hello wo. rld. Abcdefg hijk lmnop")). lia.
Defined.

(** With a chunk size of at least 1 and a non-negative overlap the windows
    leave no gap: every character position of the text lies in some window. *)
Theorem chunk_windows_cover_text (cs ov : Z) (t : text) (Hcs : 1 <= cs) (Hov : 0 <= ov) :
  exists w,
    chunk_windows cs ov t = Some w
    /\ chunk_text cs ov t = Some (chunks_of t w)
    /\ forall i, 0 <= i < len t -> covered i w.
Proof.
  destruct (window_loop_total cs ov t (length t) 0 []) as [w Hw]; [unfold len; lia|].
  exists w. split; [exact Hw|]. split.
  - exact (chunk_loop_windows _ _ _ _ _ _ _ Hw).
  - apply (window_loop_covers cs ov t Hcs Hov (length t) 0 [] w (Z.le_refl 0)); [|exact Hw].
    intros i Hi. lia.
Qed.

Lemma chunk_windows_cover_text_witness :
  1 <= 10 /\ 0 <= 3
  /\ exists w,
       chunk_windows 10 3 (T "Hello wo. rld. Abcdefg hijk lmnop") = Some w
       /\ chunk_text 10 3 (T "Hello wo. rld. Abcdefg hijk lmnop")
          = Some (chunks_of (T "Hello wo. rld. Abcdefg hijk lmnop") w)
       /\ forall i, 0 <= i < len (T "Hello wo. rld. Abcdefg hijk lmnop") -> covered i w.
Proof.
  split; [lia|]. split; [lia|].
  apply (chunk_windows_cover_text 10 3 (T "Hello wo. rld. Abcdefg hijk lmnop")); lia.
Defined.






(** The chunks of a short text under the default configuration. *)
Example short_text_default_config :
  option_map (map (fun c => string_of_list_ascii c)) (chunk_text 512 50 (T "Hi there"))
  = Some ["Hi there"; "i there"; "there"; "there"; "here"; "ere"; "re"; "e"]%string.
Proof. vm_compute. reflexivity. Qed.

(** ** Counters and stored records *)

(** Every classification adds exactly 1 to the counter of the tier it
    returns and leaves the other tier counters, the document, embedding and
    query counters, the clock and the collections as they were. *)
Theorem classify_counts_once (s : engine) (t : text) :
  exists tier s',
    classify_privacy_tier t s = (Ok tier, s')
    /\ (forall tier',
          tier_counter tier' (processing_stats s')
          = tier_counter tier' (processing_stats s) + (if tier_eqb tier' tier then 1 else 0))
    /\ work_counters s' = work_counters s
    /\ clock s' = clock s
    /\ collections s' = collections s.
Proof.
  classify_cases s t; eexists; eexists; (split; [reflexivity|]);
    (split; [intros []; cbn; lia|]); repeat split; reflexivity.
Qed.

Lemma quiet_refl (s : engine) : quiet s s.
Proof. split; [apply frame_refl | reflexivity]. Qed.

Lemma quiet_trans (s1 s2 s3 : engine) : quiet s1 s2 -> quiet s2 s3 -> quiet s1 s3.
Proof.
  intros (F1 & W1) (F2 & W2). split; [eapply frame_trans; eassumption | congruence].
Qed.

Lemma quiet_log (c : call) (s : engine) : quiet s (log_call c s).
Proof. split; [apply frame_log | reflexivity]. Qed.

Lemma now_quiet (s : engine) :
  exists s', now s = (Ok (clock s), s') /\ quiet s s'
             /\ processing_stats s' = processing_stats s.
Proof.
  eexists. split; [reflexivity|]. unfold quiet, frame, same_setup. cbn. tauto.
Qed.

Lemma classify_quiet (t : text) (s : engine) :
  exists tier s',
    classify_privacy_tier t s = (Ok tier, s') /\ quiet s s'
    /\ tier1 (processing_stats s') + tier2 (processing_stats s') + tier3 (processing_stats s')
       = tier1 (processing_stats s) + tier2 (processing_stats s) + tier3 (processing_stats s) + 1.
Proof.
  classify_cases s t; eexists; eexists; (split; [reflexivity|]);
    (split; [unfold quiet, frame, same_setup; cbn; tauto | cbn; lia]).
Qed.

Create HintDb quiet.
#[local] Hint Resolve quiet_refl quiet_log : quiet.
Ltac quiets := eauto using quiet_trans with quiet.

Lemma for_each_metadata_quiet (path : string) (tier : PrivacyTier) (hash : string)
    (l : list nat) :
  forall s, exists ms s',
    for_each (chunk_metadata path tier hash) l s = (Ok ms, s')
    /\ map chunk_index ms = l
    /\ Forall (meta_of path tier hash) ms
    /\ quiet s s' /\ processing_stats s' = processing_stats s.
Proof.
  induction l as [|i l IH]; intros s; cbn [for_each].
  - exists [], s. split; [reflexivity|]. split; [reflexivity|]. split; [constructor|].
    split; [quiets | reflexivity].
  - destruct (now_quiet s) as (s1 & E1 & Q1 & P1).
    destruct (IH s1) as (ms & s2 & E2 & Hl & Hm & Q2 & P2).
    assert (Em : chunk_metadata path tier hash i s
                 = (Ok (Build_chunk_meta path i (tier_value tier) (clock s) hash), s1)).
    { unfold chunk_metadata. rewrite (bind_ok _ _ _ _ _ E1). reflexivity. }
    rewrite (bind_ok _ _ _ _ _ Em), (bind_ok _ _ _ _ _ E2).
    eexists; eexists. split; [reflexivity|].
    split; [cbn; now rewrite Hl|].
    split; [constructor; [unfold meta_of; cbn; tauto | exact Hm]|].
    split; [quiets | congruence].
Qed.

(** The successful run of [process_document] in full, and what a failed
    run leaves of the counters. *)
Lemma process_document_outcome (W : World) (s : engine) (path : string) (vault : option string) :
  exists tier chunks r s',
    fst (classify_privacy_tier (extract_text W path) s) = Ok tier
    /\ _chunk_text s (extract_text W path) = Some chunks
    /\ process_document W path vault s = (r, s')
    /\ tier_total s' = tier_total s + 1
    /\ ((exists e, r = Raise e) /\ work_counters s' = work_counters s
        \/ exists nlp embeddings metadatas c size stamp,
             nlp_pipeline s = Some nlp
             /\ encode W chunks = Ok embeddings
             /\ map chunk_index metadatas = seq 0 (length chunks)
             /\ Forall (meta_of path tier (sha256_hex W (extract_text W path))) metadatas
             /\ collection_add (collections s tier) embeddings chunks
                  (chunk_ids (sha256_hex W (extract_text W path)) (length chunks))
                  metadatas = Ok c
             /\ (forall tier', collections s' tier' = collections (set_collection tier c s) tier')
             /\ stat_size W path = Ok size
             /\ r = Ok {| file_path := path;
                          content_hash := sha256_hex W (extract_text W path);
                          privacy_tier := tier;
                          file_type := suffix_lower W path;
                          size_bytes := size;
                          processed_timestamp := stamp;
                          embedding_model := model_name W;
                          chunk_count := length chunks;
                          language := "en";
                          sentiment_score := 0;
                          topics := ["general"%string];
                          entities := group_entities (nlp (py_prefix (extract_text W path) 5000));
                          vault_location := vault;
                          obsidian_links :=
                            if truthy vault then _extract_obsidian_links (extract_text W path)
                            else [] |}
             /\ work_counters s'
                = (documents_processed (processing_stats s) + 1,
                   embeddings_created (processing_stats s) + len chunks,
                   queries_executed (processing_stats s))).
Proof.
  set (content := extract_text W path).
  destruct (now_quiet s) as (s1 & E1 & Q1 & P1).
  destruct (classify_quiet content s1) as (tier & s2 & E2 & Q2 & T2).
  destruct (chunk_text_returns (default 512 (config_chunk_size s))
              (default 50 (config_chunk_overlap s)) content) as (chunks & Ech & _ & _).
  fold (_chunk_text s content) in Ech.
  exists tier, chunks.
  assert (Et : fst (classify_privacy_tier content s) = Ok tier)
    by (rewrite <- (classify_same_setup s s1) by apply Q1; now rewrite E2).
  assert (Q12 : quiet s s2) by quiets.
  assert (T12 : tier_total s2 = tier_total s + 1)
    by (unfold tier_total in *; rewrite T2, P1; reflexivity).
  unfold process_document. fold content.
  rewrite (bind_ok _ _ _ _ _ E1), (bind_ok _ _ _ _ _ E2).
  pose proof (call_nlp_spec (py_prefix content 5000) s2) as E3.
  assert (N2 : nlp_pipeline s2 = nlp_pipeline s) by apply Q12.
  rewrite N2 in E3.
  destruct (nlp_pipeline s) as [nlp|] eqn:En.
  2:{ rewrite (bind_raise _ _ _ _ _ E3). eexists; eexists.
      split; [exact Et|]. split; [exact Ech|]. split; [reflexivity|].
      split; [exact T12|]. left. split; [eauto | apply Q12]. }
  rewrite (bind_ok _ _ _ _ _ E3).
  set (s3 := log_call (CallNlp (py_prefix content 5000)) s2).
  assert (Q3 : quiet s s3) by (subst s3; quiets).
  assert (T3 : tier_total s3 = tier_total s + 1) by exact T12.
  unfold bind at 1, get at 1.
  rewrite (chunk_text_same_setup s s3) by apply Q3. rewrite Ech.
  pose proof (call_encode_spec W chunks s3) as E4.
  set (s4 := log_call (CallEncode chunks) s3) in E4.
  assert (Q4 : quiet s s4) by (subst s4; quiets).
  assert (T4 : tier_total s4 = tier_total s + 1) by exact T12.
  destruct (encode W chunks) as [embeddings|e].
  2:{ rewrite (bind_raise _ _ _ _ _ E4). eexists; eexists.
      split; [exact Et|]. split; [reflexivity|]. split; [reflexivity|].
      split; [exact T4|]. left. split; [eauto | apply Q4]. }
  rewrite (bind_ok _ _ _ _ _ E4).
  destruct (for_each_metadata_quiet path tier (sha256_hex W content) (seq 0 (length chunks)) s4)
    as (metadatas & s5 & E5 & Hidx & Hmeta & Q5 & P5).
  rewrite (bind_ok _ _ _ _ _ E5).
  assert (Q5' : quiet s s5) by quiets.
  assert (T5 : tier_total s5 = tier_total s + 1)
    by (unfold tier_total in *; rewrite P5; exact T4).
  set (ids := chunk_ids (sha256_hex W content) (length chunks)).
  pose proof (call_add_spec tier embeddings chunks ids metadatas s5) as E6.
  set (s6 := log_call (CallAdd tier ids) s5) in E6.
  assert (Q6 : quiet s s6) by (subst s6; quiets).
  assert (T6 : tier_total s6 = tier_total s + 1) by exact T5.
  assert (C5 : collections s5 = collections s) by apply Q5'.
  rewrite C5 in E6.
  destruct (collection_add (collections s tier) embeddings chunks ids metadatas)
    as [c|e] eqn:Eadd.
  2:{ rewrite (bind_raise _ _ _ _ _ E6). eexists; eexists.
      split; [exact Et|]. split; [reflexivity|]. split; [reflexivity|].
      split; [exact T6|]. left. split; [eauto | apply Q6]. }
  rewrite (bind_ok _ _ _ _ _ E6).
  destruct (set_collection_frame tier c s s6 (proj1 Q6)) as (S7 & C7).
  destruct Q6 as (_ & W6).
  unfold lift at 1.
  destruct (stat_size W path) as [size|e].
  2:{ unfold bind at 1. eexists; eexists.
      split; [exact Et|]. split; [reflexivity|]. split; [reflexivity|].
      split; [exact T6|]. left. split; [eauto | exact W6]. }
  eexists; eexists.
  split; [exact Et|]. split; [reflexivity|]. split; [reflexivity|].
  split; [exact T6|]. right.
  exists nlp, embeddings, metadatas, c, size. eexists.
  split; [reflexivity|]. split; [reflexivity|]. split; [exact Hidx|]. split; [exact Hmeta|].
  split; [exact Eadd|]. split; [exact C7|]. split; [reflexivity|]. split; [reflexivity|].
  unfold work_counters in *. cbn. injection W6 as -> -> ->. reflexivity.
Qed.

Lemma has_id_false (c : collection) (id : string) :
  has_id c id = false <-> ~ In id (map e_id c).
Proof.
  unfold has_id. split.
  - intros H Hin. apply in_map_iff in Hin. destruct Hin as (e & <- & He).
    assert (existsb (fun e0 => String.eqb (e_id e0) (e_id e)) c = true)
      by (apply existsb_exists; exists e; split; [exact He | apply String.eqb_refl]).
    congruence.
  - intros H. destruct (existsb _ c) eqn:E; [|reflexivity].
    apply existsb_exists in E. destruct E as (e & He & Heq).
    apply String.eqb_eq in Heq. exfalso. apply H. rewrite <- Heq. now apply in_map.
Qed.

Lemma distinct_NoDup (ids : list string) : distinct ids = true <-> List.NoDup ids.
Proof.
  induction ids as [|id ids IH]; cbn [distinct].
  - split; [constructor | reflexivity].
  - rewrite andb_true_iff, negb_true_iff, IH. split.
    + intros (H1 & H2). constructor; [|exact H2].
      intros Hin. assert (existsb (String.eqb id) ids = true)
        by (apply existsb_exists; exists id; split; [exact Hin | apply String.eqb_refl]).
      congruence.
    + intros H. inversion H as [|? ? Hn Hd]; subst. split; [|exact Hd].
      destruct (existsb (String.eqb id) ids) eqn:E; [|reflexivity].
      apply existsb_exists in E. destruct E as (x & Hx & Heq).
      apply String.eqb_eq in Heq. subst x. contradiction.
Qed.

Lemma fold_add_record_fresh (es : list entry) :
  forall c,
    List.NoDup (map e_id es) ->
    (forall e, In e es -> has_id c (e_id e) = false) ->
    fold_left add_record es c = c ++ es.
Proof.
  induction es as [|e es IH]; intros c Hn Hf; cbn [fold_left].
  - now rewrite app_nil_r.
  - cbn [map] in Hn. inversion Hn as [|? ? Hne Hn']; subst.
    unfold add_record at 2. rewrite (Hf e (or_introl eq_refl)).
    rewrite IH; [now rewrite <- app_assoc | exact Hn' |].
    intros e' He'. rewrite has_id_app, (Hf e' (or_intror He')). cbn.
    rewrite orb_false_r. destruct (String.eqb_spec (e_id e) (e_id e')) as [E|]; [|reflexivity].
    exfalso. apply Hne. rewrite E. now apply in_map.
Qed.

(** Every [add] appends: the records held before stay in place, and
    identifiers stay unique. *)
Lemma fold_add_record_appends (es : list entry) :
  forall c, exists added,
    fold_left add_record es c = c ++ added
    /\ (List.NoDup (map e_id c) -> List.NoDup (map e_id (c ++ added))).
Proof.
  induction es as [|e es IH]; intros c; cbn [fold_left].
  - exists []. rewrite app_nil_r. auto.
  - change (add_record c e) with (if has_id c (e_id e) then c else c ++ [e]).
    destruct (has_id c (e_id e)) eqn:Hh.
    + apply IH.
    + destruct (IH (c ++ [e])) as (added & E & Hn).
      exists (e :: added). rewrite E, <- app_assoc. split; [reflexivity|].
      intros Hc. change (c ++ e :: added) with (c ++ [e] ++ added).
      rewrite app_assoc. apply Hn.
      rewrite map_app. cbn. apply NoDup_ListNoDup, NoDup_app. split; [now apply NoDup_ListNoDup|].
      split; [|apply NoDup_singleton].
      intros x Hx Hx'. apply list_elem_of_In in Hx. apply list_elem_of_singleton in Hx'. subst x.
      apply has_id_false in Hh. contradiction.
Qed.

Lemma zip_entries_fields (ids : list string) :
  forall embeddings documents metadatas,
    length embeddings = length ids ->
    length documents = length ids ->
    length metadatas = length ids ->
    map e_document (zip_entries ids embeddings documents metadatas) = documents
    /\ map e_metadata (zip_entries ids embeddings documents metadatas) = metadatas
    /\ map e_embedding (zip_entries ids embeddings documents metadatas) = embeddings.
Proof.
  induction ids as [|id ids IH]; intros [|v vs] [|d ds] [|m ms] H1 H2 H3;
    try discriminate; [repeat split; reflexivity|].
  cbn. destruct (IH vs ds ms) as (E1 & E2 & E3); [simpl in *; congruence ..|].
  rewrite E1, E2, E3. repeat split; reflexivity.
Qed.

Lemma collection_add_checked (c c' : collection) (embeddings : list vector)
    (documents : list text) (ids : list string) (metadatas : list chunk_meta) :
  collection_add c embeddings documents ids metadatas = Ok c' ->
  List.NoDup ids
  /\ length embeddings = length ids
  /\ length documents = length ids
  /\ length metadatas = length ids.
Proof.
  unfold collection_add. intros H.
  destruct (nonempty ids); [|discriminate]. cbn [negb] in H.
  destruct (distinct ids) eqn:Ed; [|discriminate]. cbn [negb] in H.
  destruct ((length embeddings =? length ids)%nat) eqn:E1; [|discriminate].
  destruct ((length documents =? length ids)%nat) eqn:E2; [|discriminate].
  destruct ((length metadatas =? length ids)%nat) eqn:E3; [|discriminate].
  apply Nat.eqb_eq in E1, E2, E3. apply distinct_NoDup in Ed. tauto.
Qed.

Lemma chunk_ids_length (hash : string) (n : nat) : length (chunk_ids hash n) = n.
Proof. unfold chunk_ids. now rewrite length_map, length_seq. Qed.

(** A successful ingestion whose chunk identifiers are new to the
    collection of the document's tier appends one record per chunk to that
    collection, in chunk order: identifiers [hash_0 .. hash_(n-1)], the chunk
    texts as documents, chunk indices [0 .. n-1], and the document's path,
    tier and content hash in every metadata; the collection grows by
    [chunk_count] records and the other tiers' collections are untouched. *)
Theorem process_document_stores_chunks (W : World) (s s' : engine) (path : string)
    (vault : option string) (m : DocumentMetadata)
    (Hrun : process_document W path vault s = (Ok m, s'))
    (Hfresh : forall id, In id (chunk_ids (content_hash m) (chunk_count m)) ->
                has_id (collections s (privacy_tier m)) id = false) :
  exists added,
    collections s' (privacy_tier m) = collections s (privacy_tier m) ++ added
    /\ map e_id added = chunk_ids (content_hash m) (chunk_count m)
    /\ _chunk_text s (extract_text W path) = Some (map e_document added)
    /\ map (fun e => chunk_index (e_metadata e)) added = seq 0 (chunk_count m)
    /\ Forall (fun e => meta_of (file_path m) (privacy_tier m) (content_hash m) (e_metadata e))
         added
    /\ collection_count (collections s' (privacy_tier m))
       = (collection_count (collections s (privacy_tier m)) + chunk_count m)%nat
    /\ forall tier, tier <> privacy_tier m -> collections s' tier = collections s tier.
Proof.
  destruct (process_document_outcome W s path vault)
    as (tier & chunks & r & s0 & _ & Ech & Er & _ & Hc).
  rewrite Hrun in Er. injection Er as <- <-.
  destruct Hc as [((e & He) & _)|Hc]; [discriminate|].
  destruct Hc as (nlp & emb & metas & c & size & stamp & _ & _ & Hidx & Hmeta & Hadd & Hcol
                  & _ & Hm & _).
  injection Hm as ->. cbn [privacy_tier content_hash chunk_count file_path] in *.
  destruct (collection_add_ok _ _ _ _ _ _ Hadd) as (_ & Ec & Eids).
  destruct (collection_add_checked _ _ _ _ _ _ Hadd) as (Hnd & L1 & L2 & L3).
  destruct (zip_entries_fields _ _ _ _ L1 L2 L3) as (Ed & Em & _).
  set (es := zip_entries _ emb chunks metas) in *.
  rewrite fold_add_record_fresh in Ec.
  2:{ now rewrite Eids. }
  2:{ intros e He. apply Hfresh. rewrite <- Eids. now apply in_map. }
  exists es.
  assert (Ecol : collections s' tier = collections s tier ++ es)
    by (rewrite Hcol, set_collection_at; exact Ec).
  split; [exact Ecol|]. split; [exact Eids|]. split; [now rewrite Ed|].
  split; [rewrite <- Hidx, <- Em; now rewrite map_map|].
  split; [apply List.Forall_map; rewrite Em; exact Hmeta|].
  split.
  - unfold collection_count. rewrite Ecol, length_app.
    rewrite <- (length_map e_id es), Eids, chunk_ids_length. reflexivity.
  - intros tier' Hne. rewrite Hcol. destruct tier, tier'; try reflexivity; contradiction.
Qed.

Lemma process_document_stores_chunks_witness :
  exists m added,
    fst demo_first_run = Ok m
    /\ collections (snd demo_first_run) (privacy_tier m)
       = collections demo_engine (privacy_tier m) ++ added
    /\ map e_id added = chunk_ids (content_hash m) (chunk_count m)
    /\ _chunk_text demo_engine (extract_text (demo_world (T "hi")) "a.txt")
       = Some (map e_document added)
    /\ map (fun e => chunk_index (e_metadata e)) added = seq 0 (chunk_count m)
    /\ Forall (fun e => meta_of (file_path m) (privacy_tier m) (content_hash m) (e_metadata e))
         added
    /\ collection_count (collections (snd demo_first_run) (privacy_tier m))
       = (collection_count (collections demo_engine (privacy_tier m)) + chunk_count m)%nat
    /\ forall tier, tier <> privacy_tier m ->
         collections (snd demo_first_run) tier = collections demo_engine tier.
Proof.
  destruct demo_first_run as [[m|e] s'] eqn:E; [|vm_compute in E; discriminate E].
  exists m.
  destruct (process_document_stores_chunks (demo_world (T "hi")) demo_engine s' "a.txt" None m E)
    as (added & H); [intros id _; reflexivity|].
  exists added. split; [reflexivity | exact H].
Defined.

(** Every ingestion, failed or not, counts one classification.  A
    successful one adds 1 to the document counter and [chunk_count] to the
    embedding counter; a failed one leaves both, and the query counter, as
    they were. *)
Theorem process_document_counters (W : World) (s : engine) (path : string)
    (vault : option string) :
  tier_total (snd (process_document W path vault s)) = tier_total s + 1
  /\ match fst (process_document W path vault s) with
     | Ok m =>
         work_counters (snd (process_document W path vault s))
         = (documents_processed (processing_stats s) + 1,
            embeddings_created (processing_stats s) + Z.of_nat (chunk_count m),
            queries_executed (processing_stats s))
     | Raise _ =>
         work_counters (snd (process_document W path vault s)) = work_counters s
     end.
Proof.
  destruct (process_document_outcome W s path vault)
    as (tier & chunks & r & s' & _ & _ & Er & Ht & Hc).
  rewrite Er. cbn [fst snd]. split; [exact Ht|].
  destruct Hc as [((e & ->) & Hw)|Hc]; [exact Hw|].
  destruct Hc as (nlp & emb & metas & c & size & stamp & _ & _ & _ & _ & _ & _ & _ & -> & Hw).
  exact Hw.
Qed.

Lemma process_document_extends (W : World) (s : engine) (path : string)
    (vault : option string) (tier : PrivacyTier) :
  exists added,
    collections (snd (process_document W path vault s)) tier = collections s tier ++ added
    /\ (fst (classify_privacy_tier (extract_text W path) s) <> Ok tier -> added = [])
    /\ (List.NoDup (map e_id (collections s tier)) ->
        List.NoDup (map e_id (collections (snd (process_document W path vault s)) tier))).
Proof.
  destruct (process_document_cases W s path vault)
    as (tier0 & chunks & r & s' & Et & _ & Er & _ & Hc).
  rewrite Er. cbn [snd].
  assert (Same : collections s' tier = collections s tier ->
          exists added, collections s' tier = collections s tier ++ added
            /\ (fst (classify_privacy_tier (extract_text W path) s) <> Ok tier -> added = [])
            /\ (List.NoDup (map e_id (collections s tier)) ->
                List.NoDup (map e_id (collections s' tier)))).
  { intros E. exists []. rewrite E, app_nil_r. auto. }
  destruct Hc as [(_ & _ & Hk)|[(e & _ & _ & Hk)|[(v & ms & e & _ & _ & _ & Hk)|Hc]]];
    try (apply Same; now rewrite Hk).
  destruct Hc as (emb & metas & c & _ & Hadd & Hcol & _).
  destruct (collection_add_ok _ _ _ _ _ _ Hadd) as (_ & Ec & _).
  destruct (fold_add_record_appends (zip_entries
              (chunk_ids (sha256_hex W (extract_text W path)) (length chunks)) emb chunks metas)
              (collections s tier0)) as (added & Ea & Hn).
  rewrite Ea in Ec.
  assert (D : tier = tier0 \/ tier <> tier0)
    by (destruct tier, tier0; (now left) || (right; discriminate)).
  destruct D as [->|Hne].
  - exists added. rewrite Hcol, set_collection_at, Ec.
    split; [reflexivity|]. split; [intros H; now rewrite Et in H | exact Hn].
  - apply Same. rewrite Hcol. destruct tier0, tier; try reflexivity; contradiction.
Qed.

(** Ingestion only ever appends to a collection: whatever the outcome,
    the records a tier held before are still there, in place and unchanged;
    tiers other than the one the document is classified into gain nothing;
    and identifiers that were unique in a collection stay unique. *)
Theorem process_document_appends (W : World) (s : engine) (path : string)
    (vault : option string) (tier : PrivacyTier) :
  exists added,
    collections (snd (process_document W path vault s)) tier = collections s tier ++ added
    /\ (fst (classify_privacy_tier (extract_text W path) s) <> Ok tier -> added = [])
    /\ (List.NoDup (map e_id (collections s tier)) ->
        List.NoDup (map e_id (collections (snd (process_document W path vault s)) tier))).
Proof.
  exact (process_document_extends W s path vault tier).
Qed.

(** ** Search leaves the store alone *)

Lemma search_collections_state (W : World) (emb : list vector) (limit : Z)
    (tiers : list PrivacyTier) :
  forall acc s,
    frame s (snd (search_collections W tiers emb limit acc s))
    /\ processing_stats (snd (search_collections W tiers emb limit acc s)) = processing_stats s.
Proof.
  induction tiers as [|tier tiers IH]; intros acc s; cbn [search_collections].
  - cbn. split; [apply frame_refl | reflexivity].
  - pose proof (call_query_spec W tier emb (Z.min limit 100) s) as E1.
    destruct (collection_query W (collections s tier) emb (Z.min limit 100)) as [qr|e].
    + rewrite (bind_ok _ _ _ _ _ E1).
      assert (E2 : lift (hits_of qr) (log_call (CallQuery tier (Z.min limit 100)) s)
                   = (hits_of qr, log_call (CallQuery tier (Z.min limit 100)) s))
        by reflexivity.
      destruct (hits_of qr) as [hs|e].
      * rewrite (bind_ok _ _ _ _ _ E2).
        destruct (IH (acc ++ hs) (log_call (CallQuery tier (Z.min limit 100)) s)) as (F & P).
        split; [eapply frame_trans; [apply frame_log | exact F] | exact P].
      * rewrite (bind_raise _ _ _ _ _ E2). cbn. split; [apply frame_log | reflexivity].
    + rewrite (bind_raise _ _ _ _ _ E1). cbn. split; [apply frame_log | reflexivity].
Qed.

Lemma semantic_search_state (W : World) (s : engine) (query : text)
    (filter : option PrivacyTier) (limit : Z) :
  exists r s',
    semantic_search W query filter limit s = (r, s')
    /\ frame s s'
    /\ processing_stats s'
       = match r with
         | Ok _ => bump_queries (processing_stats s)
         | Raise _ => processing_stats s
         end.
Proof.
  unfold semantic_search.
  pose proof (call_encode_spec W [query] s) as E1.
  destruct (encode W [query]) as [emb|e].
  2:{ rewrite (bind_raise _ _ _ _ _ E1). eexists; eexists.
      split; [reflexivity|]. split; [apply frame_log | reflexivity]. }
  rewrite (bind_ok _ _ _ _ _ E1).
  destruct (search_collections_state W emb limit (collections_to_search filter) []
              (log_call (CallEncode [query]) s)) as (F & P).
  destruct (search_collections W (collections_to_search filter) emb limit []
              (log_call (CallEncode [query]) s)) as [[results|e] s2] eqn:E2; cbn [snd] in F, P.
  - rewrite (bind_ok _ _ _ _ _ E2). unfold bind, modify, ret.
    eexists; eexists. split; [reflexivity|]. split.
    + eapply frame_trans; [apply frame_log|]. eapply frame_trans; [exact F | apply frame_stats].
    + cbn. now rewrite P.
  - rewrite (bind_raise _ _ _ _ _ E2).
    eexists; eexists. split; [reflexivity|]. split.
    + eapply frame_trans; [apply frame_log | exact F].
    + exact P.
Qed.

(** Search never writes to the store: whatever the outcome, every
    collection, the configuration, the patterns and the entity extractor are
    as before; the statistics change only by 1 added to the query counter,
    and only when the search returns. *)
Theorem semantic_search_read_only (W : World) (s : engine) (query : text)
    (filter : option PrivacyTier) (limit : Z) :
  collections (snd (semantic_search W query filter limit s)) = collections s
  /\ same_setup s (snd (semantic_search W query filter limit s))
  /\ processing_stats (snd (semantic_search W query filter limit s))
     = match fst (semantic_search W query filter limit s) with
       | Ok _ => bump_queries (processing_stats s)
       | Raise _ => processing_stats s
       end.
Proof.
  destruct (semantic_search_state W s query filter limit) as (r & s' & E & (S & C) & P).
  rewrite E. cbn [fst snd]. tauto.
Qed.

Lemma semantic_search_run (W : World) (s : engine) (query : text)
    (filter : option PrivacyTier) (limit : Z) (emb : list vector) (per_tier : list (list hit)) :
  encode W [query] = Ok emb ->
  Forall2 (fun tier hs => tier_hits W (collections s) emb limit tier = Ok hs)
    (collections_to_search filter) per_tier ->
  fst (semantic_search W query filter limit s)
  = Ok (firstn (Z.to_nat limit) (sort_by hit_distance (concat per_tier))).
Proof.
  intros Henc Hq.
  assert (Hl : 1 <= limit).
  { destruct (collections_to_search_cons filter) as (tier & tiers & E).
    rewrite E in Hq. inversion Hq as [|? hs ? ? Hh _]; subst.
    exact (tier_hits_positive _ _ _ _ _ _ Hh). }
  unfold semantic_search.
  assert (E1 : call_encode W [query] s = (Ok emb, log_call (CallEncode [query]) s))
    by (rewrite call_encode_spec, Henc; reflexivity).
  rewrite (bind_ok _ _ _ _ _ E1).
  rewrite (bind_ok _ _ _ _ _
             (search_collections_ok W emb limit (collections s) _ _ Hq []
                (log_call (CallEncode [query]) s) eq_refl)).
  cbn [app]. unfold bind, modify, ret. cbn [fst].
  now rewrite py_prefix_firstn by lia.
Qed.

(** When the limit is at least the number of rows the three tiers return,
    an unfiltered search returns all of them, a search filtered to a tier
    returns exactly that tier's rows, and every row of the filtered search
    is among the rows of the unfiltered one. *)
Theorem search_filter_subset (W : World) (s : engine) (query : text) (limit : Z)
    (emb : list vector) (pub bus per : list hit)
    (Henc : encode W [query] = Ok emb)
    (Hrows : forall tier, tier_hits W (collections s) emb limit tier = Ok (rows_of pub bus per tier))
    (Hroom : Z.of_nat (length (pub ++ bus ++ per)) <= limit) :
  exists all_rows,
    fst (semantic_search W query None limit s) = Ok all_rows
    /\ Permutation all_rows (pub ++ bus ++ per)
    /\ forall tier, exists rows,
         fst (semantic_search W query (Some tier) limit s) = Ok rows
         /\ Permutation rows (rows_of pub bus per tier)
         /\ forall x, In x rows -> In x all_rows.
Proof.
  assert (Hall : fst (semantic_search W query None limit s)
                 = Ok (sort_by hit_distance (pub ++ bus ++ per))).
  { rewrite (semantic_search_run W s query None limit emb [pub; bus; per] Henc).
    - cbn [concat]. rewrite app_nil_r. f_equal. apply firstn_all2.
      rewrite (Permutation_length (sort_by_perm hit_distance _)). lia.
    - cbn. repeat constructor; [apply (Hrows PUBLIC) | apply (Hrows BUSINESS) | apply (Hrows PERSONAL)]. }
  exists (sort_by hit_distance (pub ++ bus ++ per)).
  split; [exact Hall|]. split; [apply sort_by_perm|].
  intros tier. exists (sort_by hit_distance (rows_of pub bus per tier)).
  assert (Hlen : (length (rows_of pub bus per tier) <= length (pub ++ bus ++ per))%nat)
    by (rewrite !length_app; destruct tier; cbn; lia).
  split; [|split].
  - rewrite (semantic_search_run W s query (Some tier) limit emb [rows_of pub bus per tier] Henc).
    + cbn [concat]. rewrite app_nil_r. f_equal. apply firstn_all2.
      rewrite (Permutation_length (sort_by_perm hit_distance _)). lia.
    + cbn. repeat constructor. apply Hrows.
  - apply sort_by_perm.
  - intros x Hx.
    apply (Permutation_in _ (sort_by_perm hit_distance _)) in Hx.
    apply (Permutation_in _ (Permutation_sym (sort_by_perm hit_distance _))).
    destruct tier; cbn in Hx; rewrite !in_app_iff; tauto.
Qed.

Lemma search_filter_subset_witness :
  encode (demo_world []) [T "abc"] = Ok [demo_embed (T "abc")]
  /\ Z.of_nat (length ([demo_hit "p2" 0; demo_hit "p1" 2]
                       ++ [demo_hit "b2" 1; demo_hit "b1" 2] ++ [])) <= 10
  /\ exists all_rows,
       fst (semantic_search (demo_world []) (T "abc") None 10 search_demo_engine) = Ok all_rows
       /\ Permutation all_rows ([demo_hit "p2" 0; demo_hit "p1" 2]
                                ++ [demo_hit "b2" 1; demo_hit "b1" 2] ++ [])
       /\ forall tier, exists rows,
            fst (semantic_search (demo_world []) (T "abc") (Some tier) 10 search_demo_engine)
            = Ok rows
            /\ Permutation rows
                 (rows_of [demo_hit "p2" 0; demo_hit "p1" 2]
                    [demo_hit "b2" 1; demo_hit "b1" 2] [] tier)
            /\ forall x, In x rows -> In x all_rows.
Proof.
  split; [reflexivity|]. split; [vm_compute; discriminate|].
  apply (search_filter_subset (demo_world []) search_demo_engine (T "abc") 10
           [demo_embed (T "abc")]).
  - reflexivity.
  - intros []; vm_compute; reflexivity.
  - vm_compute. discriminate.
Defined.

(** ** Entities by label *)

Lemma surfaces_snoc (label : string) (pre : list entity) (e : entity) :
  surfaces label (pre ++ [e])
  = surfaces label pre ++ (if String.eqb (ent_label e) label then [ent_text e] else []).
Proof.
  unfold surfaces. rewrite List.filter_app, map_app. cbn.
  destruct (String.eqb (ent_label e) label); reflexivity.
Qed.

Lemma entities_append_keys (label : string) (x : text) (d : list (string * list text)) :
  (In label (map fst d) -> map fst (entities_append label x d) = map fst d)
  /\ (~ In label (map fst d) -> map fst (entities_append label x d) = map fst d ++ [label]).
Proof.
  induction d as [|[l xs] d (IH1 & IH2)]; cbn.
  - split; [intros [] | reflexivity].
  - destruct (String.eqb_spec l label) as [->|Hne]; cbn.
    + split; [reflexivity | intros H; exfalso; apply H; now left].
    + split; intros H.
      * f_equal. apply IH1. destruct H; [contradiction | assumption].
      * f_equal. apply IH2. intros H'. apply H. now right.
Qed.

Lemma entities_append_in (label : string) (x : text) (d : list (string * list text)) :
  List.NoDup (map fst d) ->
  forall l xs,
    In (l, xs) (entities_append label x d)
    <-> (l <> label /\ In (l, xs) d)
        \/ (l = label
            /\ ((exists xs0, In (label, xs0) d /\ xs = xs0 ++ [x])
                \/ (~ In label (map fst d) /\ xs = [x]))).
Proof.
  induction d as [|[l0 xs0] d IH]; intros Hn l xs.
  - cbn. split.
    + intros [H|[]]. injection H as <- <-. right. split; [reflexivity|]. right. auto.
    + intros [(_ & [])|(-> & [(? & [] & _)|(_ & ->)])]. now left.
  - cbn [map] in Hn. inversion Hn as [|? ? Hnotin Hn']; subst.
    cbn [entities_append]. destruct (String.eqb_spec l0 label) as [->|Hne].
    + cbn [In map]. split.
      * intros [H|H].
        -- injection H as <- <-. right. split; [reflexivity|]. left. exists xs0. auto.
        -- left. split; [|now right]. intros ->. apply Hnotin.
           change label with (fst (label, xs)). now apply in_map.
      * intros [(Hl & [H|H])|(-> & [(xs1 & [H|H] & ->)|(H & _)])].
        -- injection H as -> _. contradiction.
        -- now right.
        -- injection H as ->. now left.
        -- exfalso. apply Hnotin. change label with (fst (label, xs1)). now apply in_map.
        -- exfalso. apply H. now left.
    + cbn [In map]. rewrite (IH Hn' l xs). split.
      * intros [H|[(Hl & H)|(-> & [(xs1 & H & ->)|(H & ->)])]].
        -- injection H as <- <-. left. split; [congruence | now left].
        -- left. split; [exact Hl | now right].
        -- right. split; [reflexivity|]. left. exists xs1. split; [now right | reflexivity].
        -- right. split; [reflexivity|]. right. split; [|reflexivity].
           intros [E|E]; [cbn in E; congruence | contradiction].
      * intros [(Hl & [H|H])|(-> & [(xs1 & [H|H] & ->)|(H & ->)])].
        -- now left.
        -- right. left. auto.
        -- injection H as E _. congruence.
        -- right. right. split; [reflexivity|]. left. exists xs1. auto.
        -- right. right. split; [reflexivity|]. right. split; [|reflexivity].
           intros E. apply H. now right.
Qed.

Lemma group_entities_step (d : list (string * list text)) (pre : list entity) (e : entity) :
  (List.NoDup (map fst d)
   /\ forall l xs, In (l, xs) d <-> xs = surfaces l pre /\ xs <> []) ->
  List.NoDup (map fst (entities_append (ent_label e) (ent_text e) d))
  /\ forall l xs,
       In (l, xs) (entities_append (ent_label e) (ent_text e) d)
       <-> xs = surfaces l (pre ++ [e]) /\ xs <> [].
Proof.
  intros (Hn & Hd). split.
  - destruct (entities_append_keys (ent_label e) (ent_text e) d) as (K1 & K2).
    destruct (in_dec string_dec (ent_label e) (map fst d)) as [Hin|Hnin].
    + now rewrite K1.
    + rewrite K2 by exact Hnin. apply NoDup_ListNoDup, NoDup_app.
      split; [now apply NoDup_ListNoDup|]. split; [|apply NoDup_singleton].
      intros k Hk Hk'. apply list_elem_of_In in Hk. apply list_elem_of_singleton in Hk'.
      subst k. contradiction.
  - intros l xs. rewrite (entities_append_in _ _ _ Hn), surfaces_snoc.
    destruct (String.eqb_spec (ent_label e) l) as [El|Hne].
    + subst l. split.
      * intros [(H & _)|(_ & [(xs0 & H & ->)|(H & ->)])]; [congruence| |].
        -- apply Hd in H. destruct H as (-> & _). split; [reflexivity|].
           intros E. now apply app_eq_nil in E.
        -- assert (E : surfaces (ent_label e) pre = []).
           { destruct (surfaces (ent_label e) pre) as [|y ys] eqn:Es; [reflexivity|].
             exfalso. apply H. change (ent_label e) with (fst (ent_label e, y :: ys)).
             apply in_map. apply Hd. rewrite Es. split; [reflexivity | discriminate]. }
           rewrite E. split; [reflexivity | discriminate].
      * intros (-> & _). right. split; [reflexivity|].
        destruct (surfaces (ent_label e) pre) as [|y ys] eqn:Es.
        -- right. split; [|reflexivity]. intros Hin. apply in_map_iff in Hin.
           destruct Hin as ((k & xs0) & Ek & Hin). cbn in Ek. subst k.
           apply Hd in Hin. destruct Hin as (-> & Hne). now rewrite Es in Hne.
        -- left. exists (y :: ys). split; [|reflexivity].
           apply Hd. rewrite Es. split; [reflexivity | discriminate].
    + rewrite app_nil_r. rewrite <- Hd. split.
      * intros [(_ & H)|(-> & _)]; [exact H | congruence].
      * intros H. left. split; [congruence | exact H].
Qed.

(** The entity dictionary of a document has one key per label that
    occurs, and under each label the surface strings of the entities with
    that label, in order of occurrence and with repetitions kept. *)
Theorem group_entities_by_label (doc : list entity) :
  List.NoDup (map fst (group_entities doc))
  /\ forall label xs,
       In (label, xs) (group_entities doc) <-> xs = surfaces label doc /\ xs <> [].
Proof.
  unfold group_entities.
  cut (forall pre d,
          (List.NoDup (map fst d)
           /\ forall l xs, In (l, xs) d <-> xs = surfaces l pre /\ xs <> []) ->
          List.NoDup (map fst (fold_left
             (fun d0 ent => entities_append (ent_label ent) (ent_text ent) d0) doc d))
          /\ forall l xs,
               In (l, xs) (fold_left
                 (fun d0 ent => entities_append (ent_label ent) (ent_text ent) d0) doc d)
               <-> xs = surfaces l (pre ++ doc) /\ xs <> []).
  { intros H. apply (H [] []). split; [constructor|].
    intros l xs. cbn. split; [intros [] | intros (-> & H'); now apply H']. }
  induction doc as [|e doc IH]; intros pre d Hd; cbn [fold_left].
  - now rewrite app_nil_r.
  - replace (pre ++ e :: doc) with ((pre ++ [e]) ++ doc) by now rewrite <- app_assoc.
    apply IH. now apply group_entities_step.
Qed.

(** ** Extracted links *)

Lemma ascii_eqb_eq (a b : ascii) : ascii_eqb a b = true -> a = b.
Proof.
  unfold ascii_eqb, code. intros H. apply N.eqb_eq in H.
  rewrite <- (ascii_N_embedding a), <- (ascii_N_embedding b). now rewrite H.
Qed.

Lemma consume_in (t : text) (p : ascii -> bool) (st st' : mstate) :
  In st' (consume t p st) ->
  exists a, nth_error t (fst st) = Some a /\ p a = true /\ st' = (S (fst st), snd st).
Proof.
  unfold consume. destruct (nth_error t (fst st)) as [a|]; [|intros []].
  destruct (p a) eqn:E; [|intros []]. intros [<-|[]]. eauto.
Qed.

Lemma upto_consume (t : text) (p : ascii -> bool) (n : nat) :
  forall st st',
    In st' (upto (consume t p) n st) ->
    snd st' = snd st /\ (fst st <= fst st')%nat
    /\ forall k, (fst st <= k < fst st')%nat ->
         exists a, nth_error t k = Some a /\ p a = true.
Proof.
  induction n as [|n IH]; intros st st' H; cbn [upto] in H.
  - destruct H as [<-|[]]. split; [reflexivity|]. split; [lia|]. intros k Hk. lia.
  - apply in_app_or in H. destruct H as [H|[<-|[]]].
    + apply in_flat_map in H. destruct H as (st1 & H1 & H2).
      apply List.filter_In in H1. destruct H1 as (H1 & _).
      apply consume_in in H1. destruct H1 as (a & Ha & Hp & ->).
      apply IH in H2. cbn [fst snd] in H2. destruct H2 as (E & Hle & Hk).
      split; [exact E|]. split; [lia|]. intros k Hr.
      destruct (Nat.eq_dec k (fst st)) as [->|Hne]; [eauto | apply Hk; lia].
    + split; [reflexivity|]. split; [lia|]. intros k Hk. lia.
Qed.

Lemma link_match (t : text) (i : nat) (st : mstate) :
  In st (match_at link_pattern t i) ->
  exists j,
    (i + 3 <= j)%nat /\ snd st = Some (i + 2, j)%nat
    /\ nth_error t i = Some "["%char /\ nth_error t (S i) = Some "["%char
    /\ (forall k, (i + 2 <= k < j)%nat ->
          exists a, nth_error t k = Some a /\ a <> "]"%char)
    /\ nth_error t j = Some "]"%char /\ nth_error t (S j) = Some "]"%char.
Proof.
  unfold match_at, link_pattern, compile. cbn [pat_regex pat_ignorecase seqs plus run].
  intros H.
  apply in_flat_map in H. destruct H as (st1 & H1 & H).
  apply consume_in in H1. destruct H1 as (a1 & A1 & P1 & ->). cbn [fst snd] in *.
  apply in_flat_map in H. destruct H as (st2 & H2 & H).
  apply consume_in in H2. destruct H2 as (a2 & A2 & P2 & ->). cbn [fst snd] in *.
  apply in_flat_map in H. destruct H as (st3 & H3 & H).
  apply in_map_iff in H3. destruct H3 as (st3' & <- & H3). cbn [fst snd] in *.
  apply in_flat_map in H3. destruct H3 as (st0 & H0 & H3).
  cbn [times] in H0. apply in_flat_map in H0. destruct H0 as (st0' & H0 & [<-|[]]).
  apply consume_in in H0. destruct H0 as (a0 & A0 & P0 & ->). cbn [fst snd] in *.
  apply upto_consume in H3. cbn [fst snd] in H3. destruct H3 as (_ & Hle & Hk).
  apply in_flat_map in H. destruct H as (st4 & H4 & H).
  apply consume_in in H4. destruct H4 as (a4 & A4 & P4 & ->). cbn [fst snd] in *.
  apply consume_in in H. destruct H as (a5 & A5 & P5 & ->). cbn [fst snd] in *.
  apply ascii_eqb_eq in P1, P2, P4, P5. subst a1 a2 a4 a5.
  exists (fst st3'). split; [lia|]. split; [now replace (i + 2)%nat with (S (S i)) by lia|].
  split; [exact A1|]. split; [exact A2|]. split; [|split; [exact A4 | exact A5]].
  intros k Hr.
  assert (Q : forall a, xorb true (in_class false [CChar "]"%char] a) = true -> a <> "]"%char).
  { intros a Ha ->. vm_compute in Ha. discriminate. }
  destruct (Nat.eq_dec k (S (S i))) as [->|Hne].
  - exists a0. split; [exact A0 | now apply Q].
  - destruct (Hk k ltac:(lia)) as (a & Ha & Hp). exists a. split; [exact Ha | now apply Q].
Qed.

Lemma skipn_nth_error {A : Type} (l : list A) (i : nat) (a : A) :
  nth_error l i = Some a -> skipn i l = a :: skipn (S i) l.
Proof.
  revert l. induction i as [|i IH]; intros [|x l] H; try discriminate.
  - now injection H as ->.
  - cbn in H. cbn [skipn]. now apply IH.
Qed.

Lemma group1_link (t : text) (i j : nat) :
  (i + 3 <= j)%nat ->
  nth_error t i = Some "["%char -> nth_error t (S i) = Some "["%char ->
  (forall k, (i + 2 <= k < j)%nat -> exists a, nth_error t k = Some a /\ a <> "]"%char) ->
  nth_error t j = Some "]"%char -> nth_error t (S j) = Some "]"%char ->
  let x := firstn (j - (i + 2)) (skipn (i + 2) t) in
  x <> [] /\ Forall (fun a => a <> "]"%char) x /\ substring (T "[[" ++ x ++ T "]]") t.
Proof.
  intros Hj A1 A2 Hk A4 A5 x.
  assert (Hlen : (j < length t)%nat) by (apply nth_error_Some; congruence).
  assert (Lx : length x = (j - (i + 2))%nat)
    by (subst x; rewrite firstn_length_le; [reflexivity | rewrite length_skipn; lia]).
  split; [|split].
  - intros E. rewrite E in Lx. cbn in Lx. lia.
  - apply List.Forall_forall. intros a Ha.
    apply In_nth_error in Ha. destruct Ha as (n & Hn).
    assert (n < j - (i + 2))%nat by (rewrite <- Lx; apply nth_error_Some; congruence).
    subst x. rewrite nth_error_firstn in Hn.
    destruct (Nat.ltb_spec n (j - (i + 2))); [|lia].
    rewrite nth_error_skipn in Hn.
    destruct (Hk (i + 2 + n)%nat ltac:(lia)) as (b & Hb & Hne). congruence.
  - exists (firstn i t), (skipn (S (S j)) t).
    rewrite <- !app_assoc. cbn [T list_ascii_of_string app].
    rewrite <- (firstn_skipn i t) at 1. f_equal.
    rewrite (skipn_nth_error _ _ _ A1), (skipn_nth_error _ _ _ A2). do 2 f_equal.
    replace (S (S i)) with (i + 2)%nat by lia.
    rewrite <- (firstn_skipn (j - (i + 2)) (skipn (i + 2) t)) at 1. fold x. f_equal.
    rewrite skipn_skipn. replace (j - (i + 2) + (i + 2))%nat with j by lia.
    now rewrite (skipn_nth_error _ _ _ A4), (skipn_nth_error _ _ _ A5).
Qed.

Lemma findall_from_in (p : pattern) (t : text) (fuel : nat) :
  forall i x,
    In x (findall_from p t fuel i) ->
    exists i' st, In st (match_at p t i') /\ x = group1 t st.
Proof.
  induction fuel as [|fuel IH]; intros i x H; cbn [findall_from] in H; [destruct H|].
  destruct (length t <? i)%nat; [destruct H|].
  destruct (match_at p t i) as [|st rest] eqn:E.
  - now apply IH in H.
  - destruct H as [<-|H]; [|now apply IH in H].
    exists i, st. rewrite E. split; [now left | reflexivity].
Qed.

(** Every extracted link is non-empty, contains no closing bracket and
    occurs in the text between [[ and ]]. *)
Theorem extracted_links_wellformed (t x : text)
    (Hin : In x (_extract_obsidian_links t)) :
  x <> [] /\ Forall (fun a => a <> "]"%char) x /\ substring (T "[[" ++ x ++ T "]]") t.
Proof.
  unfold _extract_obsidian_links in Hin.
  rewrite <- list_elem_of_In, elem_of_elements, elem_of_list_to_set, list_elem_of_In in Hin.
  apply findall_from_in in Hin. destruct Hin as (i & st & Hm & ->).
  apply link_match in Hm.
  destruct Hm as (j & Hj & Hcap & A1 & A2 & Hk & A4 & A5).
  unfold group1. rewrite Hcap.
  now apply group1_link.
Qed.

Lemma extracted_links_wellformed_witness :
  In (T "a|x") (_extract_obsidian_links (T "see [[b]] and [[a|x]]"))
  /\ T "a|x" <> []
  /\ Forall (fun a => a <> "]"%char) (T "a|x")
  /\ substring (T "[[" ++ T "a|x" ++ T "]]") (T "see [[b]] and [[a|x]]").
Proof.
  assert (H : In (T "a|x") (_extract_obsidian_links (T "see [[b]] and [[a|x]]")))
    by (vm_compute; tauto).
  split; [exact H|].
  exact (extracted_links_wellformed (T "see [[b]] and [[a|x]]") (T "a|x") H).
Defined.

(** ** Health check and statistics *)

(** [health_check] never raises.  It reports the three components in the
    order chromadb, embedding model, entity extractor; the status is
    "healthy" exactly when every component is, which is when the heartbeat
    and the test embedding return and an entity extractor is loaded, and
    "degraded" otherwise; the store and the statistics are not touched. *)
Theorem health_check_reports (W : World) (heartbeat : result Z) (s : engine) :
  exists h s',
    health_check W heartbeat s = (Ok h, s')
    /\ map fst (h_components h) = ["chromadb"; "embedding_model"; "nlp_pipeline"]%string
    /\ (h_status h = "healthy"%string \/ h_status h = "degraded"%string)
    /\ (h_status h = "healthy"%string <-> Forall is_healthy (map snd (h_components h)))
    /\ (h_status h = "healthy"%string
        <-> (exists z, heartbeat = Ok z)
            /\ (exists v, encode W [T "health check"] = Ok v)
            /\ nlp_pipeline s <> None)
    /\ collections s' = collections s
    /\ processing_stats s' = processing_stats s.
Proof.
  unfold health_check, bind, now, try_, ret.
  rewrite call_encode_spec, call_nlp_spec. cbn [nlp_pipeline log_call].
  destruct heartbeat as [z|e1], (encode W [T "health check"]) as [v|e2],
    (nlp_pipeline s) as [nlp|];
    (eexists; eexists; split; [reflexivity|]); cbn;
    (split; [reflexivity|]);
    (split; [auto|]);
    (split; [split; [intros H; try discriminate H; repeat constructor
                    | intros H; try reflexivity;
                      repeat match goal with
                             | H : Forall _ (_ :: _) |- _ => inversion H; clear H; subst
                             end; contradiction]|]);
    (split; [split; [intros H; try discriminate H; repeat split; eauto; discriminate
                    | intros ((z' & Hz) & (v' & Hv) & Hn); try reflexivity;
                      try discriminate; try congruence]|]);
    split; reflexivity.
Qed.

Lemma get_processing_stats_counts (count : collection -> result nat) (s : engine) :
  exists counts,
    get_processing_stats count s = (Ok (processing_stats s, counts), s)
    /\ map fst counts = map tier_value all_tiers
    /\ forall tier,
         dict_get (tier_value tier) counts = Some (reported count (collections s tier)).
Proof.
  eexists. split; [reflexivity|]. split; [reflexivity|].
  intros []; reflexivity.
Qed.

(** The statistics report never raises and changes nothing; under the
    value of each tier it gives the count of that tier's collection, or 0
    when the count cannot be read.  Taken before and after an ingestion,
    whatever its outcome, the second report is that of collections which
    still hold their earlier records, with new records appended only in the
    tier the document is classified into. *)
Theorem stats_report_tracks_ingestion (W : World) (count : collection -> result nat)
    (s : engine) (path : string) (vault : option string) :
  let s' := snd (process_document W path vault s) in
  exists counts counts',
    get_processing_stats count s = (Ok (processing_stats s, counts), s)
    /\ get_processing_stats count s' = (Ok (processing_stats s', counts'), s')
    /\ map fst counts = map tier_value all_tiers
    /\ map fst counts' = map tier_value all_tiers
    /\ forall tier,
         exists added,
           dict_get (tier_value tier) counts = Some (reported count (collections s tier))
           /\ dict_get (tier_value tier) counts'
              = Some (reported count (collections s tier ++ added))
           /\ (fst (classify_privacy_tier (extract_text W path) s) <> Ok tier -> added = []).
Proof.
  intros s'.
  destruct (get_processing_stats_counts count s) as (counts & E & K & Hc).
  destruct (get_processing_stats_counts count s') as (counts' & E' & K' & Hc').
  exists counts, counts'. split; [exact E|]. split; [exact E'|].
  split; [exact K|]. split; [exact K'|].
  intros tier.
  destruct (process_document_extends W s path vault tier) as (added & Ea & Hn & _).
  exists added. split; [apply Hc|]. split; [|exact Hn].
  rewrite Hc'. subst s'. now rewrite Ea.
Qed.

(** ** Collections by name and text extraction *)

Lemma collection_name_values :
  collection_name PUBLIC = Ok "sefirot_tier1"%string
  /\ collection_name BUSINESS = Ok "sefirot_tier2"%string
  /\ collection_name PERSONAL = Ok "sefirot_tier3"%string.
Proof. repeat split; vm_compute; reflexivity. Qed.

Lemma get_or_create_lookup (name name' : string) (reg : registry) :
  get_or_create_collection name reg !! name'
  = if decide (name = name') then Some (default [] (reg !! name')) else reg !! name'.
Proof.
  unfold get_or_create_collection. destruct (decide (name = name')) as [->|Hne].
  - destruct (reg !! name') eqn:E; [now rewrite E | now rewrite lookup_insert_eq].
  - destruct (reg !! name); [reflexivity | now rewrite lookup_insert_ne].
Qed.

(** [_init_chromadb] binds the three tiers to three different collection
    names; a collection that exists under such a name is kept with its
    records, a missing one is created empty, and collections under other
    names are not touched. *)
Theorem init_chromadb_collections (reg : registry) :
  exists reg' bound,
    _init_chromadb reg = Ok (reg', bound)
    /\ map fst bound = all_tiers
    /\ List.NoDup (map snd bound)
    /\ (forall name, In name (map snd bound) -> reg' !! name = Some (default [] (reg !! name)))
    /\ (forall name, ~ In name (map snd bound) -> reg' !! name = reg !! name).
Proof.
  destruct collection_name_values as (E1 & E2 & E3).
  unfold _init_chromadb, all_tiers. cbn [init_collections]. rewrite E1, E2, E3. cbn [app].
  eexists; eexists. split; [reflexivity|]. split; [reflexivity|]. cbn [map snd].
  split; [|split].
  - repeat constructor; cbn; intuition discriminate.
  - intros name Hin. rewrite !get_or_create_lookup.
    repeat case_decide; subst; try reflexivity; try discriminate.
    cbn in Hin. intuition congruence.
  - intros name Hin. rewrite !get_or_create_lookup.
    repeat case_decide; subst; try reflexivity; exfalso; apply Hin; cbn; auto.
Qed.

Lemma pdf_text_all_ok (pages : list (result text)) :
  forall acc,
    match all_ok pages with
    | Some ps => pdf_text pages acc = Ok (acc ++ concat (map (fun p => p ++ [newline]) ps))
    | None => exists e, pdf_text pages acc = Raise e
    end.
Proof.
  induction pages as [|[p|e] pages IH]; intros acc; cbn [all_ok pdf_text].
  - cbn. now rewrite app_nil_r.
  - specialize (IH (acc ++ p ++ [newline])).
    destruct (all_ok pages) as [ps|]; [|exact IH].
    rewrite IH. cbn [map concat]. now rewrite <- !app_assoc.
  - eauto.
Qed.

(** Text extraction never raises: whatever the readers do, it returns a
    text.  For a PDF that text is the page texts, each followed by a line
    break, when every page can be extracted, and the empty string as soon as
    opening the file or one page fails (no partial text); a text file that
    cannot be read gives the empty string. *)
Theorem extract_text_content_total (R : Readers) (file_ext path : string) :
  (exists t, _extract_text_content R file_ext path = Ok t)
  /\ (forall pages,
        file_ext = ".pdf"%string -> pdf_pages R path = Ok pages ->
        _extract_text_content R file_ext path
        = Ok match all_ok pages with
             | Some ps => concat (map (fun p => p ++ [newline]) ps)
             | None => []
             end)
  /\ (forall e,
        file_ext = ".pdf"%string -> pdf_pages R path = Raise e ->
        _extract_text_content R file_ext path = Ok [])
  /\ (In file_ext [".txt"; ".md"]%string ->
      _extract_text_content R file_ext path
      = Ok match read_text R path with Ok t => t | Raise _ => [] end).
Proof.
  split; [|split; [|split]].
  - unfold _extract_text_content.
    destruct (if String.eqb file_ext ".pdf" then _ else _) as [t|e]; cbn; eauto.
  - intros pages -> Hp. unfold _extract_text_content, _extract_pdf_text. cbn. rewrite Hp.
    pose proof (pdf_text_all_ok pages []) as E.
    destruct (all_ok pages) as [ps|].
    + rewrite E. reflexivity.
    + destruct E as (e & ->). reflexivity.
  - intros e -> Hp. unfold _extract_text_content, _extract_pdf_text. cbn. now rewrite Hp.
  - intros [<-|[<-|[]]]; unfold _extract_text_content; cbn;
      destruct (read_text R path); reflexivity.
Qed.

(** ** Vault migration *)

Lemma clean_with_fold (category : string) (ps : list cleaner) :
  forall acc,
    (snd (fold_left (clean_with category) ps acc) = false
     <-> snd acc = false /\ List.Forall (fun p => cl_findall p (fst acc) = []) ps)
    /\ (snd (fold_left (clean_with category) ps acc) = false ->
        fst (fold_left (clean_with category) ps acc) = fst acc).
Proof.
  induction ps as [|p ps IH]; intros acc; cbn [fold_left].
  - split; [|reflexivity]. split; [intros H; split; [exact H | constructor] | tauto].
  - destruct (IH (clean_with category acc p)) as (I1 & I2).
    unfold clean_with in *. destruct (cl_findall p (fst acc)) as [|m ms] eqn:E.
    + split; [|exact I2]. rewrite I1. split.
      * intros (Ha & Hf). split; [exact Ha | constructor; [exact E | exact Hf]].
      * intros (Ha & Hf). inversion Hf; subst. tauto.
    + cbn [snd fst] in *. split.
      * split; [intros H; apply I1 in H; destruct H; discriminate|].
        intros (_ & Hf). inversion Hf; subst. congruence.
      * intros H. apply I1 in H. destruct H; discriminate.
Qed.

Lemma clean_fold (compiled : list (string * list cleaner)) :
  forall acc,
    let res := fold_left (fun acc entry => fold_left (clean_with (fst entry)) (snd entry) acc)
                 compiled acc in
    (snd res = false
     <-> snd acc = false
         /\ List.Forall (fun p => cl_findall p (fst acc) = []) (concat (map snd compiled)))
    /\ (snd res = false -> fst res = fst acc).
Proof.
  induction compiled as [|[category ps] compiled IH]; intros acc; cbn [fold_left map concat fst snd].
  - split; [|reflexivity]. split; [intros H; split; [exact H | constructor] | tauto].
  - destruct (clean_with_fold category ps acc) as (C1 & C2).
    destruct (IH (fold_left (clean_with category) ps acc)) as (I1 & I2). cbn zeta in I1, I2.
    split.
    + rewrite I1, C1, Forall_app. split.
      * intros ((Ha & Hp) & Hr). rewrite C2 in Hr by (apply C1; tauto). tauto.
      * intros (Ha & Hp & Hr). rewrite C2 by (apply C1; tauto). tauto.
    + intros H. rewrite I2 by exact H. apply C2. apply I1 in H. tauto.
Qed.

(** The cleaner reports a text as cleaned exactly when one of the compiled
    patterns, of whatever category, finds a match in it; a text it reports
    as not cleaned is returned as it was given. *)
Theorem clean_content_flag (compiled : list (string * list cleaner)) (content : text) :
  (snd (_clean_content_privacy compiled content) = false
   <-> forall category patterns p,
         In (category, patterns) compiled -> In p patterns -> cl_findall p content = [])
  /\ (snd (_clean_content_privacy compiled content) = false ->
      fst (_clean_content_privacy compiled content) = content).
Proof.
  destruct (clean_fold compiled (content, false)) as (C1 & C2). cbn [fst snd] in *.
  split; [|exact C2].
  unfold _clean_content_privacy. rewrite C1, List.Forall_forall. split.
  - intros (_ & Hf) category patterns p Hc Hp. apply Hf.
    apply in_concat. exists patterns. split; [|exact Hp].
    change patterns with (snd (category, patterns)). now apply in_map.
  - intros Hf. split; [reflexivity|]. intros p Hp.
    apply in_concat in Hp as (patterns & Hc & Hp).
    apply in_map_iff in Hc as ([category ps] & <- & Hc). eapply Hf; eassumption.
Qed.

Lemma tier_key_values :
  tier_key PUBLIC = Ok "tier1"%string
  /\ tier_key BUSINESS = Ok "tier2"%string
  /\ tier_key PERSONAL = Ok "tier3"%string.
Proof. repeat split; vm_compute; reflexivity. Qed.

Lemma tier_count_values (r : migration) (a b c : Z) :
  privacy_tier_counts r = tier_counts a b c ->
  tier_count PUBLIC r = a /\ tier_count BUSINESS r = b /\ tier_count PERSONAL r = c.
Proof.
  intros E. destruct tier_key_values as (K1 & K2 & K3).
  unfold tier_count. rewrite K1, K2, K3, E. repeat split.
Qed.

Lemma count_tier_values (r : migration) (a b c : Z) (tier : PrivacyTier) (key : string) :
  privacy_tier_counts r = tier_counts a b c ->
  tier_key tier = Ok key ->
  exists counted,
    count_tier key r = Some counted
    /\ privacy_tier_counts counted
       = tier_counts (a + flag (tier_eqb PUBLIC tier)) (b + flag (tier_eqb BUSINESS tier))
           (c + flag (tier_eqb PERSONAL tier))
    /\ total_processed counted = total_processed r
    /\ migrated counted = migrated r
    /\ privacy_cleaned counted = privacy_cleaned r
    /\ excluded counted = excluded r.
Proof.
  intros E K. destruct tier_key_values as (K1 & K2 & K3).
  unfold count_tier. rewrite E.
  destruct tier; rewrite ?K1, ?K2, ?K3 in K; injection K as <-; cbn;
    (eexists; split; [reflexivity|]); cbn; unfold tier_counts;
    rewrite ?Z.add_0_r; repeat split.
Qed.

Lemma classify_content_outcome (eng : option engine) (content : text) :
  exists tier eng',
    classify_content eng content = (Ok tier, eng')
    /\ match eng with
       | Some e =>
           exists e', eng' = Some e' /\ quiet e e'
             /\ forall tier',
                  tier_counter tier' (processing_stats e')
                  = tier_counter tier' (processing_stats e) + flag (tier_eqb tier' tier)
       | None => eng' = None /\ tier = PUBLIC
       end.
Proof.
  destruct eng as [e|]; cbn [classify_content].
  - classify_cases e content; eexists; eexists; (split; [reflexivity|]);
      eexists; (split; [reflexivity|]);
      (split; [unfold quiet, frame, same_setup; cbn; tauto | intros []; cbn; lia]).
  - eexists; eexists. split; [reflexivity | split; reflexivity].
Qed.

(** The ways one iteration can end. *)
Lemma migrate_file_cases (H : Host) (compiled : list (string * list cleaner))
    (cfg : transplant_config) (st : vault_state) (f : file_info) :
  migrate_file H compiled cfg st f = st
  \/ (exists content tier eng key,
        read_text_file (v_disk st) (info_path f) = Some content
        /\ classify_content (v_engine st) content = (Ok tier, eng)
        /\ tier_key tier = Ok key
        /\ (count_tier key (v_results st) = None
            /\ migrate_file H compiled cfg st f
               = {| v_engine := eng; v_disk := v_disk st; v_results := v_results st |}
            \/ exists counted,
                 count_tier key (v_results st) = Some counted
                 /\ (over_limit cfg tier = true
                     /\ migrate_file H compiled cfg st f
                        = {| v_engine := eng; v_disk := v_disk st;
                             v_results := bump_excluded counted |}
                     \/ over_limit cfg tier = false
                        /\ (migrate_file H compiled cfg st f
                            = {| v_engine := eng;
                                 v_disk := <[target_of H cfg f
                                             := TextFile (written_text compiled cfg content)]>
                                             (v_disk st);
                                 v_results :=
                                   bump_migrated (snd (clean_step compiled cfg content counted)) |}
                            \/ migrate_file H compiled cfg st f
                               = {| v_engine := eng; v_disk := v_disk st;
                                    v_results := snd (clean_step compiled cfg content counted) |}))))
  \/ (exists c,
        v_disk st !! info_path f = Some c
        /\ migrate_file H compiled cfg st f
           = {| v_engine := v_engine st; v_disk := <[target_of H cfg f := c]> (v_disk st);
                v_results := bump_migrated (v_results st) |}).
Proof.
  unfold migrate_file.
  destruct (negb (can_mkdir H _)); [now left|].
  destruct (is_text_suffix _).
  - destruct (read_text_file (v_disk st) (info_path f)) as [content|] eqn:Er; [|destruct st; now left].
    destruct (classify_content_outcome (v_engine st) content) as (tier & eng & Ec & _).
    rewrite Ec.
    destruct (tier_key tier) as [key|e] eqn:Ek.
    2:{ destruct tier_key_values as (K1 & K2 & K3). destruct tier; congruence. }
    right; left. exists content, tier, eng, key.
    split; [reflexivity|]. split; [exact Ec|]. split; [exact Ek|].
    destruct (count_tier key (v_results st)) as [counted|]; [right | left; now split].
    exists counted. split; [reflexivity|].
    destruct (over_limit cfg tier); [left; now split | right].
    split; [reflexivity|].
    assert (Ew : fst (clean_step compiled cfg content counted) = written_text compiled cfg content).
    { unfold clean_step, written_text. now destruct (privacy_cleaning_enabled cfg). }
    destruct (clean_step compiled cfg content counted) as [content' cleaned]. cbn [fst snd] in *.
    subst content'. destruct (can_write H _); [now left | now right].
  - unfold copy2. destruct (v_disk st !! info_path f) as [c|] eqn:Es; [|now left].
    destruct (String.eqb _ _); [now left|].
    destruct (can_write H _); [|now left].
    right; right. exists c. now split.
Qed.

Example demo_migration_run :
  option_map
    (fun st =>
       (v_results st,
        map (fun p => v_disk st !! p) ["/new/id.md"; "/new/note.md"; "/new/logo.png"]%string))
    demo_migration
  = Some ({| total_processed := 3; migrated := 2; privacy_cleaned := 1; excluded := 1;
             privacy_tier_counts := tier_counts 1 0 1 |},
          [None; Some (TextFile (T "call[PERSONAL_INFO_REMOVED] today"));
           Some (BinaryFile (T "PNG"))]).
Proof. vm_compute. reflexivity. Qed.

Lemma clean_step_results (compiled : list (string * list cleaner)) (cfg : transplant_config)
    (content : text) (r : migration) :
  snd (clean_step compiled cfg content r) = r
  \/ privacy_cleaning_enabled cfg = true
     /\ snd (clean_step compiled cfg content r) = bump_cleaned r.
Proof.
  unfold clean_step. destruct (privacy_cleaning_enabled cfg); [|now left].
  cbn [snd]. destruct (snd (_clean_content_privacy compiled content)); [right | left]; auto.
Qed.

Ltac flags cfg :=
  destruct (over_limit cfg PUBLIC), (over_limit cfg BUSINESS), (over_limit cfg PERSONAL);
  cbn [flag negb tier_eqb] in *.

Lemma advance_refl (cfg : transplant_config) (r : migration) (a b c : Z) :
  privacy_tier_counts r = tier_counts a b c -> advance cfg 0 r r.
Proof.
  intros E. exists a, b, c, a, b, c. repeat split; try assumption; try lia.
  all: flags cfg; lia.
Qed.

Lemma advance_trans (cfg : transplant_config) (n m : Z) (r1 r2 r3 : migration) :
  advance cfg n r1 r2 -> advance cfg m r2 r3 -> advance cfg (n + m) r1 r3.
Proof.
  intros (a & b & c & a' & b' & c' & E1 & E2 & A)
         (a2 & b2 & c2 & a3 & b3 & c3 & E2' & E3 & B).
  rewrite E2 in E2'. injection E2' as <- <- <-.
  exists a, b, c, a3, b3, c3. split; [exact E1|]. split; [exact E3|].
  destruct A as (? & ? & ? & ? & ? & ? & ? & ? & Ha & ? & ?).
  destruct B as (? & ? & ? & ? & ? & ? & ? & ? & Hb & ? & ?).
  repeat split; try (intros Hc; specialize (Ha Hc); specialize (Hb Hc)); try lia.
  all: flags cfg; lia.
Qed.

Lemma advance_step (H : Host) (compiled : list (string * list cleaner))
    (cfg : transplant_config) (st : vault_state) (f : file_info) (a b c : Z) :
  privacy_tier_counts (v_results st) = tier_counts a b c ->
  advance cfg 1 (v_results st) (v_results (migrate_file H compiled cfg st f)).
Proof.
  intros E.
  assert (Same : advance cfg 1 (v_results st) (v_results st)).
  { exists a, b, c, a, b, c. repeat split; try assumption; try lia. all: flags cfg; lia. }
  destruct (migrate_file_cases H compiled cfg st f)
    as [->|[(content & tier & eng & key & _ & _ & Ek & Hc)|(x & _ & ->)]]; [exact Same| |].
  - destruct (count_tier_values _ _ _ _ _ _ E Ek) as (counted & Ect & Ecs & Et & Em & Ep & Ee).
    destruct Hc as [(Hn & _)|(counted' & Ect' & Hc)]; [congruence|].
    rewrite Ect in Ect'. injection Ect' as <-.
    destruct Hc as [(Ho & ->)|(Ho & [->| ->])]; cbn [v_results].
    + eexists a, b, c, _, _, _. split; [exact E|]. split; [cbn; exact Ecs|]. cbn.
      rewrite Et, Em, Ep, Ee.
      destruct tier; rewrite Ho; flags cfg; repeat split; try lia; try discriminate.
    + destruct (clean_step_results compiled cfg content counted) as [->|(Hen & ->)];
        eexists a, b, c, _, _, _; (split; [exact E|]); (split; [cbn; exact Ecs|]); cbn;
        rewrite Et, Em, Ep, Ee;
        destruct tier; rewrite Ho; flags cfg; repeat split; try lia; try discriminate;
        intros Hoff; congruence.
    + destruct (clean_step_results compiled cfg content counted) as [->|(Hen & ->)];
        eexists a, b, c, _, _, _; (split; [exact E|]); (split; [cbn; exact Ecs|]); cbn;
        rewrite ?Et, ?Em, ?Ep, ?Ee;
        destruct tier; rewrite Ho; flags cfg; repeat split; try lia; try discriminate;
        intros Hoff; congruence.
  - exists a, b, c, a, b, c. cbn. repeat split; try assumption; try lia. all: flags cfg; lia.
Qed.

Lemma migrate_advance (H : Host) (compiled : list (string * list cleaner))
    (cfg : transplant_config) (files : list file_info) :
  forall st a b c,
    privacy_tier_counts (v_results st) = tier_counts a b c ->
    advance cfg (len files) (v_results st)
      (v_results (fold_left (migrate_file H compiled cfg) files st)).
Proof.
  induction files as [|f files IH]; intros st a b c E; cbn [fold_left].
  - eapply advance_refl; exact E.
  - pose proof (advance_step H compiled cfg st f a b c E) as A1.
    destruct A1 as (a0 & b0 & c0 & a1 & b1 & c1 & E0 & E1 & A1).
    pose proof (IH _ _ _ _ E1) as A2.
    replace (len (f :: files)) with (1 + len files) by (unfold len; cbn [length]; lia).
    eapply advance_trans; [|exact A2].
    exists a0, b0, c0, a1, b1, c1. tauto.
Qed.

Lemma migrate_results (H : Host) (compiled : list (string * list cleaner))
    (cfg : transplant_config) (files : list file_info) (eng : option engine) (d : disk) :
  match _migrate_vault_files H compiled cfg files eng d with
  | Some st =>
      can_mkdir H (target_vault_path cfg) = true
      /\ exists a b c,
           privacy_tier_counts (v_results st) = tier_counts a b c
           /\ advance cfg (len files) (initial_results files) (v_results st)
  | None => can_mkdir H (target_vault_path cfg) = false
  end.
Proof.
  unfold _migrate_vault_files. destruct (can_mkdir H (target_vault_path cfg)); [|reflexivity].
  split; [reflexivity|].
  pose proof (migrate_advance H compiled cfg files
                {| v_engine := eng; v_disk := d; v_results := initial_results files |}
                0 0 0 eq_refl) as A.
  cbn [v_results] in A.
  destruct A as (a & b & c & a' & b' & c' & E & E' & A).
  exists a', b', c'. split; [exact E'|]. exists a, b, c, a', b', c'. tauto.
Qed.

(** The migration raises only when the target directory cannot be
    created; what happens to a single file never stops it.  Its results are
    consistent: [total_processed] is the number of files listed, the tier
    dictionary keeps its three keys, every counter is non-negative, at most
    one classification is counted per file, no file is counted both as
    migrated and as excluded, and every excluded or cleaned file has been
    counted under a tier. *)
Theorem migrate_results_consistent (H : Host) (compiled : list (string * list cleaner))
    (cfg : transplant_config) (files : list file_info) (eng : option engine) (d : disk) :
  match _migrate_vault_files H compiled cfg files eng d with
  | Some st =>
      let r := v_results st in
      let counted := tier_count PUBLIC r + tier_count BUSINESS r + tier_count PERSONAL r in
      can_mkdir H (target_vault_path cfg) = true
      /\ total_processed r = len files
      /\ map fst (privacy_tier_counts r) = ["tier1"; "tier2"; "tier3"]%string
      /\ 0 <= tier_count PUBLIC r /\ 0 <= tier_count BUSINESS r /\ 0 <= tier_count PERSONAL r
      /\ counted <= len files
      /\ 0 <= migrated r /\ 0 <= excluded r /\ 0 <= privacy_cleaned r
      /\ migrated r + excluded r <= len files
      /\ privacy_cleaned r + excluded r <= counted
  | None => can_mkdir H (target_vault_path cfg) = false
  end.
Proof.
  pose proof (migrate_results H compiled cfg files eng d) as M.
  destruct (_migrate_vault_files H compiled cfg files eng d) as [st|]; [|exact M].
  destruct M as (Hmk & a & b & c & E & A). cbn zeta.
  destruct (tier_count_values _ _ _ _ E) as (-> & -> & ->).
  destruct A as (a0 & b0 & c0 & a' & b' & c' & E0 & E' & A).
  rewrite E in E'. injection E' as <- <- <-.
  cbn in E0. injection E0 as <- <- <-. cbn [initial_results total_processed migrated excluded
    privacy_cleaned] in A.
  split; [exact Hmk|]. rewrite E. cbn [map fst tier_counts].
  destruct A as (? & ? & ? & ? & ? & ? & ? & ? & ? & ? & ?).
  flags cfg; repeat split; try lia.
Qed.

(** The files counted as excluded are exactly the text files classified
    into a tier outside a non-empty list of privacy limits: without limits,
    or with an empty list of limits, nothing is excluded.  Files counted as
    privacy-cleaned are among the files of the admitted tiers, and none is
    counted when cleaning is switched off. *)
Theorem migrate_excludes_by_limits (H : Host) (compiled : list (string * list cleaner))
    (cfg : transplant_config) (files : list file_info) (eng : option engine) (d : disk) :
  match _migrate_vault_files H compiled cfg files eng d with
  | Some st =>
      let r := v_results st in
      excluded r
      = flag (over_limit cfg PUBLIC) * tier_count PUBLIC r
        + flag (over_limit cfg BUSINESS) * tier_count BUSINESS r
        + flag (over_limit cfg PERSONAL) * tier_count PERSONAL r
      /\ privacy_cleaned r
         <= flag (negb (over_limit cfg PUBLIC)) * tier_count PUBLIC r
            + flag (negb (over_limit cfg BUSINESS)) * tier_count BUSINESS r
            + flag (negb (over_limit cfg PERSONAL)) * tier_count PERSONAL r
      /\ (privacy_tier_limits cfg = None \/ privacy_tier_limits cfg = Some [] -> excluded r = 0)
      /\ (privacy_cleaning_enabled cfg = false -> privacy_cleaned r = 0)
  | None => True
  end.
Proof.
  pose proof (migrate_results H compiled cfg files eng d) as M.
  destruct (_migrate_vault_files H compiled cfg files eng d) as [st|]; [|exact I].
  destruct M as (Hmk & a & b & c & E & A). cbn zeta.
  destruct (tier_count_values _ _ _ _ E) as (-> & -> & ->).
  destruct A as (a0 & b0 & c0 & a' & b' & c' & E0 & E' & A).
  rewrite E in E'. injection E' as <- <- <-.
  cbn in E0. injection E0 as <- <- <-. cbn [initial_results total_processed migrated excluded
    privacy_cleaned] in A.
  destruct A as (? & ? & ? & ? & ? & Hex & ? & Hcl & Hoff & ? & ?).
  rewrite !Z.sub_0_r in *.
  split; [exact Hex|]. split; [exact Hcl|]. split; [|exact Hoff].
  intros Hl. rewrite Hex. unfold over_limit. destruct Hl as [-> | ->]; cbn; lia.
Qed.

Lemma clean_step_counts (compiled : list (string * list cleaner)) (cfg : transplant_config)
    (content : text) (r : migration) :
  privacy_tier_counts (snd (clean_step compiled cfg content r)) = privacy_tier_counts r.
Proof. destruct (clean_step_results compiled cfg content r) as [->|(_ & ->)]; reflexivity. Qed.

(** What one iteration does to the engine and the tier counts. *)
Lemma migrate_file_engine (H : Host) (compiled : list (string * list cleaner))
    (cfg : transplant_config) (st : vault_state) (f : file_info) (a b c : Z) :
  privacy_tier_counts (v_results st) = tier_counts a b c ->
  exists a' b' c',
    privacy_tier_counts (v_results (migrate_file H compiled cfg st f)) = tier_counts a' b' c'
    /\ match v_engine st with
       | Some e =>
           exists e',
             v_engine (migrate_file H compiled cfg st f) = Some e'
             /\ quiet e e'
             /\ tier1 (processing_stats e') - tier1 (processing_stats e) = a' - a
             /\ tier2 (processing_stats e') - tier2 (processing_stats e) = b' - b
             /\ tier3 (processing_stats e') - tier3 (processing_stats e) = c' - c
       | None =>
           v_engine (migrate_file H compiled cfg st f) = None /\ b' = b /\ c' = c
       end.
Proof.
  intros E.
  assert (Same : forall st', v_engine st' = v_engine st ->
            privacy_tier_counts (v_results st') = tier_counts a b c ->
            exists a' b' c',
              privacy_tier_counts (v_results st') = tier_counts a' b' c'
              /\ match v_engine st with
                 | Some e =>
                     exists e',
                       v_engine st' = Some e' /\ quiet e e'
                       /\ tier1 (processing_stats e') - tier1 (processing_stats e) = a' - a
                       /\ tier2 (processing_stats e') - tier2 (processing_stats e) = b' - b
                       /\ tier3 (processing_stats e') - tier3 (processing_stats e) = c' - c
                 | None => v_engine st' = None /\ b' = b /\ c' = c
                 end).
  { intros st' He Hc. exists a, b, c. split; [exact Hc|]. rewrite He.
    destruct (v_engine st) as [e|]; [|tauto].
    exists e. split; [reflexivity|]. split; [apply quiet_refl | lia]. }
  destruct (migrate_file_cases H compiled cfg st f)
    as [->|[(content & tier & eng & key & _ & Ec & Ek & Hc)|(x & _ & ->)]];
    [now apply Same| |now apply Same].
  destruct (count_tier_values _ _ _ _ _ _ E Ek) as (counted & Ect & Ecs & _).
  destruct Hc as [(Hn & _)|(counted' & Ect' & Hc)]; [congruence|].
  rewrite Ect in Ect'. injection Ect' as <-.
  assert (Ecs' : privacy_tier_counts (v_results (migrate_file H compiled cfg st f))
                 = privacy_tier_counts counted
                 /\ v_engine (migrate_file H compiled cfg st f) = eng).
  { destruct Hc as [(_ & ->)|(_ & [->| ->])]; cbn; rewrite ?clean_step_counts; now split. }
  destruct Ecs' as (-> & ->). rewrite Ecs.
  eexists _, _, _. split; [reflexivity|].
  destruct (classify_content_outcome (v_engine st) content) as (tier' & eng' & Ec' & Hout).
  rewrite Ec in Ec'. injection Ec' as <- <-.
  destruct (v_engine st) as [e|].
  - destruct Hout as (e' & -> & Hq & Hcount). exists e'. split; [reflexivity|].
    split; [exact Hq|].
    pose proof (Hcount PUBLIC) as H1. pose proof (Hcount BUSINESS) as H2.
    pose proof (Hcount PERSONAL) as H3. cbn [tier_counter] in *. lia.
  - destruct Hout as (-> & ->). cbn. repeat split; lia.
Qed.

Lemma migrate_engine (H : Host) (compiled : list (string * list cleaner))
    (cfg : transplant_config) (files : list file_info) :
  forall st a b c,
    privacy_tier_counts (v_results st) = tier_counts a b c ->
    exists a' b' c',
      privacy_tier_counts (v_results (fold_left (migrate_file H compiled cfg) files st))
      = tier_counts a' b' c'
      /\ match v_engine st with
         | Some e =>
             exists e',
               v_engine (fold_left (migrate_file H compiled cfg) files st) = Some e'
               /\ quiet e e'
               /\ tier1 (processing_stats e') - tier1 (processing_stats e) = a' - a
               /\ tier2 (processing_stats e') - tier2 (processing_stats e) = b' - b
               /\ tier3 (processing_stats e') - tier3 (processing_stats e) = c' - c
         | None =>
             v_engine (fold_left (migrate_file H compiled cfg) files st) = None
             /\ b' = b /\ c' = c
         end.
Proof.
  induction files as [|f files IH]; intros st a b c E; cbn [fold_left].
  - exists a, b, c. split; [exact E|]. destruct (v_engine st) as [e|]; [|tauto].
    exists e. split; [reflexivity|]. split; [apply quiet_refl | lia].
  - destruct (migrate_file_engine H compiled cfg st f a b c E) as (a1 & b1 & c1 & E1 & S1).
    destruct (IH _ _ _ _ E1) as (a2 & b2 & c2 & E2 & S2).
    exists a2, b2, c2. split; [exact E2|].
    destruct (v_engine st) as [e|].
    + destruct S1 as (e1 & He1 & Q1 & ? & ? & ?). rewrite He1 in S2.
      destruct S2 as (e2 & He2 & Q2 & ? & ? & ?).
      exists e2. split; [exact He2|]. split; [eapply quiet_trans; eassumption | lia].
    + destruct S1 as (He1 & -> & ->). rewrite He1 in S2. exact S2.
Qed.

(** With an engine, the tier counts of the migration are the
    classifications the engine has counted during it, tier by tier, and the
    migration changes nothing else in the engine: its collections, its
    patterns and configuration and its document, embedding and query
    counters stay as they were.  Without an engine every text file read is
    counted under tier 1. *)
Theorem migrate_counts_follow_engine (H : Host) (compiled : list (string * list cleaner))
    (cfg : transplant_config) (files : list file_info) (eng : option engine) (d : disk) :
  match _migrate_vault_files H compiled cfg files eng d with
  | Some st =>
      match eng with
      | Some e =>
          exists e',
            v_engine st = Some e'
            /\ quiet e e'
            /\ forall tier,
                 tier_count tier (v_results st)
                 = tier_counter tier (processing_stats e')
                   - tier_counter tier (processing_stats e)
      | None =>
          v_engine st = None
          /\ tier_count BUSINESS (v_results st) = 0
          /\ tier_count PERSONAL (v_results st) = 0
      end
  | None => True
  end.
Proof.
  unfold _migrate_vault_files. destruct (can_mkdir H (target_vault_path cfg)); [|exact I].
  destruct (migrate_engine H compiled cfg files
              {| v_engine := eng; v_disk := d; v_results := initial_results files |}
              0 0 0 eq_refl) as (a & b & c & E & S).
  cbn [v_engine] in S.
  destruct (tier_count_values _ _ _ _ E) as (T1 & T2 & T3).
  destruct eng as [e|].
  - destruct S as (e' & He & Q & ? & ? & ?). exists e'. split; [exact He|]. split; [exact Q|].
    intros []; cbn [tier_counter]; lia.
  - destruct S as (He & -> & ->). tauto.
Qed.

Lemma migrate_file_disk (H : Host) (compiled : list (string * list cleaner))
    (cfg : transplant_config) (st : vault_state) (f : file_info) (p : string) :
  p <> target_of H cfg f ->
  v_disk (migrate_file H compiled cfg st f) !! p = v_disk st !! p.
Proof.
  intros Hp.
  destruct (migrate_file_cases H compiled cfg st f)
    as [->|[(content & tier & eng & key & _ & _ & _ & Hc)|(x & _ & ->)]]; [reflexivity| |].
  - destruct Hc as [(_ & ->)|(counted & _ & [(_ & ->)|(_ & [->| ->])])]; cbn [v_disk];
      try reflexivity.
    now rewrite lookup_insert_ne.
  - cbn [v_disk]. now rewrite lookup_insert_ne.
Qed.



Lemma tier_of_setup (e e' : engine) (content : text) :
  quiet e e' -> tier_of (Some e') content = tier_of (Some e) content.
Proof.
  intros ((Hs & _) & _). destruct Hs as (_ & _ & Hn & Hp).
  unfold tier_of, classify_content.
  pose proof (classify_deterministic content e e' Hp Hn) as D.
  destruct (classify_privacy_tier content e'), (classify_privacy_tier content e). exact D.
Qed.

Section TextFile.

Variable H : Host.
Variable compiled : list (string * list cleaner).
Variable cfg : transplant_config.
Variable eng : option engine.
Variable d : disk.
Variable f : file_info.
Variable content : text.
Variable tier : PrivacyTier.

Hypothesis Htext : is_text_suffix (path_suffix_lower H (info_path f)) = true.
Hypothesis Hread : read_text_file d (info_path f) = Some content.
Hypothesis Htier : tier_of eng content = Ok tier.
Hypothesis Hsource : target_of H cfg f <> info_path f.

Local Abbreviation fate := (text_fate H compiled cfg d f content tier).
Local Abbreviation ready := (ready_for eng d f).

Lemma ready_engine (st : vault_state) (c : text) (r : result PrivacyTier)
    (eng' : option engine) :
  (forall c, tier_of (v_engine st) c = tier_of eng c) ->
  classify_content (v_engine st) c = (r, eng') ->
  forall c', tier_of eng' c' = tier_of eng c'.
Proof.
  intros Hinv Ec c'. rewrite <- Hinv.
  destruct (classify_content_outcome (v_engine st) c) as (t & e1 & Ec' & Hout).
  rewrite Ec in Ec'. injection Ec' as -> ->.
  destruct (v_engine st) as [e|].
  - destruct Hout as (e' & -> & Hq & _). now apply tier_of_setup.
  - destruct Hout as (-> & _). reflexivity.
Qed.

Lemma migrate_other_file (st : vault_state) (g : file_info) :
  ready st ->
  target_of H cfg g <> target_of H cfg f ->
  target_of H cfg g <> info_path f ->
  ready (migrate_file H compiled cfg st g)
  /\ v_disk (migrate_file H compiled cfg st g) !! target_of H cfg f
     = v_disk st !! target_of H cfg f.
Proof.
  intros (Hd & He & a & b & c & Hc) Ht Hs.
  split; [|apply migrate_file_disk; congruence].
  split; [rewrite migrate_file_disk by congruence; exact Hd|].
  destruct (migrate_file_engine H compiled cfg st g a b c Hc) as (a' & b' & c' & Hc' & _).
  split; [|eauto].
  destruct (migrate_file_cases H compiled cfg st g)
    as [->|[(x & t & eng' & key & _ & Ec & _ & Hk)|(x & _ & ->)]]; [exact He| |exact He].
  assert (Ee : v_engine (migrate_file H compiled cfg st g) = eng').
  { destruct Hk as [(_ & ->)|(counted & _ & [(_ & ->)|(_ & [->| ->])])]; reflexivity. }
  rewrite Ee. eapply ready_engine; eassumption.
Qed.

Lemma migrate_this_file (st : vault_state) :
  ready st ->
  v_disk st !! target_of H cfg f = d !! target_of H cfg f
  \/ v_disk st !! target_of H cfg f = fate ->
  ready (migrate_file H compiled cfg st f)
  /\ v_disk (migrate_file H compiled cfg st f) !! target_of H cfg f = fate.
Proof.
  intros (Hd & He & a & b & c & Hc) Hbefore.
  assert (Hr : read_text_file (v_disk st) (info_path f) = Some content).
  { unfold read_text_file in *. now rewrite Hd. }
  destruct (classify_content_outcome (v_engine st) content) as (t & eng' & Ec & _).
  assert (t = tier) as ->.
  { pose proof (He content) as E. unfold tier_of in E at 1. rewrite Ec in E. cbn in E.
    congruence. }
  pose proof (ready_engine st content (Ok tier) eng' He Ec) as He'.
  destruct (tier_key tier) as [key|e] eqn:Ek.
  2:{ destruct tier_key_values as (K1 & K2 & K3). destruct tier; congruence. }
  destruct (count_tier_values _ _ _ _ _ _ Hc Ek) as (counted & Ect & Ecs & _).
  assert (Ew : fst (clean_step compiled cfg content counted) = written_text compiled cfg content).
  { unfold clean_step, written_text. now destruct (privacy_cleaning_enabled cfg). }
  pose proof (clean_step_counts compiled cfg content counted) as Ecc.
  assert (Hst : ready st) by (split; [exact Hd|]; split; [exact He|]; eauto).
  unfold migrate_file, text_fate, ready_for in *.
  destruct (can_mkdir H (path_parent H (target_of H cfg f))); cbn [negb andb] in *.
  2:{ split; [exact Hst|]. destruct (over_limit cfg tier), Hbefore as [E|E]; exact E. }
  rewrite Htext, Hr, Ec, Ek, Ect.
  destruct (over_limit cfg tier).
  - cbn [v_disk v_engine v_results]. split; [|destruct Hbefore as [E|E]; exact E].
    split; [exact Hd|]. split; [exact He'|]. cbn [bump_excluded privacy_tier_counts].
    eauto.
  - destruct (clean_step compiled cfg content counted) as [content' cleaned].
    cbn [fst snd] in *. subst content'.
    destruct (can_write H (target_of H cfg f)); cbn [v_disk v_engine v_results].
    + split; [|now rewrite lookup_insert_eq].
      split; [rewrite lookup_insert_ne by exact Hsource; exact Hd|].
      split; [exact He'|]. cbn. rewrite Ecc. eauto.
    + split; [|destruct Hbefore as [E|E]; exact E].
      split; [exact Hd|]. split; [exact He'|]. rewrite Ecc. eauto.
Qed.

Lemma migrate_files_fate (files : list file_info) :
  (forall g, In g files -> target_of H cfg g = target_of H cfg f -> g = f) ->
  (forall g, In g files -> target_of H cfg g <> info_path f) ->
  forall st,
    ready st ->
    v_disk st !! target_of H cfg f = d !! target_of H cfg f
    \/ v_disk st !! target_of H cfg f = fate ->
    let st' := fold_left (migrate_file H compiled cfg) files st in
    (v_disk st' !! target_of H cfg f = d !! target_of H cfg f
     \/ v_disk st' !! target_of H cfg f = fate)
    /\ (In f files \/ v_disk st !! target_of H cfg f = fate ->
        v_disk st' !! target_of H cfg f = fate).
Proof.
  induction files as [|g files IH]; intros Huniq Hsrc st Hready Hbefore; cbn [fold_left].
  - split; [exact Hbefore | intros [[]|E]; exact E].
  - assert (Huniq' : forall g', In g' files ->
                       target_of H cfg g' = target_of H cfg f -> g' = f)
      by (intros g' Hg; apply Huniq; now right).
    assert (Hsrc' : forall g', In g' files -> target_of H cfg g' <> info_path f)
      by (intros g' Hg; apply Hsrc; now right).
    destruct (string_dec (target_of H cfg g) (target_of H cfg f)) as [Et|Et].
    + assert (g = f) as -> by (apply Huniq; [now left | exact Et]).
      destruct (migrate_this_file st Hready Hbefore) as (Hready' & Hfate).
      destruct (IH Huniq' Hsrc' _ Hready' (or_intror Hfate)) as (I1 & I2).
      cbn zeta in *. split; [exact I1|]. intros _. apply I2. now right.
    + destruct (migrate_other_file st g Hready Et) as (Hready' & Hsame);
        [apply Hsrc; now left|].
      assert (Hbefore' : v_disk (migrate_file H compiled cfg st g) !! target_of H cfg f
                         = d !! target_of H cfg f
                         \/ v_disk (migrate_file H compiled cfg st g) !! target_of H cfg f
                            = fate) by (rewrite Hsame; exact Hbefore).
      destruct (IH Huniq' Hsrc' _ Hready' Hbefore') as (I1 & I2).
      cbn zeta in *. split; [exact I1|].
      intros [[->|Hin]|E]; [contradiction | apply I2; now left | apply I2; right; now rewrite Hsame].
Qed.

End TextFile.

Section OtherFile.

Variable H : Host.
Variable compiled : list (string * list cleaner).
Variable cfg : transplant_config.
Variable d : disk.
Variable f : file_info.
Variable c : file_content.

Hypothesis Hother : is_text_suffix (path_suffix_lower H (info_path f)) = false.

Local Abbreviation copied := (copy_fate H cfg d f c).

Lemma copy_files_fate (files : list file_info) :
  (forall g, In g files -> target_of H cfg g = target_of H cfg f -> g = f) ->
  (forall g, In g files -> target_of H cfg g <> info_path f) ->
  forall st,
    v_disk st !! info_path f = Some c ->
    v_disk st !! target_of H cfg f = d !! target_of H cfg f
    \/ v_disk st !! target_of H cfg f = copied ->
    let st' := fold_left (migrate_file H compiled cfg) files st in
    (v_disk st' !! target_of H cfg f = d !! target_of H cfg f
     \/ v_disk st' !! target_of H cfg f = copied)
    /\ (In f files \/ v_disk st !! target_of H cfg f = copied ->
        v_disk st' !! target_of H cfg f = copied).
Proof.
  induction files as [|g files IH]; intros Huniq Hsrc st Hd Hbefore; cbn [fold_left].
  - split; [exact Hbefore | intros [[]|E]; exact E].
  - assert (Huniq' : forall g', In g' files ->
                       target_of H cfg g' = target_of H cfg f -> g' = f)
      by (intros g' Hg; apply Huniq; now right).
    assert (Hsrc' : forall g', In g' files -> target_of H cfg g' <> info_path f)
      by (intros g' Hg; apply Hsrc; now right).
    assert (Hd' : v_disk (migrate_file H compiled cfg st g) !! info_path f = Some c).
    { rewrite migrate_file_disk; [exact Hd|]. intros E. apply (Hsrc g); [now left | congruence]. }
    destruct (string_dec (target_of H cfg g) (target_of H cfg f)) as [Et|Et].
    + assert (g = f) as -> by (apply Huniq; [now left | exact Et]).
      assert (Hfate : v_disk (migrate_file H compiled cfg st f) !! target_of H cfg f = copied).
      { clear IH Hd'. unfold migrate_file, copy2, copy_fate in *.
        rewrite Hother, Hd.
        assert (En : String.eqb (info_path f) (target_of H cfg f) = false).
        { apply String.eqb_neq. intros E. apply (Hsrc f); [now left | congruence]. }
        rewrite En.
        destruct (can_mkdir H (path_parent H (target_of H cfg f))); cbn [negb andb] in *;
          [|destruct Hbefore as [E|E]; exact E].
        destruct (can_write H (target_of H cfg f)); cbn [v_disk];
          [now rewrite lookup_insert_eq | destruct Hbefore as [E|E]; exact E]. }
      destruct (IH Huniq' Hsrc' _ Hd' (or_intror Hfate)) as (I1 & I2).
      cbn zeta in *. split; [exact I1|]. intros _. apply I2. now right.
    + assert (Hsame : v_disk (migrate_file H compiled cfg st g) !! target_of H cfg f
                      = v_disk st !! target_of H cfg f)
        by (apply migrate_file_disk; congruence).
      assert (Hbefore' : v_disk (migrate_file H compiled cfg st g) !! target_of H cfg f
                         = d !! target_of H cfg f
                         \/ v_disk (migrate_file H compiled cfg st g) !! target_of H cfg f
                            = copied) by (rewrite Hsame; exact Hbefore).
      destruct (IH Huniq' Hsrc' _ Hd' Hbefore') as (I1 & I2).
      cbn zeta in *. split; [exact I1|].
      intros [[->|Hin]|E]; [contradiction | apply I2; now left | apply I2; right; now rewrite Hsame].
Qed.

End OtherFile.

(** A text file whose target path no other listed file shares, and whose
    source no listed file overwrites, ends up as follows.  If its tier is
    outside the privacy limits, nothing is written to its target.
    Otherwise, if the target's directory can be created and the target can
    be written, the target holds the file's text, cleaned when cleaning is
    enabled and verbatim when it is not; if not, the target stays as it
    was.  The tier is the engine's classification of the text, or tier 1
    when there is no engine. *)
Theorem migrate_text_file_fate (H : Host) (compiled : list (string * list cleaner))
    (cfg : transplant_config) (files : list file_info) (eng : option engine) (d : disk)
    (st : vault_state) (f : file_info) (content : text) (tier : PrivacyTier)
    (Hrun : _migrate_vault_files H compiled cfg files eng d = Some st)
    (Hin : In f files)
    (Htext : is_text_suffix (path_suffix_lower H (info_path f)) = true)
    (Hread : read_text_file d (info_path f) = Some content)
    (Htier : tier_of eng content = Ok tier)
    (Huniq : forall g, In g files -> target_of H cfg g = target_of H cfg f -> g = f)
    (Hsrc : forall g, In g files -> target_of H cfg g <> info_path f) :
  v_disk st !! target_of H cfg f
  = if over_limit cfg tier then d !! target_of H cfg f
    else if can_mkdir H (path_parent H (target_of H cfg f)) && can_write H (target_of H cfg f)
         then Some (TextFile (written_text compiled cfg content))
         else d !! target_of H cfg f.
Proof.
  unfold _migrate_vault_files in Hrun.
  destruct (can_mkdir H (target_vault_path cfg)); [|discriminate].
  injection Hrun as <-.
  apply (migrate_files_fate H compiled cfg eng d f content tier Htext Hread Htier
           (Hsrc f Hin) files Huniq Hsrc
           {| v_engine := eng; v_disk := d; v_results := initial_results files |}).
  - split; [reflexivity|]. split; [reflexivity|]. exists 0, 0, 0. reflexivity.
  - now left.
  - now left.
Qed.

Lemma migrate_text_file_fate_witness :
  exists st,
    demo_migration = Some st
    /\ v_disk st !! "/new/note.md"%string
       = Some (TextFile (T "call[PERSONAL_INFO_REMOVED] today")).
Proof.
  destruct demo_migration as [st|] eqn:E; [|vm_compute in E; discriminate E].
  exists st. split; [reflexivity|].
  apply (migrate_text_file_fate demo_host demo_cleaners demo_config demo_files
           (Some demo_engine) demo_disk st
           {| info_path := "/vault/note.md"; info_relative_path := "note.md" |}
           (T "call 555-123-4567 today") PUBLIC E).
  - right; left; reflexivity.
  - reflexivity.
  - reflexivity.
  - vm_compute. reflexivity.
  - intros g [<-|[<-|[<-|[]]]]; vm_compute; intros D; (reflexivity || discriminate D).
  - intros g [<-|[<-|[<-|[]]]]; vm_compute; intros D; discriminate D.
Defined.

(** A file that is not a text file is never classified: whatever the
    privacy limits and whatever it holds, it is copied as it is to its target
    when the target's directory can be created and the target can be
    written (and no other listed file shares that target or overwrites the
    source); otherwise the target stays as it was. *)
Theorem migrate_copies_other_files (H : Host) (compiled : list (string * list cleaner))
    (cfg : transplant_config) (files : list file_info) (eng : option engine) (d : disk)
    (st : vault_state) (f : file_info) (c : file_content)
    (Hrun : _migrate_vault_files H compiled cfg files eng d = Some st)
    (Hin : In f files)
    (Hother : is_text_suffix (path_suffix_lower H (info_path f)) = false)
    (Hsource : d !! info_path f = Some c)
    (Huniq : forall g, In g files -> target_of H cfg g = target_of H cfg f -> g = f)
    (Hsrc : forall g, In g files -> target_of H cfg g <> info_path f) :
  v_disk st !! target_of H cfg f
  = if can_mkdir H (path_parent H (target_of H cfg f)) && can_write H (target_of H cfg f)
    then Some c
    else d !! target_of H cfg f.
Proof.
  unfold _migrate_vault_files in Hrun.
  destruct (can_mkdir H (target_vault_path cfg)); [|discriminate].
  injection Hrun as <-.
  apply (copy_files_fate H compiled cfg d f c Hother files Huniq Hsrc
           {| v_engine := eng; v_disk := d; v_results := initial_results files |}).
  - exact Hsource.
  - now left.
  - now left.
Qed.

Lemma migrate_copies_other_files_witness :
  exists st,
    demo_migration = Some st
    /\ v_disk st !! "/new/logo.png"%string = Some (BinaryFile (T "PNG")).
Proof.
  destruct demo_migration as [st|] eqn:E; [|vm_compute in E; discriminate E].
  exists st. split; [reflexivity|].
  apply (migrate_copies_other_files demo_host demo_cleaners demo_config demo_files
           (Some demo_engine) demo_disk st
           {| info_path := "/vault/logo.png"; info_relative_path := "logo.png" |}
           (BinaryFile (T "PNG")) E).
  - right; right; left; reflexivity.
  - reflexivity.
  - reflexivity.
  - intros g [<-|[<-|[<-|[]]]]; vm_compute; intros D; (reflexivity || discriminate D).
  - intros g [<-|[<-|[<-|[]]]]; vm_compute; intros D; discriminate D.
Defined.

(** ** Failed ingestion *)



Example failed_run_stores_chunks :
  map e_document (collections (snd demo_failed_run) PUBLIC) = [T "hi"; T "i"]
  /\ collections demo_engine PUBLIC = [].
Proof. vm_compute. split; reflexivity. Qed.

(** ** Cleaner and classifier *)

Lemma scan_match (p : pattern) (t : text) (fuel : nat) :
  forall i adv,
    scan p t fuel i adv <> [] ->
    exists j st, (j <= length t)%nat /\ In st (match_at p t j).
Proof.
  induction fuel as [|fuel IH]; intros i adv Hs; cbn [scan] in Hs; [contradiction|].
  destruct (length t <? i)%nat eqn:El; [contradiction|].
  apply Nat.ltb_ge in El.
  match type of Hs with
  | context [List.filter ?f ?l] => destruct (List.filter f l) as [|st l'] eqn:Ef
  end.
  - eapply IH. exact Hs.
  - exists i, st. split; [exact El|].
    assert (Hin : In st (st :: l')) by apply in_eq.
    rewrite <- Ef in Hin. apply List.filter_In in Hin. tauto.
Qed.

Lemma scan_finds (p : pattern) (t : text) (j : nat) (fuel : nat) :
  forall i,
    (i <= j)%nat -> (j - i < fuel)%nat -> (j <= length t)%nat ->
    match_at p t j <> [] ->
    scan p t fuel i false <> [].
Proof.
  induction fuel as [|fuel IH]; intros i Hij Hf Hj Hm; [lia|].
  cbn [scan].
  assert (El : (length t <? i)%nat = false) by (apply Nat.ltb_ge; lia).
  rewrite El. cbn [negb orb].
  assert (Ef : forall l : list mstate, List.filter (fun _ => true) l = l)
    by (induction l as [|x l IHl]; cbn; [reflexivity | now rewrite IHl]).
  rewrite Ef.
  destruct (match_at p t i) as [|st l] eqn:Em; [|discriminate].
  assert (i <> j) by (intros ->; contradiction).
  apply IH; [lia | lia | exact Hj | exact Hm].
Qed.

Lemma findall0_search (p : pattern) (t : text) :
  findall0 p t <> [] <-> search p t = true.
Proof.
  rewrite search_iff. unfold findall0, match_spans. split.
  - intros Hf. apply (scan_match p t (2 * length t + 3) 0 false).
    intros E. apply Hf. now rewrite E.
  - intros (j & st & Hj & Hin) E.
    apply (scan_finds p t j (2 * length t + 3) 0); [lia | lia | exact Hj | |].
    + intros Em. now rewrite Em in Hin.
    + destruct (scan p t (2 * length t + 3) 0 false); [reflexivity | discriminate E].
Qed.

(** The cleaner's patterns for social security numbers, e-mail addresses
    and card numbers are the engine's own first three Personal patterns: a
    text the cleaner finds one of them in is classified Personal by an
    engine with the default patterns, and conversely a text in which none of
    the engine's Personal patterns matches is not flagged by any of these
    three. *)
Theorem flagged_identifier_is_personal (s : engine) (t : text) (r : regex)
    (Hr : In r [re_ssn; re_email; re_card])
    (Hpat : compiled_patterns s PERSONAL = init_compiled_patterns PERSONAL) :
  (cl_findall (cleaner_of (compile_ic r)) t <> [] ->
   fst (classify_privacy_tier t s) = Ok PERSONAL)
  /\ (fst (classify_privacy_tier t s) <> Ok PERSONAL ->
      cl_findall (cleaner_of (compile_ic r)) t = []
      /\ cl_sub (cleaner_of (compile_ic r)) (T "[PERSONAL_INFO_REMOVED]") t = t).
Proof.
  assert (Hany : search (compile_ic r) t = true -> any_match (patterns_of s PERSONAL) t = true).
  { intros Hs. unfold any_match, patterns_of. rewrite Hpat. cbn [init_compiled_patterns
      privacy_patterns option_map]. apply existsb_exists. exists (compile_ic r).
    split; [|exact Hs]. apply in_map. cbn in Hr. cbn. tauto. }
  assert (Hyes : cl_findall (cleaner_of (compile_ic r)) t <> [] ->
                 fst (classify_privacy_tier t s) = Ok PERSONAL).
  { intros Hf. cbn [cl_findall cleaner_of] in Hf. apply findall0_search in Hf.
    apply Hany in Hf. unfold classify_privacy_tier, bind, get. rewrite Hf. reflexivity. }
  split; [exact Hyes|].
  intros Hno.
  assert (Hnil : cl_findall (cleaner_of (compile_ic r)) t = []).
  { destruct (cl_findall (cleaner_of (compile_ic r)) t) as [|x l] eqn:E; [reflexivity|].
    exfalso. apply Hno, Hyes. discriminate. }
  split; [exact Hnil|].
  cbn [cl_findall cl_sub cleaner_of] in *. unfold re_sub, findall0 in *.
  destruct (match_spans (compile_ic r) t); [reflexivity | discriminate Hnil].
Qed.

Lemma flagged_identifier_is_personal_witness :
  cl_findall (cleaner_of (compile_ic re_ssn)) (T "my ssn is 123-45-6789") = [T "123-45-6789"]
  /\ fst (classify_privacy_tier (T "my ssn is 123-45-6789") demo_engine) = Ok PERSONAL.
Proof.
  split; [vm_compute; reflexivity|].
  apply (flagged_identifier_is_personal demo_engine (T "my ssn is 123-45-6789") re_ssn).
  - left; reflexivity.
  - reflexivity.
  - vm_compute. discriminate.
Defined.
